(** * Context-aware quantum environment: truncation and episode stepper

    A shallow embedding of [rl_qoc/context_aware_quantum_environment.py]:
    the action buffer ([create_array]), the truncation builder
    ([define_target_and_circuits]), the truncation selection policy
    ([trunc_index]), the episode stepper ([reset], [step]) and the
    context update ([set_circuit_context]).

    Python exceptions are values of [exn]; a method of the environment is
    a function from the object's state to the state left behind and either
    a returned value or a raised exception, so that what a call has
    already written when it raises stays visible. *)

From Stdlib Require Import ZArith List Bool String Reals Lra Lia.
From Stdlib Require PrimFloat.
From stdpp Require Import base option list gmap strings pretty.
Import ListNotations.

Set Default Proof Using "Type".

(** ** Python: exceptions, results, integer arithmetic, indexing *)

Module Py.

(** The exceptions the modelled methods raise, one constructor per
    [raise] or failing primitive of the source. *)
Inductive exn : Type :=
| ValueError_TargetNotFound        (* "Target gate not found in circuit context" *)
| ValueError_UnassignedParameters  (* "Circuit context still contains unassigned parameters" *)
| ValueError_BatchSize (got want : nat)  (* "Action batch size .. does not match .." *)
| ValueError_ParameterNotFound (name : string)  (* "Parameter .. not found in circuit context" *)
| ValueError_Shape                 (* numpy: broadcast or reshape of incompatible shapes *)
| ValueError_NotInRegister         (* Register.index of a bit that is not in the register *)
| TypeError_ParametrizedCircuitFunc (* "Failed to call parametrized_circuit_func" *)
| AssertionError_RewardSize        (* "Reward table size mismatch .." *)
| AssertionError_NaNInf            (* "Reward table contains NaN or Inf values" *)
| IndexError
| KeyError
| ZeroDivisionError
| CircuitError                     (* qiskit: bit not in circuit, duplicate bit *)
| ExternalError (tag : string).    (* raised by a collaborator *)

Inductive result (A : Type) : Type :=
| OK (a : A)
| Raise (e : exn).
Arguments OK {A} a.
Arguments Raise {A} e.

#[global] Instance result_ret : MRet result := fun A x => OK x.
#[global] Instance result_bind : MBind result :=
  fun A B f m => match m with OK a => f a | Raise e => Raise e end.
#[global] Instance result_fmap : FMap result :=
  fun A B f m => match m with OK a => OK (f a) | Raise e => Raise e end.

Definition is_ok {A} (r : result A) : bool :=
  match r with OK _ => true | Raise _ => false end.

(** [a // b] and [a % b] on Python integers: floor division, the
    remainder has the sign of the divisor, a zero divisor raises. *)
Definition floordiv (a b : Z) : result Z :=
  if (b =? 0)%Z then Raise ZeroDivisionError else OK (a / b)%Z.

Definition mod_ (a b : Z) : result Z :=
  if (b =? 0)%Z then Raise ZeroDivisionError else OK (a mod b)%Z.

(** Position designated by index [i] in a sequence of length [len]:
    negative indices count from the end. *)
Definition index (len : nat) (i : Z) : result nat :=
  if (0 <=? i)%Z then
    if (i <? Z.of_nat len)%Z then OK (Z.to_nat i) else Raise IndexError
  else
    if (- Z.of_nat len <=? i)%Z then OK (Z.to_nat (Z.of_nat len + i))
    else Raise IndexError.

(** [l[i]] *)
Definition getitem {A} (l : list A) (i : Z) : result A :=
  p ← index (length l) i;
  match l !! p with Some x => OK x | None => Raise IndexError end.

(** [l[i] = x] *)
Definition setitem {A} (l : list A) (i : Z) (x : A) : result (list A) :=
  p ← index (length l) i; OK (<[p := x]> l).

#[global] Arguments index : simpl never.
#[global] Arguments getitem : simpl never.
#[global] Arguments setitem : simpl never.

(** A loop whose body may raise: [for x in l: a = f(a, x)]. *)
Fixpoint for_each {A B} (f : A -> B -> result A) (a : A) (l : list B)
  : result A :=
  match l with
  | [] => OK a
  | x :: rest => a' ← f a x; for_each f a' rest
  end.

(** [any(...)] over a list of booleans. *)
Definition any (l : list bool) : bool := existsb (fun b => b) l.

(** [l.count(x)] *)
Definition count `{EqDecision A} (l : list A) (x : A) : nat :=
  length (filter (fun y => y = x) l).

End Py.
Export Py.

(** ** numpy: float64 values and the array operations the stepper uses

    A float64 is either finite, an infinity or NaN.  Finite values are
    taken as real numbers: rounding is not modelled. *)

Module Np.

Inductive np_float : Type :=
| Finite (x : R)
| PosInf
| NegInf
| NaN.

Definition isnan (x : np_float) : bool :=
  match x with NaN => true | _ => false end.

Definition isinf (x : np_float) : bool :=
  match x with PosInf | NegInf => true | _ => false end.

Definition neg (x : np_float) : np_float :=
  match x with
  | Finite r => Finite (- r)
  | PosInf => NegInf
  | NegInf => PosInf
  | NaN => NaN
  end.

Definition add (x y : np_float) : np_float :=
  match x, y with
  | NaN, _ | _, NaN => NaN
  | PosInf, NegInf | NegInf, PosInf => NaN
  | PosInf, _ | _, PosInf => PosInf
  | NegInf, _ | _, NegInf => NegInf
  | Finite a, Finite b => Finite (a + b)
  end.

Definition sub (x y : np_float) : np_float := add x (neg y).

(** [x > y]: false as soon as one side is NaN. *)
Definition gt (x y : np_float) : bool :=
  match x, y with
  | NaN, _ | _, NaN => false
  | PosInf, PosInf => false
  | PosInf, _ => true
  | _, PosInf => false
  | NegInf, _ => false
  | Finite _, NegInf => true
  | Finite a, Finite b => if Rlt_dec b a then true else false
  end.

Definition maximum (x y : np_float) : np_float :=
  match x, y with
  | NaN, _ | _, NaN => NaN
  | _, _ => if gt y x then y else x
  end.

Definition minimum (x y : np_float) : np_float :=
  match x, y with
  | NaN, _ | _, NaN => NaN
  | _, _ => if gt x y then y else x
  end.

(** [np.clip(x, a_min, a_max)] is [minimum(maximum(x, a_min), a_max)]. *)
Definition clip (x a_min a_max : np_float) : np_float :=
  minimum (maximum x a_min) a_max.

(** [np.log]: minus infinity at zero, NaN below. *)
Definition log (x : np_float) : np_float :=
  match x with
  | Finite r =>
      if Rlt_dec 0 r then Finite (ln r)
      else if Req_dec_T r 0 then NegInf else NaN
  | PosInf => PosInf
  | NegInf => NaN
  | NaN => NaN
  end.

(** Division of a sum by a count, as [np.mean] does last. *)
Definition div_count (x : np_float) (n : nat) : np_float :=
  match n with
  | O => NaN
  | S _ =>
      match x with
      | Finite r => Finite (r / INR n)
      | other => other
      end
  end.

Definition sum (l : list np_float) : np_float :=
  fold_left add l (Finite 0).

(** [np.mean] of a one-dimensional array; NaN on the empty array. *)
Definition mean (l : list np_float) : np_float :=
  div_count (sum l) (length l).

(** [np.zeros(n)] and [np.zeros((r, c))], [np.zeros((d, r, c))]. *)
Definition zeros (n : nat) : list np_float := replicate n (Finite 0).
Definition zeros2 (r c : nat) : list (list np_float) := replicate r (zeros c).
Definition zeros3 (d r c : nat) : list (list (list np_float)) :=
  replicate d (zeros2 r c).

(** [np.vstack] of a sequence of two-dimensional blocks: their rows, in
    order. *)
Definition vstack {A} (blocks : list (list (list A))) : list (list A) :=
  concat blocks.

(** Row-major contents of a two-dimensional array. *)
Definition ravel {A} (a : list (list A)) : list A := concat a.

(** [rows] consecutive slices of width [cols]. *)
Fixpoint chunks {A} (rows cols : nat) (flat : list A) : list (list A) :=
  match rows with
  | O => []
  | S r => take cols flat :: chunks r cols (drop cols flat)
  end.

(** [np.reshape(a, (rows, cols))] in C order.  [rows] is a size the
    caller holds as a non-negative integer; [cols] is computed and may
    be negative: [-1] asks numpy to infer the dimension, any other
    negative value is refused. *)
Definition reshape {A} (a : list (list A)) (rows : nat) (cols : Z)
  : result (list (list A)) :=
  let flat := ravel a in
  let size := length flat in
  if (0 <=? cols)%Z then
    if size =? rows * Z.to_nat cols then OK (chunks rows (Z.to_nat cols) flat)
    else Raise ValueError_Shape
  else if (cols =? -1)%Z then
    match rows with
    | O => Raise ValueError_Shape
    | S _ =>
        if size mod rows =? 0 then OK (chunks rows (size / rows) flat)
        else Raise ValueError_Shape
    end
  else Raise ValueError_Shape.

(** [dst[...] = src] where [dst] has shape [(rows, cols)]: [src] is
    broadcast against it.  [src] is a two-dimensional array given by
    its rows. *)
Definition broadcast_rows {A} (src : list (list A)) (rows cols : nat)
  : result (list (list A)) :=
  let fit_row (r : list A) : result (list A) :=
    if length r =? cols then OK r
    else match r with
         | [x] => OK (replicate cols x)
         | _ => Raise ValueError_Shape
         end in
  if length src =? rows then mapM fit_row src
  else match src with
       | [r] => r' ← fit_row r; OK (replicate rows r')
       | _ => Raise ValueError_Shape
       end.

End Np.
Export Np.

(** [create_array(circ_trunc, batchsize, n_actions)]: level [i] of the
    buffer is a zero array of shape [(i + 1, batchsize, n_actions)]. *)
Definition create_array (circ_trunc batchsize n_actions : nat)
  : list (list (list (list np_float))) :=
  map (fun i => zeros3 (i + 1) batchsize n_actions) (seq 0 circ_trunc).

(** The reward shaping at the end of [step]:
    [reward = np.clip(reward, a_min=0.0, a_max=max_fidelity)] then
    [reward = -np.log(1.0 - reward)], for one entry.  A finite entry is a
    real number here and the arithmetic is exact; [F64] below has the same
    lines with the rounding of binary64. *)
Definition optimal_error_precision : R := 1e-6.
Definition max_fidelity : R := 1 - optimal_error_precision.

Definition negative_log_error (score : np_float) : np_float :=
  let clipped := clip score (Finite 0) (Finite max_fidelity) in
  neg (log (sub (Finite 1) clipped)).

(** ** The shaping on binary64 numbers

    The same two lines on the float64 entries numpy computes with: the
    constants are the binary64 numbers nearest to the decimal literals of
    the source, and the subtractions round to nearest, ties to even.
    [np.log] is the C library's logarithm: it stays an argument. *)

Module F64.

Import PrimFloat.
#[local] Open Scope float_scope.
#[local] Set Warnings "-inexact-float".

Definition optimal_error_precision : float := 1e-6.
Definition max_fidelity : float := 1.0 - optimal_error_precision.

(** [np.maximum] and [np.minimum] hand a NaN on. *)
Definition maximum (x y : float) : float :=
  if is_nan x || is_nan y then nan else if x <? y then y else x.

Definition minimum (x y : float) : float :=
  if is_nan x || is_nan y then nan else if y <? x then y else x.

Definition clip (x a_min a_max : float) : float :=
  minimum (maximum x a_min) a_max.

(** [1.0 - np.clip(reward, a_min=0.0, a_max=max_fidelity)], what the
    logarithm is taken of. *)
Definition error (reward : float) : float :=
  1.0 - clip reward 0.0 max_fidelity.

Definition negative_log_error (log : float -> float) (reward : float) : float :=
  - log (error reward).

(** Scores a collaborator can return. *)
Definition no_fidelity : float := 0.0.
Definition tiny_fidelity : float := 1e-17.
Definition tenth : float := 0.1.
Definition above_tenth : float := 0.10000000000000002.

End F64.


(** ** Qiskit: bits, operations, instructions, circuits, layouts *)

Module Qk.

Inductive RegName : Type := tgt | nn | anc.

(** A bit is either qubit number [i] of a circuit context or element [i]
    of one of the registers of the truncated circuits. *)
Inductive Bit : Type :=
| Qubit (i : nat)
| RegBit (reg : RegName) (i : nat).

#[global] Instance RegName_eq_dec : EqDecision RegName.
Proof. solve_decision. Defined.

#[global] Instance Bit_eq_dec : EqDecision Bit.
Proof. solve_decision. Defined.

Definition Bit_code (b : Bit) : nat + (nat * nat) :=
  match b with
  | Qubit i => inl i
  | RegBit tgt i => inr (0, i)
  | RegBit nn i => inr (1, i)
  | RegBit anc i => inr (2, i)
  end.

Definition Bit_decode (c : nat + (nat * nat)) : Bit :=
  match c with
  | inl i => Qubit i
  | inr (0, i) => RegBit tgt i
  | inr (1, i) => RegBit nn i
  | inr (_, i) => RegBit anc i
  end.

#[global] Instance Bit_countable : Countable Bit.
Proof.
  apply (inj_countable' Bit_code Bit_decode).
  intros [i | [] i]; reflexivity.
Defined.

(** A gate parameter: a free symbol or a number.  Numbers are only ever
    compared for equality and are kept as integers. *)
Inductive ParameterValue : Type :=
| Symbol (name : string)
| Number (v : Z).

#[global] Instance ParameterValue_eq_dec : EqDecision ParameterValue.
Proof. solve_decision. Defined.

Record Operation : Type := mkOperation {
  op_name : string;
  op_params : list ParameterValue
}.

#[global] Instance Operation_eq_dec : EqDecision Operation.
Proof. solve_decision. Defined.

Record CircuitInstruction : Type := mkInstruction {
  operation : Operation;
  qubits : list Bit
}.

#[global] Instance CircuitInstruction_eq_dec : EqDecision CircuitInstruction.
Proof. solve_decision. Defined.

(** [op_start_times] is the attribute a scheduled circuit carries. *)
Record QuantumCircuit : Type := mkCircuit {
  qc_name : string;
  qc_qubits : list Bit;
  data : list CircuitInstruction;
  op_start_times : option (list Z)
}.

(** [QuantumCircuit(register, name=..)] *)
Definition new_circuit (register : list Bit) (name : string) : QuantumCircuit :=
  mkCircuit name register [] None.

(** [QuantumRegister(size, name)] *)
Definition QuantumRegister (size : nat) (name : RegName) : list Bit :=
  map (RegBit name) (seq 0 size).

(** [register.index(bit)] *)
Fixpoint register_index (register : list Bit) (b : Bit) : result nat :=
  match register with
  | [] => Raise ValueError_NotInRegister
  | x :: rest =>
      if decide (x = b) then OK 0
      else S <$> register_index rest b
  end.

(** [qc.add_bits([bit])] *)
Definition add_bits (qc : QuantumCircuit) (b : Bit) : result QuantumCircuit :=
  if decide (b ∈ qc_qubits qc) then Raise CircuitError
  else OK (mkCircuit (qc_name qc) (qc_qubits qc ++ [b]) (data qc) (op_start_times qc)).

(** [qc.append(operation, qargs)] *)
Definition append (qc : QuantumCircuit) (op : Operation) (qargs : list Bit)
  : result QuantumCircuit :=
  if forallb (fun b => bool_decide (b ∈ qc_qubits qc)) qargs
     && bool_decide (NoDup qargs)
  then OK (mkCircuit (qc_name qc) (qc_qubits qc)
             (data qc ++ [mkInstruction op qargs]) (op_start_times qc))
  else Raise CircuitError.

(** [qc.parameters]: the free symbols of the circuit. *)
Definition symbols_of (op : Operation) : list string :=
  omap (fun p => match p with Symbol s => Some s | Number _ => None end)
       (op_params op).

Definition parameters_of (qc : QuantumCircuit) : list string :=
  flat_map (fun ins => symbols_of (operation ins)) (data qc).

(** [qc.has_parameter(name)] *)
Definition has_parameter (qc : QuantumCircuit) (name : string) : bool :=
  bool_decide (name ∈ parameters_of qc).

(** [qc.assign_parameters({name: value}, inplace=True)] *)
Definition bind_symbol (name : string) (value : Z) (p : ParameterValue)
  : ParameterValue :=
  match p with
  | Symbol s => if decide (s = name) then Number value else Symbol s
  | Number v => Number v
  end.

Definition assign_parameters (qc : QuantumCircuit) (name : string) (value : Z)
  : QuantumCircuit :=
  mkCircuit (qc_name qc) (qc_qubits qc)
    (map (fun ins =>
            mkInstruction
              (mkOperation (op_name (operation ins))
                 (map (bind_symbol name value) (op_params (operation ins))))
              (qubits ins))
         (data qc))
    (op_start_times qc).

(** A [Layout]: pairs of a virtual bit and a physical index, kept one to
    one: [add] first drops what either side was paired with. *)
Definition Layout : Type := list (Bit * nat).

Definition layout_add (l : Layout) (virtual : Bit) (physical : nat) : Layout :=
  filter (fun vp => vp.1 ≠ virtual ∧ vp.2 ≠ physical) l ++ [(virtual, physical)].

(** [Layout({register[i]: physical[i] for i in range(register.size)})] *)
Definition layout_from (register : list Bit) (physical : list nat)
  : result Layout :=
  foldl (fun acc i =>
           l ← acc;
           v ← getitem register (Z.of_nat i);
           p ← getitem physical (Z.of_nat i);
           OK (layout_add l v p))
        (OK []) (seq 0 (length register)).

End Qk.
Export Qk.

(** [GateTarget(gate, physical_qubits, n_reps, circuit, tgt_register,
    layout, ..)], as the record of what the truncation builder passes. *)
Record GateTarget : Type := mkGateTarget {
  gate : Operation;
  gt_physical_qubits : list nat;
  gt_circuit : QuantumCircuit;
  gt_tgt_register : list Bit;
  gt_layout : Layout
}.

(** The shaping as the specification words it, on real scores:
    [-ln(1 - clip(score, 0, 1 - 1e-6))]. *)
Definition spec_reward (score : R) : R :=
  (- ln (1 - Rmin (Rmax score 0) (1 - 1e-6)))%R.

(** The flattened level as the specification words it: the written
    blocks concatenated, nothing reordered, in an array of [batch] rows;
    row [b] is row [b] of each block, one after the other. *)
Definition spec_flatten (batch : nat) (blocks : list (list (list np_float)))
  : list (list np_float) :=
  map (fun b => flat_map (fun block => default [] (block !! b)) blocks)
    (seq 0 batch).


(** ** The environment object *)

Section Environment.

(** What the model leaves abstract: the rest of the state of
    [BaseQuantumEnvironment], the [info] dictionary, the backend and
    [QiskitBackendInfo]. *)
Context {BaseState Info Backend BackendInfo : Type}.

(** Read-only configuration reached through [self.config] and the
    properties of the base class. *)
Record Settings : Type := mkSettings {
  batch_size : nat;
  n_actions : nat;                 (* action_space.shape[-1] *)
  training_steps_per_gate : Z;
  intermediate_rewards : bool;
  reward_method_is_state : bool;   (* config.reward_method == "state" *)
  target_gate : Operation          (* config.target["gate"] *)
}.

Record Hardware : Type := mkHardware {
  backend : option Backend;
  backend_info : BackendInfo;
  physical_target_qubits : list nat;
  physical_neighbor_qubits : list nat;
  physical_next_neighbor_qubits : list nat
}.

Record Context : Type := mkContext {
  circuit_context : QuantumCircuit;
  circ_tgt_register : list Bit;
  target_instruction : CircuitInstruction;
  _parameters : nat;               (* how many vectors a_0, a_1, .. *)
  _op_start_times : list Z;
  _target_instruction_timings : list Z;
  _target : list GateTarget;
  circuits : list QuantumCircuit;
  baseline_circuits : list QuantumCircuit
}.

Record Episode : Type := mkEpisode {
  _step_tracker : Z;
  _inside_trunc_tracker : Z;
  _episode_ended : bool;
  _param_values : list (list (list (list np_float)));
  _max_return : np_float;
  _optimal_action : list np_float;
  reward_history : list (list np_float)
}.

Record Env : Type := mkEnv {
  settings : Settings;
  hardware : Hardware;
  context : Context;
  episode : Episode;
  base : BaseState
}.

(** Attribute assignments. *)
Definition set_episode (f : Episode -> Episode) (e : Env) : Env :=
  mkEnv (settings e) (hardware e) (context e) (f (episode e)) (base e).

Definition set_context (f : Context -> Context) (e : Env) : Env :=
  mkEnv (settings e) (hardware e) (f (context e)) (episode e) (base e).

Definition set_hardware (f : Hardware -> Hardware) (e : Env) : Env :=
  mkEnv (settings e) (f (hardware e)) (context e) (episode e) (base e).

Definition set_base (b : BaseState) (e : Env) : Env :=
  mkEnv (settings e) (hardware e) (context e) (episode e) b.

Definition with_step_tracker (v : Z) (ep : Episode) : Episode :=
  mkEpisode v (_inside_trunc_tracker ep) (_episode_ended ep) (_param_values ep)
    (_max_return ep) (_optimal_action ep) (reward_history ep).

Definition with_inside_trunc_tracker (v : Z) (ep : Episode) : Episode :=
  mkEpisode (_step_tracker ep) v (_episode_ended ep) (_param_values ep)
    (_max_return ep) (_optimal_action ep) (reward_history ep).

Definition with_episode_ended (v : bool) (ep : Episode) : Episode :=
  mkEpisode (_step_tracker ep) (_inside_trunc_tracker ep) v (_param_values ep)
    (_max_return ep) (_optimal_action ep) (reward_history ep).

Definition with_param_values (v : list (list (list (list np_float))))
  (ep : Episode) : Episode :=
  mkEpisode (_step_tracker ep) (_inside_trunc_tracker ep) (_episode_ended ep) v
    (_max_return ep) (_optimal_action ep) (reward_history ep).

Definition with_best (ret : np_float) (action : list np_float) (ep : Episode)
  : Episode :=
  mkEpisode (_step_tracker ep) (_inside_trunc_tracker ep) (_episode_ended ep)
    (_param_values ep) ret action (reward_history ep).

Definition with_reward_history (v : list (list np_float)) (ep : Episode)
  : Episode :=
  mkEpisode (_step_tracker ep) (_inside_trunc_tracker ep) (_episode_ended ep)
    (_param_values ep) (_max_return ep) (_optimal_action ep) v.

Definition with_circuit_context (qc : QuantumCircuit) (c : Context) : Context :=
  mkContext qc (circ_tgt_register c) (target_instruction c) (_parameters c)
    (_op_start_times c) (_target_instruction_timings c) (_target c)
    (circuits c) (baseline_circuits c).

Definition with_target_register (reg : list Bit) (ins : CircuitInstruction)
  (c : Context) : Context :=
  mkContext (circuit_context c) reg ins (_parameters c) (_op_start_times c)
    (_target_instruction_timings c) (_target c) (circuits c)
    (baseline_circuits c).

Definition with_circ_tgt_register (reg : list Bit) (c : Context) : Context :=
  mkContext (circuit_context c) reg (target_instruction c) (_parameters c)
    (_op_start_times c) (_target_instruction_timings c) (_target c)
    (circuits c) (baseline_circuits c).

Definition with_target_instruction (ins : CircuitInstruction) (c : Context)
  : Context :=
  mkContext (circuit_context c) (circ_tgt_register c) ins (_parameters c)
    (_op_start_times c) (_target_instruction_timings c) (_target c)
    (circuits c) (baseline_circuits c).

Definition with_parameters (n : nat) (c : Context) : Context :=
  mkContext (circuit_context c) (circ_tgt_register c) (target_instruction c) n
    (_op_start_times c) (_target_instruction_timings c) (_target c)
    (circuits c) (baseline_circuits c).

Definition with_timings (times timings : list Z) (c : Context) : Context :=
  mkContext (circuit_context c) (circ_tgt_register c) (target_instruction c)
    (_parameters c) times timings (_target c) (circuits c)
    (baseline_circuits c).

Definition with_truncations
  (r : list GateTarget * list QuantumCircuit * list QuantumCircuit)
  (c : Context) : Context :=
  mkContext (circuit_context c) (circ_tgt_register c) (target_instruction c)
    (_parameters c) (_op_start_times c) (_target_instruction_timings c)
    r.1.1 r.1.2 r.2.

Definition with_backend (b : option Backend) (bi : BackendInfo) (h : Hardware)
  : Hardware :=
  mkHardware b bi (physical_target_qubits h) (physical_neighbor_qubits h)
    (physical_next_neighbor_qubits h).

Definition with_backend_info (bi : BackendInfo) (h : Hardware) : Hardware :=
  mkHardware (backend h) bi (physical_target_qubits h)
    (physical_neighbor_qubits h) (physical_next_neighbor_qubits h).

Definition with_neighbor_qubits (l : list nat) (h : Hardware) : Hardware :=
  mkHardware (backend h) (backend_info h) (physical_target_qubits h) l
    (physical_next_neighbor_qubits h).

Definition with_next_neighbor_qubits (l : list nat) (h : Hardware) : Hardware :=
  mkHardware (backend h) (backend_info h) (physical_target_qubits h)
    (physical_neighbor_qubits h) l.

(** A method: the state it leaves, and what it returns or raises. *)
Definition M (A : Type) : Type := Env -> Env * result A.

Definition ret {A} (a : A) : M A := fun e => (e, OK a).
Definition raise {A} (x : exn) : M A := fun e => (e, Raise x).
Definition bind {A B} (m : M A) (f : A -> M B) : M B :=
  fun e =>
    match m e with
    | (e', OK a) => f a e'
    | (e', Raise x) => (e', Raise x)
    end.
Definition read {A} (f : Env -> A) : M A := fun e => (e, OK (f e)).
Definition attempt {A} (f : Env -> result A) : M A := fun e => (e, f e).
Definition update (f : Env -> Env) : M unit := fun e => (f e, OK tt).

#[local] Notation "'do' x <- m ; k" := (bind m (fun x => k))
  (at level 10, x pattern, m at level 100, k at level 200,
   format "'[v' 'do'  x  <-  m ;  '/' k ']'").
#[local] Notation "'run' m ; k" := (bind m (fun _ => k))
  (at level 10, m at level 100, k at level 200,
   format "'[v' 'run'  m ;  '/' k ']'").


(** ** Occurrences of the target instruction *)

(** [get_instruction_timings], used when the circuit carries no
    [op_start_times]. *)
Variable get_instruction_timings : QuantumCircuit -> list Z.

(** [target_instruction_timings(circuit_context, target_instruction)] *)
Definition target_instruction_timings (qc : QuantumCircuit)
  (target : CircuitInstruction) : result (list Z * list Z) :=
  let times :=
    match op_start_times qc with
    | Some t => t
    | None => get_instruction_timings qc
    end in
  timings ←
    for_each (fun acc '(i, instruction) =>
                if decide (instruction = target)
                then t ← getitem times (Z.of_nat i); OK (acc ++ [t])
                else OK acc)
             [] (imap (fun i ins => (i, ins)) (data qc));
  OK (times, timings).

(** The property [tgt_instruction_counts]. *)
Definition tgt_instruction_counts (e : Env) : nat :=
  count (data (circuit_context (context e))) (target_instruction (context e)).

(** ** The truncation builder, [define_target_and_circuits] *)

(** The callback [parametrized_circuit_func(qc, params, tgt_register,
    **func_args)]: it edits the circuit it is given.  [params] is
    [self.parameters[j]], the vector named [a_j], passed here as [j].  A
    [TypeError] it raises is raised again under the source's own message,
    any other exception propagates. *)
Variable parametrized_circuit_func :
  QuantumCircuit -> nat -> list Bit -> result QuantumCircuit.

(** The coupling map of a [QiskitBackendInfo] and [retrieve_neighbor_qubits]
    on it; the assignment [backend_info.num_qubits = n]. *)
Variable coupling_map_size : BackendInfo -> nat.
Variable retrieve_neighbor_qubits : BackendInfo -> list nat -> list nat.
Variable set_num_qubits : BackendInfo -> nat -> BackendInfo.
Variable QiskitBackendInfo : Backend -> BackendInfo.

(** What the loop over the instructions holds for truncation [i]: the
    local counter [counts], [custom_circuits[i]], [baseline_circuits[i]]
    and [layouts[i]]. *)
Record Truncation : Type := mkTruncation {
  counts : nat;
  custom : QuantumCircuit;
  baseline : QuantumCircuit;
  layout : Layout
}.

Section Loop.

(** Values fixed before the loops start. *)
Variable ctx : Context.
Variables neighbor_qubits next_neighbor_qubits : list nat.
Variable circ_nn_qubits : list Bit.
Variables tgt_register nn_register anc_register : list Bit.
Variable mapping : gmap Bit Bit.

(** [mapping[qubit]] *)
Definition mapped (qubit : Bit) : result Bit :=
  match mapping !! qubit with
  | Some b => OK b
  | None => Raise KeyError
  end.

(** [any([qubit in reg for reg in [circ_tgt_register, circ_nn_qubits]
          for qubit in instruction.qubits])] *)
Definition involves_target_qubits (instruction : CircuitInstruction) : bool :=
  any (flat_map
         (fun reg => map (fun qubit => bool_decide (qubit ∈ reg))
                         (qubits instruction))
         [circ_tgt_register ctx; circ_nn_qubits]).

Definition involved_qubits (instruction : CircuitInstruction) : list Bit :=
  if involves_target_qubits instruction
  then filter (fun qubit => qubit ∉ circ_tgt_register ctx) (qubits instruction)
  else [].

(** [counts <= i or start_time <= self._target_instruction_timings[i]];
    the lookup happens only when the first test fails. *)
Definition before_target (i : nat) (counts : nat) (start_time : Z)
  : result bool :=
  if counts <=? i then OK true
  else t ← getitem (_target_instruction_timings ctx) (Z.of_nat i);
       OK (start_time <=? t)%Z.

(** The condition under which the instruction is added to truncation [i]. *)
Definition admitted (i : nat) (counts : nat) (start_time : Z)
  (instruction : CircuitInstruction) : result bool :=
  b ← before_target i counts start_time;
  OK (b && involves_target_qubits instruction).

(** Body of [for qubit in involved_qubits]. *)
Definition add_register_bit (T : Truncation) (qubit : Bit) : result Truncation :=
  let is_nn := bool_decide (qubit ∈ circ_nn_qubits) in
  let q_reg := if is_nn then nn_register else anc_register in
  let physical_qubits :=
    if is_nn then neighbor_qubits else next_neighbor_qubits in
  m ← mapped qubit;
  if bool_decide (m ∈ qc_qubits (custom T)) then OK T
  else
    b ← add_bits (baseline T) m;
    c ← add_bits (custom T) m;
    idx ← register_index q_reg m;
    p ← getitem physical_qubits (Z.of_nat idx);
    OK (mkTruncation (counts T) c b (layout_add (layout T) m p)).

(** Body of the loop over [zip(self._op_start_times,
    self._circuit_context.data)]. *)
Definition visit (i : nat) (T : Truncation)
  (timed : Z * CircuitInstruction) : result Truncation :=
  let '(start_time, instruction) := timed in
  a ← admitted i (counts T) start_time instruction;
  if a : bool then
    T1 ← for_each add_register_bit T (involved_qubits instruction);
    qargs ← mapM mapped (qubits instruction);
    b ← append (baseline T1) (operation instruction) qargs;
    if decide (instruction ≠ target_instruction ctx) then
      c ← append (custom T1) (operation instruction) qargs;
      OK (mkTruncation (counts T1) c b (layout T1))
    else
      if counts T1 <? _parameters ctx then      (* self.parameters[counts] *)
        c ← parametrized_circuit_func (custom T1) (counts T1) tgt_register;
        OK (mkTruncation (S (counts T1)) c b (layout T1))
      else Raise IndexError
  else OK T.

(** The instruction as it is appended to a truncated circuit:
    [(instruction.operation, [mapping[q] for q in instruction.qubits])]. *)
Definition remapped (instruction : CircuitInstruction)
  : result CircuitInstruction :=
  qargs ← mapM mapped (qubits instruction);
  OK (mkInstruction (operation instruction) qargs).

(** The instructions the loop adds to truncation [i], each with its
    position in the program it walks and its start time; [counts] and
    [pos] are the counter and the position the walk starts from. *)
Fixpoint admitted_trace (i : nat) (counts pos : nat)
  (prog : list (Z * CircuitInstruction))
  : result (list (nat * Z * CircuitInstruction)) :=
  match prog with
  | [] => OK []
  | (start_time, instruction) :: rest =>
      a ← admitted i counts start_time instruction;
      if a : bool then
        tr ← admitted_trace i
               (if decide (instruction = target_instruction ctx)
                then S counts else counts)
               (S pos) rest;
        OK ((pos, start_time, instruction) :: tr)
      else admitted_trace i counts (S pos) rest
  end.

(** Baseline and custom data that agree except at the places where the
    baseline holds the remapped target instruction and the custom circuit
    what the callback appended there; the index counts these places. *)
Inductive differ_at_target_sites
  : nat -> list CircuitInstruction -> list CircuitInstruction -> Prop :=
| no_instruction : differ_at_target_sites 0 [] []
| same_instruction c bl cl instruction instruction' :
    differ_at_target_sites c bl cl ->
    instruction <> target_instruction ctx ->
    remapped instruction = OK instruction' ->
    differ_at_target_sites c (bl ++ [instruction']) (cl ++ [instruction'])
| target_site c bl cl instruction' qc qc' sub :
    differ_at_target_sites c bl cl ->
    remapped (target_instruction ctx) = OK instruction' ->
    data qc = cl ->
    parametrized_circuit_func qc c tgt_register = OK qc' ->
    data qc' = cl ++ sub ->
    differ_at_target_sites (S c) (bl ++ [instruction']) (cl ++ sub).

(** The program the loop walks. *)
Definition timed_program : list (Z * CircuitInstruction) :=
  zip (_op_start_times ctx) (data (circuit_context ctx)).

(** One turn of [for i in range(self.tgt_instruction_counts)]. *)
Definition truncate (i : nat) (initial_layout : Layout) : result Truncation :=
  for_each (visit i)
    (mkTruncation 0
       (new_circuit tgt_register ("c_circ" +:+ pretty i))
       (new_circuit tgt_register ("b_circ" +:+ pretty i))
       initial_layout)
    timed_program.

End Loop.

(** [{circ_reg[i]: new_reg[i] ...}]: a later register overwrites an
    earlier one on a shared key. *)
Definition register_mapping (pairs : list (list Bit * list Bit))
  : result (gmap Bit Bit) :=
  for_each (fun m '(circ_reg, new_reg) =>
              for_each (fun m i =>
                          key ← getitem circ_reg (Z.of_nat i);
                          val ← getitem new_reg (Z.of_nat i);
                          OK (<[key := val]> m))
                       m (seq 0 (length circ_reg)))
           ∅ pairs.

(** [[self._circuit_context.qubits[i] for i in indices]] *)
Definition context_qubits (qc : QuantumCircuit) (indices : list nat)
  : result (list Bit) :=
  mapM (fun i => getitem (qc_qubits qc) (Z.of_nat i)) indices.

(** The part of [define_target_and_circuits] after the neighbour lists
    are settled: registers, mapping, and one truncation per occurrence. *)
Definition build_truncations (s : Settings) (h : Hardware) (ctx : Context)
  (k : nat) : result (list Truncation) :=
  let tgt_register := QuantumRegister (length (physical_target_qubits h)) tgt in
  layouts ← mapM (fun _ : nat => layout_from tgt_register (physical_target_qubits h))
                 (seq 0 k);
  circ_nn_qubits ← context_qubits (circuit_context ctx) (physical_neighbor_qubits h);
  circ_anc_qubits ← context_qubits (circuit_context ctx)
                                   (physical_next_neighbor_qubits h);
  let nn_register := QuantumRegister (length circ_nn_qubits) nn in
  let anc_register := QuantumRegister (length circ_anc_qubits) anc in
  mapping ← register_mapping
              [(circ_tgt_register ctx, tgt_register);
               (circ_nn_qubits, nn_register);
               (circ_anc_qubits, anc_register)];
  mapM (fun '(i, l) =>
          truncate ctx (physical_neighbor_qubits h)
            (physical_next_neighbor_qubits h) circ_nn_qubits
            tgt_register nn_register anc_register mapping i l)
       (imap (fun i l => (i, l)) layouts).

(** [define_target_and_circuits(self)].  The assertion that the target
    is a gate holds of every [Settings], which carry [target_gate]. *)
Definition define_target_and_circuits
  : M (list GateTarget * list QuantumCircuit * list QuantumCircuit) :=
  do qc <- read (fun e => circuit_context (context e));
  match parameters_of qc with
  | _ :: _ => raise ValueError_UnassignedParameters
  | [] =>
      do h <- read hardware;
      run (if (coupling_map_size (backend_info h) =? 0)
              && match backend h with None => true | Some _ => false end
              then
          run update (set_hardware
                        (with_backend_info
                           (set_num_qubits (backend_info h)
                              (length (qc_qubits qc)))));
          run update (fun e => set_hardware
                        (with_neighbor_qubits
                           (retrieve_neighbor_qubits
                              (backend_info (hardware e))
                              (physical_target_qubits (hardware e)))) e);
          update (fun e => set_hardware
                        (with_next_neighbor_qubits
                           (retrieve_neighbor_qubits
                              (backend_info (hardware e))
                              (physical_target_qubits (hardware e)
                                 ++ physical_neighbor_qubits (hardware e)))) e)
        else ret tt);
      do ts <- attempt (fun e =>
                 build_truncations (settings e) (hardware e) (context e)
                   (tgt_instruction_counts e));
      do e <- read (fun e => e);
      let target :=
        map (fun T =>
               mkGateTarget (target_gate (settings e))
                 (physical_target_qubits (hardware e)) (baseline T)
                 (QuantumRegister (length (physical_target_qubits (hardware e))) tgt)
                 (layout T))
            ts in
      ret (target, map custom ts, map baseline ts)
  end.

(** The callback only appends to the circuit it is given: it leaves the
    qubits and the instructions already there. *)
Definition callback_appends : Prop :=
  forall (qc qc' : QuantumCircuit) (j : nat) (reg : list Bit),
    parametrized_circuit_func qc j reg = OK qc' ->
    qc_qubits qc' = qc_qubits qc /\ exists sub, data qc' = data qc ++ sub.


(** ** The truncation selection policy *)

(** The property [trunc_index].  [self.step_tracker] is the property of
    the base class that reads [_step_tracker]; [np.min] of the two-element
    list is the smaller of the two. *)
Definition trunc_index (e : Env) : result Z :=
  let k := Z.of_nat (tgt_instruction_counts e) in
  if intermediate_rewards (settings e) then
    mod_ (_step_tracker (episode e)) k
  else
    q ← floordiv (_step_tracker (episode e))
                 (training_steps_per_gate (settings e));
    OK (Z.min q (k - 1)).

(** [episode_length(global_step)] *)
Definition episode_length (e : Env) (global_step : Z) : result Z :=
  t ← trunc_index e; OK (1 + t)%Z.

(** The property [target]: [self._target[self.trunc_index]]. *)
Definition target (e : Env) : result GateTarget :=
  t ← trunc_index e; getitem (_target (context e)) t.

(** ** The episode stepper *)

(** Collaborators of the stepper, all methods or properties of
    [BaseQuantumEnvironment]: what [reset] of the base class does to the
    state kept abstract, [perform_action] (the execution collaborator: it
    reads the environment, writes only the base state, and returns the
    score vector or raises), [mean_action], [_get_info], and the two
    ingredients of a state-reward observation. *)
Variable super_reset : BaseState -> BaseState.
Variable perform_action :
  Env -> list (list np_float) -> BaseState * result (list np_float).
Variable mean_action : Env -> list np_float.
Variable _get_info : Env -> Info.
Variable input_state_progress : Env -> result np_float.
Variable _observable_to_observation : Env -> result (list np_float).

(** Modelled from the spec: [BaseQuantumEnvironment.reset], which is not
    part of this file's source.  A reset brings the episode back to its
    ready state: besides its effect on the base state, it clears
    [_episode_ended]. *)
Definition BaseQuantumEnvironment_reset : M unit :=
  update (fun e =>
            set_episode (with_episode_ended false)
              (set_base (super_reset (base e)) e)).

Definition call_perform_action (params : list (list np_float))
  : M (list np_float) :=
  fun e => let '(b, r) := perform_action e params in (set_base b e, r).

(** [_get_obs(self)].  Every element of [_target] is a [GateTarget], so
    the [isinstance] test only evaluates [self.target]. *)
Definition _get_obs (e : Env) : result (list np_float) :=
  _ ← target e;
  if reward_method_is_state (settings e) then
    p ← input_state_progress e;
    t ← getitem (_target_instruction_timings (context e))
                (_inside_trunc_tracker (episode e));
    extra ← _observable_to_observation e;
    OK ([p; Finite (IZR t)] ++ extra)
  else
    t ← getitem (_target_instruction_timings (context e))
                (_inside_trunc_tracker (episode e));
    OK [Finite 0; Finite (IZR t)].

(** [reset(self, *, seed=None, options=None)] *)
Definition reset : M (list np_float * Info) :=
  run BaseQuantumEnvironment_reset;
  run update (fun e =>
        set_episode
          (with_param_values
             (create_array (tgt_instruction_counts e)
                (batch_size (settings e)) (n_actions (settings e)))) e);
  run update (set_episode (with_inside_trunc_tracker 0));
  do obs <- attempt _get_obs;
  do info <- read _get_info;
  ret (obs, info).

(** What [step] returns. *)
Record StepReturn : Type := mkStepReturn {
  obs : list np_float;
  reward : list np_float;
  terminated : bool;
  truncated : bool;
  info : Info
}.

(** The shape [(batchsize, n_actions)] of the blocks of a level, read off
    the array [create_array] allocated. *)
Definition block_shape (level : list (list (list np_float))) : nat * nat :=
  match level with
  | [] => (0, 0)
  | block :: _ =>
      (length block, match block with [] => 0 | r :: _ => length r end)
  end.

(** [self._param_values[trunc_index][step_status] = params] *)
Definition write_params (buffer : list (list (list (list np_float))))
  (trunc_index step_status : Z) (params : list (list np_float))
  : result (list (list (list (list np_float)))) :=
  level ← getitem buffer trunc_index;
  _ ← index (length level) step_status;
  block ← broadcast_rows params (block_shape level).1 (block_shape level).2;
  level' ← setitem level step_status block;
  setitem buffer trunc_index level'.

(** [np.reshape(np.vstack([param_set for param_set in
    self._param_values[trunc_index]]),
    (self.batch_size, (trunc_index + 1) * self.action_space.shape[-1]))] *)
Definition flatten_params (buffer : list (list (list (list np_float))))
  (trunc_index : Z) (batch n : nat) : result (list (list np_float)) :=
  level ← getitem buffer trunc_index;
  reshape (vstack level) batch ((trunc_index + 1) * Z.of_nat n)%Z.

(** [self._step_tracker += 1] *)
Definition count_step (e : Env) : Env :=
  set_episode (with_step_tracker (_step_tracker (episode e) + 1)%Z) e.

(** [if np.mean(reward) > self._max_return: self._max_return =
    np.mean(reward); self._optimal_action = self.mean_action] *)
Definition track_best (reward : list np_float) (e : Env) : Env :=
  if gt (mean reward) (_max_return (episode e))
  then set_episode (with_best (mean reward) (mean_action e)) e
  else e.

(** [self.reward_history.append(reward)] *)
Definition log_reward (reward : list np_float) (e : Env) : Env :=
  set_episode (with_reward_history (reward_history (episode e) ++ [reward])) e.

(** The branch [if step_status < trunc_index] of [step]: an intermediate
    step within the circuit truncation.  [batch_size_] is the local
    [batch_size], the length of the action batch. *)
Definition intermediate_step (params : list (list np_float))
  (batch_size_ : nat) : M StepReturn :=
  run update (fun e =>
        set_episode
          (with_inside_trunc_tracker
             (_inside_trunc_tracker (episode e) + 1)%Z) e);
  do intermediate <- read (fun e => intermediate_rewards (settings e));
  if intermediate : bool then
    do reward <- call_perform_action params;
    do info <- read _get_info;
    ret (mkStepReturn reward reward false false info)
  else
    do obs <- attempt _get_obs;
    do info <- read _get_info;
    ret (mkStepReturn obs (zeros batch_size_) false false info).

(** The [else] branch: the final sub-step, where the reward is computed. *)
Definition terminal_step (params : list (list np_float)) : M StepReturn :=
  run update (set_episode (with_episode_ended true));
  do reward <- call_perform_action params;
  do intermediate <- read (fun e => intermediate_rewards (settings e));
  do obs <- (if intermediate : bool then ret reward else attempt _get_obs);
  run update (track_best reward);
  run update (log_reward reward);
  do self_batch_size <- read (fun e => batch_size (settings e));
  if negb (length reward =? self_batch_size) then
    raise AssertionError_RewardSize
  else
  if existsb isinf reward || existsb isnan reward then
    raise AssertionError_NaNInf
  else
  let reward := map negative_log_error reward in
  do info <- read _get_info;
  ret (mkStepReturn obs reward true false info).

(** The two early returns of [step]: after a reset, a zero reward and the
    flags given. *)
Definition reset_and_return (terminated_ truncated_ : bool) : M StepReturn :=
  do r <- reset;
  do zeros_ <- read (fun e => zeros (batch_size (settings e)));
  do info <- read _get_info;
  ret (mkStepReturn r.1 zeros_ terminated_ truncated_ info).

(** [step(self, action)] *)
Definition step (action : list (list np_float)) : M StepReturn :=
  do trunc_index <- attempt trunc_index;
  do step_status <- read (fun e => _inside_trunc_tracker (episode e));
  run update count_step;
  do ended <- read (fun e => _episode_ended (episode e));
  if ended : bool then reset_and_return true false
  else
  do k <- read tgt_instruction_counts;
  if (Z.of_nat k <=? trunc_index)%Z then reset_and_return false true
  else
  let batch_size_ := length action in
  do self_batch_size <- read (fun e => batch_size (settings e));
  if negb (batch_size_ =? self_batch_size) then
    raise (ValueError_BatchSize batch_size_ self_batch_size)
  else
  do buffer <- attempt (fun e =>
      write_params (_param_values (episode e)) trunc_index step_status action);
  run update (set_episode (with_param_values buffer));
  do params <- attempt (fun e =>
      flatten_params (_param_values (episode e)) trunc_index
        (batch_size (settings e)) (n_actions (settings e)));
  if (step_status <? trunc_index)%Z
  then intermediate_step params batch_size_
  else terminal_step params.

(** A run of consecutive calls of [step], one per action batch, stopped
    by the first call that raises. *)
Fixpoint steps (actions : list (list (list np_float))) : M (list StepReturn) :=
  match actions with
  | [] => ret []
  | action :: rest =>
      do r <- step action;
      do rs <- steps rest;
      ret (r :: rs)
  end.

(** ** Updating the circuit context *)

(** [for x in l: body(x)] on the environment. *)
Fixpoint for_each_do {A} (body : A -> M unit) (l : list A) : M unit :=
  match l with
  | [] => ret tt
  | x :: rest => run body x; for_each_do body rest
  end.

(** [set_circuit_context(self, new_context=None, backend=None, **kwargs)];
    [kwargs] in the order the caller wrote them. *)
Definition set_circuit_context (new_context : option QuantumCircuit)
  (new_backend : option Backend) (kwargs : list (string * Z)) : M unit :=
  run match new_context with
      | Some qc =>
          run update (set_context (with_circuit_context qc));
          do reg <- attempt (fun e =>
                       context_qubits qc (physical_target_qubits (hardware e)));
          if negb (bool_decide (NoDup reg)) then raise CircuitError else
          run update (set_context (with_circ_tgt_register reg));
          do current <- attempt target;
          run update (set_context
                        (with_target_instruction
                           (mkInstruction (gate current) reg)));
          do k <- read tgt_instruction_counts;
          if k =? 0 then raise ValueError_TargetNotFound else
          run update (fun e =>
                set_context (with_parameters (tgt_instruction_counts e)) e);
          do tt_ <- attempt (fun e =>
                       target_instruction_timings (circuit_context (context e))
                         (target_instruction (context e)));
          run update (set_context (with_timings tt_.1 tt_.2));
          do r <- define_target_and_circuits;
          run update (set_context (with_truncations r));
          update (fun e =>
                    set_episode
                      (with_param_values
                         (create_array (tgt_instruction_counts e)
                            (batch_size (settings e))
                            (n_actions (settings e)))) e)
      | None =>
          run for_each_do
                (fun '(param, value) =>
                   do qc <- read (fun e => circuit_context (context e));
                   if has_parameter qc param then
                     update (set_context
                               (with_circuit_context
                                  (assign_parameters qc param value)))
                   else raise (ValueError_ParameterNotFound param))
                kwargs;
          do r <- define_target_and_circuits;
          update (set_context (with_truncations r))
      end;
  match new_backend with
  | Some b =>
      run update (set_hardware (with_backend (Some b) (QiskitBackendInfo b)));
      run update (fun e =>
            set_hardware
              (with_neighbor_qubits
                 (retrieve_neighbor_qubits (backend_info (hardware e))
                    (physical_target_qubits (hardware e)))) e);
      update (fun e =>
            set_hardware
              (with_next_neighbor_qubits
                 (retrieve_neighbor_qubits (backend_info (hardware e))
                    (physical_target_qubits (hardware e)
                       ++ physical_neighbor_qubits (hardware e)))) e)
  | None => ret tt
  end.

(** ** Well-formed environments *)

(** What [__init__] and [set_circuit_context] establish and the setters
    keep: at least one occurrence of the target, one target descriptor and
    one timing per occurrence, a non-negative step counter and a positive
    step budget. *)
Definition consistent (e : Env) : Prop :=
  1 <= tgt_instruction_counts e
  /\ length (_target (context e)) = tgt_instruction_counts e
  /\ length (_target_instruction_timings (context e)) = tgt_instruction_counts e
  /\ (0 <= _step_tracker (episode e))%Z
  /\ (0 < training_steps_per_gate (settings e))%Z.

(** The state [reset] leaves, whatever it returns. *)
Definition reset_env (e : Env) : Env :=
  set_episode (with_inside_trunc_tracker 0)
    (set_episode
       (with_param_values
          (create_array (tgt_instruction_counts e) (batch_size (settings e))
             (n_actions (settings e))))
       (set_episode (with_episode_ended false)
          (set_base (super_reset (base e)) e))).

(** ** Shapes of the action buffer *)

(** A block of shape [(batch, n)], a level [i] made of [i + 1] such
    blocks, a buffer of [k] levels. *)
Definition block_ok (batch n : nat) (block : list (list np_float)) : Prop :=
  length block = batch /\ Forall (fun row => length row = n) block.

Definition level_ok (batch n i : nat) (level : list (list (list np_float)))
  : Prop :=
  length level = i + 1 /\ Forall (block_ok batch n) level.

Definition buffer_ok (k batch n : nat)
  (buffer : list (list (list (list np_float)))) : Prop :=
  length buffer = k
  /\ forall i level, buffer !! i = Some level -> level_ok batch n i level.

(** Successive writes into rows [s], [s + 1], .. of level [i], one block
    per call of [step]. *)
Fixpoint write_rows (buffer : list (list (list (list np_float))))
  (i s : nat) (blocks : list (list (list np_float)))
  : result (list (list (list (list np_float)))) :=
  match blocks with
  | [] => OK buffer
  | block :: rest =>
      buffer' ← write_params buffer (Z.of_nat i) (Z.of_nat s) block;
      write_rows buffer' i (S s) rest
  end.

(** The truncation index the policy selects at global step [g]. *)
Definition trunc_index_at (e : Env) (g : Z) : result Z :=
  trunc_index (set_episode (with_step_tracker g) e).

(** The collaborators return: [perform_action] gives a score vector of
    length [batch_size] without NaN or Inf, and the ingredients of a
    state-reward observation are available when that kind of observation
    is configured. *)
Definition perform_action_returns : Prop :=
  forall (e : Env) (params : list (list np_float)),
  exists b score,
    perform_action e params = (b, OK score)
    /\ length score = batch_size (settings e)
    /\ existsb isinf score || existsb isnan score = false.

Definition observation_returns : Prop :=
  forall e : Env,
    reward_method_is_state (settings e) = true ->
    is_ok (input_state_progress e) = true
    /\ is_ok (_observable_to_observation e) = true.

(** What the calls of one episode keep fixed, and where the counters
    stand after [j] calls since a reset at global step [g]. *)
Definition in_episode (e0 : Env) (g : Z) (j : nat) (e : Env) : Prop :=
  settings e = settings e0
  /\ context e = context e0
  /\ _step_tracker (episode e) = (g + Z.of_nat j)%Z
  /\ _inside_trunc_tracker (episode e) = Z.of_nat j
  /\ _episode_ended (episode e) = false
  /\ buffer_ok (tgt_instruction_counts e0) (batch_size (settings e0))
       (n_actions (settings e0)) (_param_values (episode e)).

(** ** Keyword assignments of [set_circuit_context] *)

(** The assignments of a run of keywords, one after the other, on the
    circuit and on the environment, and the test that each keyword names a
    parameter of the circuit at its turn. *)
Definition assign_all (qc : QuantumCircuit) (kwargs : list (string * Z))
  : QuantumCircuit :=
  foldl (fun qc kv => assign_parameters qc kv.1 kv.2) qc kwargs.

Definition assign_kwargs (e : Env) (kwargs : list (string * Z)) : Env :=
  foldl (fun e kv =>
           set_context
             (with_circuit_context
                (assign_parameters (circuit_context (context e)) kv.1 kv.2))
             e)
        e kwargs.

Fixpoint all_present (qc : QuantumCircuit) (kwargs : list (string * Z)) : bool :=
  match kwargs with
  | [] => true
  | (param, value) :: rest =>
      has_parameter qc param && all_present (assign_parameters qc param value) rest
  end.


(** ** Well-formed circuits *)

(** A circuit holds no bit twice, and each of its instructions acts on
    bits of the circuit, no bit twice. *)
Definition circuit_well_formed (qc : QuantumCircuit) : Prop :=
  NoDup (qc_qubits qc)
  /\ Forall (fun ins =>
               NoDup (qubits ins)
               /\ Forall (fun b => b ∈ qc_qubits qc) (qubits ins))
            (data qc).

(** ** The neighbour lists as [define_target_and_circuits] settles them *)

(** The state after the first block of [define_target_and_circuits]:
    with an empty coupling map and no backend, the number of qubits and
    the two neighbour lists are recomputed. *)
Definition settle_neighbor_qubits (e : Env) : Env :=
  if (coupling_map_size (backend_info (hardware e)) =? 0)
     && match backend (hardware e) with None => true | Some _ => false end
  then
    let e1 :=
      set_hardware
        (with_backend_info
           (set_num_qubits (backend_info (hardware e))
              (length (qc_qubits (circuit_context (context e)))))) e in
    let e2 :=
      set_hardware
        (with_neighbor_qubits
           (retrieve_neighbor_qubits (backend_info (hardware e1))
              (physical_target_qubits (hardware e1)))) e1 in
    set_hardware
      (with_next_neighbor_qubits
         (retrieve_neighbor_qubits (backend_info (hardware e2))
            (physical_target_qubits (hardware e2)
               ++ physical_neighbor_qubits (hardware e2)))) e2
  else e.


(** * Properties *)

(** ** Truncation selection *)

Lemma trunc_index_intermediate (e : Env) :
  intermediate_rewards (settings e) = true ->
  tgt_instruction_counts e <> 0 ->
  trunc_index e
  = OK (_step_tracker (episode e) mod Z.of_nat (tgt_instruction_counts e))%Z.
Proof.
  intros Hmode Hk. unfold trunc_index, mod_. rewrite Hmode.
  destruct (Z.eqb_spec (Z.of_nat (tgt_instruction_counts e)) 0) as [H0 | _];
    [lia | reflexivity].
Qed.

Lemma trunc_index_curriculum (e : Env) :
  intermediate_rewards (settings e) = false ->
  training_steps_per_gate (settings e) <> 0%Z ->
  trunc_index e
  = OK (Z.min (_step_tracker (episode e) / training_steps_per_gate (settings e))
              (Z.of_nat (tgt_instruction_counts e) - 1))%Z.
Proof.
  intros Hmode Hs. unfold trunc_index, floordiv. rewrite Hmode.
  destruct (Z.eqb_spec (training_steps_per_gate (settings e)) 0) as [H0 | _];
    [contradiction | reflexivity].
Qed.

Lemma trunc_index_lt (e : Env) (t : Z) :
  trunc_index e = OK t -> (t < Z.of_nat (tgt_instruction_counts e))%Z.
Proof.
  unfold trunc_index, mod_, floordiv.
  destruct (intermediate_rewards (settings e)).
  - destruct (Z.eqb_spec (Z.of_nat (tgt_instruction_counts e)) 0) as [H0 | Hk];
      [discriminate |].
    intros [= <-]. apply Z.mod_pos_bound. lia.
  - destruct (Z.eqb_spec (training_steps_per_gate (settings e)) 0);
      [discriminate |].
    cbn. intros [= <-]. lia.
Qed.

(** C4: with intermediate rewards the active truncation index is the step
    count modulo the number [k >= 1] of target occurrences; otherwise it
    is [min(step count // steps per occurrence, k - 1)], for a non-zero
    step budget; with a budget of 10 and [k = 3], step count 25 selects
    truncation 2. *)
Theorem C4_trunc_index_policy (e : Env) :
  1 <= tgt_instruction_counts e ->
  let k := Z.of_nat (tgt_instruction_counts e) in
  let global_step := _step_tracker (episode e) in
  let steps := training_steps_per_gate (settings e) in
  (intermediate_rewards (settings e) = true ->
   trunc_index e = OK (global_step mod k)%Z)
  /\ (intermediate_rewards (settings e) = false -> steps <> 0%Z ->
      trunc_index e = OK (Z.min (global_step / steps) (k - 1))%Z)
  /\ (intermediate_rewards (settings e) = false -> steps = 10%Z ->
      k = 3%Z -> global_step = 25%Z -> trunc_index e = OK 2%Z).
Proof.
  intros Hk k global_step steps. repeat split.
  - intros Hmode. apply trunc_index_intermediate; [assumption | lia].
  - intros Hmode Hs. apply trunc_index_curriculum; assumption.
  - intros Hmode Hs Hk3 Hg.
    rewrite trunc_index_curriculum by (fold steps; (assumption || lia)).
    fold steps global_step k. rewrite Hs, Hk3, Hg. reflexivity.
Qed.


(** ** Reward shaping *)

Lemma optimal_error_precision_pos : (0 < optimal_error_precision < 1)%R.
Proof. unfold optimal_error_precision. lra. Qed.

Lemma clip_Finite (s lo hi : R) :
  clip (Finite s) (Finite lo) (Finite hi) = Finite (Rmin (Rmax s lo) hi).
Proof.
  unfold clip, maximum, minimum, gt.
  destruct (Rlt_dec s lo) as [Hlt | Hge].
  - rewrite (Rmax_right s lo) by lra.
    destruct (Rlt_dec hi lo); [rewrite Rmin_right by lra | rewrite Rmin_left by lra];
      reflexivity.
  - rewrite (Rmax_left s lo) by lra.
    destruct (Rlt_dec hi s); [rewrite Rmin_right by lra | rewrite Rmin_left by lra];
      reflexivity.
Qed.

Lemma clipped_in_range (s : R) :
  (0 <= Rmin (Rmax s 0) max_fidelity <= max_fidelity)%R.
Proof.
  pose proof optimal_error_precision_pos. unfold max_fidelity. split.
  - apply Rmin_glb; [apply Rmax_r | lra].
  - apply Rmin_r.
Qed.

Lemma negative_log_error_Finite (s : R) :
  negative_log_error (Finite s) = Finite (spec_reward s).
Proof.
  unfold negative_log_error, spec_reward. rewrite clip_Finite.
  pose proof (clipped_in_range s) as Hc.
  pose proof optimal_error_precision_pos as He.
  unfold max_fidelity, optimal_error_precision in *.
  set (c := Rmin (Rmax s 0) (1 - 1e-6)) in *.
  unfold sub, neg, add, log.
  destruct (Rlt_dec 0 (1 + - c)) as [_ | Hn]; [| lra].
  reflexivity.
Qed.

Lemma spec_reward_inside (s : R) :
  (0 <= s <= max_fidelity)%R -> spec_reward s = (- ln (1 - s))%R.
Proof.
  intros [H0 H1]. unfold spec_reward, max_fidelity, optimal_error_precision in *.
  rewrite Rmax_left by lra. rewrite Rmin_left by lra. reflexivity.
Qed.

Lemma spec_reward_bounds (s : R) :
  (0 <= spec_reward s <= - ln optimal_error_precision)%R.
Proof.
  pose proof (clipped_in_range s) as Hc.
  pose proof optimal_error_precision_pos as He.
  unfold spec_reward. unfold max_fidelity, optimal_error_precision in *.
  set (c := Rmin (Rmax s 0) (1 - 1e-6)) in *.
  assert (Hle1 : (ln (1 - c) <= 0)%R).
  { rewrite <- ln_1. destruct (Req_dec c 0) as [-> | Hne].
    - rewrite Rminus_0_r. lra.
    - left. apply ln_increasing; lra. }
  assert (Hge : (ln 1e-6 <= ln (1 - c))%R).
  { destruct (Req_dec (1 - c) 1e-6) as [-> | Hne]; [lra |].
    left. apply ln_increasing; lra. }
  lra.
Qed.

Lemma spec_reward_increasing (s1 s2 : R) :
  (0 <= s1)%R -> (s1 < s2)%R -> (s2 <= max_fidelity)%R ->
  (spec_reward s1 < spec_reward s2)%R.
Proof.
  intros H0 Hlt H1. pose proof optimal_error_precision_pos as He.
  rewrite !spec_reward_inside by lra.
  unfold max_fidelity in *.
  apply Ropp_lt_contravar. apply ln_increasing; lra.
Qed.

Lemma spec_reward_monotone (s1 s2 : R) :
  (s1 <= s2)%R -> (spec_reward s1 <= spec_reward s2)%R.
Proof.
  intros Hle. pose proof optimal_error_precision_pos as He.
  pose proof (clipped_in_range s1) as Hc1.
  pose proof (clipped_in_range s2) as Hc2.
  unfold spec_reward. unfold max_fidelity, optimal_error_precision in *.
  assert (Hc : (Rmin (Rmax s1 0) (1 - 1e-6) <= Rmin (Rmax s2 0) (1 - 1e-6))%R).
  { apply Rle_min_compat_r. apply Rle_max_compat_r. exact Hle. }
  set (c1 := Rmin (Rmax s1 0) (1 - 1e-6)) in *.
  set (c2 := Rmin (Rmax s2 0) (1 - 1e-6)) in *.
  destruct Hc as [Hlt | ->]; [| lra].
  apply Ropp_le_contravar. left. apply ln_increasing; lra.
Qed.

Lemma spec_reward_0 : spec_reward 0 = 0%R.
Proof.
  pose proof optimal_error_precision_pos as He.
  rewrite spec_reward_inside by (unfold max_fidelity; lra).
  rewrite Rminus_0_r, ln_1. lra.
Qed.


(** ** The episode stepper *)

Lemma reset_eq (e : Env) :
  reset e
  = (reset_env e,
     o ← _get_obs (reset_env e); OK (o, _get_info (reset_env e))).
Proof.
  unfold reset, bind, BaseQuantumEnvironment_reset, update, attempt, read, ret.
  match goal with
  | |- context [_get_obs ?x] => change x with (reset_env e)
  end.
  destruct (_get_obs (reset_env e)); reflexivity.
Qed.

Lemma trunc_index_nonneg (e : Env) (t : Z) :
  consistent e -> trunc_index e = OK t -> (0 <= t)%Z.
Proof.
  intros (Hk & _ & _ & Hg & Hs). unfold trunc_index, mod_, floordiv.
  destruct (intermediate_rewards (settings e)).
  - destruct (Z.eqb_spec (Z.of_nat (tgt_instruction_counts e)) 0);
      [discriminate |].
    intros [= <-]. apply Z.mod_pos_bound. lia.
  - destruct (Z.eqb_spec (training_steps_per_gate (settings e)) 0);
      [discriminate |].
    cbn. intros [= <-].
    apply Z.min_glb; [apply Z.div_pos; lia | lia].
Qed.

Lemma trunc_index_total (e : Env) :
  consistent e -> exists t, trunc_index e = OK t.
Proof.
  intros (Hk & _ & _ & Hg & Hs). unfold trunc_index, mod_, floordiv.
  destruct (intermediate_rewards (settings e)).
  - destruct (Z.eqb_spec (Z.of_nat (tgt_instruction_counts e)) 0);
      [lia | eauto].
  - destruct (Z.eqb_spec (training_steps_per_gate (settings e)) 0);
      [lia | cbn; eauto].
Qed.

Lemma consistent_count_step (e : Env) : consistent e -> consistent (count_step e).
Proof.
  intros (Hk & Ht & Hl & Hg & Hs). repeat split; try assumption. cbn. lia.
Qed.

Lemma consistent_reset_env (e : Env) : consistent e -> consistent (reset_env e).
Proof. intros (Hk & Ht & Hl & Hg & Hs). repeat split; assumption. Qed.

Lemma getitem_in_range {A} (l : list A) (i : Z) :
  (0 <= i < Z.of_nat (length l))%Z -> exists x, getitem l i = OK x.
Proof.
  intros [H0 H1]. unfold getitem, index.
  destruct (Z.leb_spec 0 i); [| lia]. destruct (Z.ltb_spec i (Z.of_nat (length l))); [| lia].
  cbn. destruct (lookup_lt_is_Some_2 l (Z.to_nat i)) as [x Hx]; [lia |].
  rewrite Hx. eauto.
Qed.

(** In a well-formed environment the observation after a reset can be
    computed as soon as the two collaborators of a state-reward
    observation return. *)
Lemma _get_obs_reset_total (e : Env) :
  consistent e ->
  (reward_method_is_state (settings e) = true ->
   is_ok (input_state_progress (reset_env e)) = true
   /\ is_ok (_observable_to_observation (reset_env e)) = true) ->
  exists o, _get_obs (reset_env e) = OK o.
Proof.
  intros Hc Hcollab.
  pose proof (consistent_reset_env e Hc) as Hc'.
  destruct (trunc_index_total _ Hc') as [t Ht].
  pose proof (trunc_index_nonneg _ _ Hc' Ht) as Ht0.
  pose proof (trunc_index_lt _ _ Ht) as Htk.
  destruct Hc' as (Hk & Hlt & Hll & _ & _).
  destruct (getitem_in_range (_target (context (reset_env e))) t) as [g Hg];
    [lia |].
  destruct (getitem_in_range (_target_instruction_timings (context (reset_env e))) 0)
    as [t0 Ht0']; [lia |].
  change (context (reset_env e)) with (context e) in Hg, Ht0'.
  unfold _get_obs, target. rewrite Ht.
  change (context (reset_env e)) with (context e).
  change (_inside_trunc_tracker (episode (reset_env e))) with 0%Z.
  change (settings (reset_env e)) with (settings e).
  cbn. rewrite Hg. cbn.
  destruct (reward_method_is_state (settings e)) eqn:Hrm.
  - destruct Hcollab as [Hp Ho]; [reflexivity |].
    destruct (input_state_progress (reset_env e)); [| discriminate].
    destruct (_observable_to_observation (reset_env e)); [| discriminate].
    cbn. rewrite Ht0'. cbn. eauto.
  - rewrite Ht0'. cbn. eauto.
Qed.

(** [step], [reset_and_return] and the two branches, as plain case
    analyses on the state. *)
Lemma reset_and_return_eq (terminated_ truncated_ : bool) (e : Env) :
  reset_and_return terminated_ truncated_ e
  = (reset_env e,
     o ← _get_obs (reset_env e);
     OK (mkStepReturn o (zeros (batch_size (settings e))) terminated_
           truncated_ (_get_info (reset_env e)))).
Proof.
  unfold reset_and_return, bind at 1. rewrite reset_eq.
  destruct (_get_obs (reset_env e)); reflexivity.
Qed.

Lemma step_eq (action : list (list np_float)) (e : Env) :
  step action e
  = match trunc_index e with
    | Raise x => (e, Raise x)
    | OK t =>
        let e1 := count_step e in
        if _episode_ended (episode e) then reset_and_return true false e1
        else if (Z.of_nat (tgt_instruction_counts e) <=? t)%Z
        then reset_and_return false true e1
        else if negb (length action =? batch_size (settings e))
        then (e1, Raise (ValueError_BatchSize (length action)
                           (batch_size (settings e))))
        else
          match write_params (_param_values (episode e)) t
                  (_inside_trunc_tracker (episode e)) action with
          | Raise x => (e1, Raise x)
          | OK buffer =>
              let e2 := set_episode (with_param_values buffer) e1 in
              match flatten_params buffer t (batch_size (settings e))
                      (n_actions (settings e)) with
              | Raise x => (e2, Raise x)
              | OK params =>
                  if (_inside_trunc_tracker (episode e) <? t)%Z
                  then intermediate_step params (length action) e2
                  else terminal_step params e2
              end
          end
    end.
Proof.
  unfold step, bind, attempt, read, update, raise.
  destruct (trunc_index e) as [t |]; [| reflexivity].
  change (_episode_ended (episode (count_step e)))
    with (_episode_ended (episode e)).
  destruct (_episode_ended (episode e)); [reflexivity |].
  change (tgt_instruction_counts (count_step e))
    with (tgt_instruction_counts e).
  destruct (Z.of_nat (tgt_instruction_counts e) <=? t)%Z; [reflexivity |].
  change (settings (count_step e)) with (settings e).
  destruct (negb (length action =? batch_size (settings e))); [reflexivity |].
  change (_param_values (episode (count_step e)))
    with (_param_values (episode e)).
  destruct (write_params _ _ _ _) as [buffer |]; [| reflexivity].
  change (_param_values (episode (set_episode (with_param_values buffer)
                                    (count_step e)))) with buffer.
  change (settings (set_episode (with_param_values buffer) (count_step e)))
    with (settings e).
  destruct (flatten_params _ _ _ _); [| reflexivity].
  destruct (_ <? _)%Z; reflexivity.
Qed.

(** The state the terminal branch leaves once the collaborator has
    returned [score] and base state [b]. *)
Lemma terminal_step_eq (params : list (list np_float)) (e : Env) :
  terminal_step params e
  = let e1 := set_episode (with_episode_ended true) e in
    match perform_action e1 params with
    | (b, Raise x) => (set_base b e1, Raise x)
    | (b, OK score) =>
        let e2 := set_base b e1 in
        match (if intermediate_rewards (settings e) then OK score
               else _get_obs e2) with
        | Raise x => (e2, Raise x)
        | OK o =>
            let e3 := log_reward score (track_best score e2) in
            if negb (length score =? batch_size (settings e))
            then (e3, Raise AssertionError_RewardSize)
            else if existsb isinf score || existsb isnan score
            then (e3, Raise AssertionError_NaNInf)
            else (e3, OK (mkStepReturn o (map negative_log_error score) true
                            false (_get_info e3)))
        end
    end.
Proof.
  unfold terminal_step, bind, attempt, read, update, raise, ret,
    call_perform_action.
  cbv zeta.
  destruct (perform_action _ params) as [b [score | x]]; [| reflexivity].
  change (settings (set_base b (set_episode (with_episode_ended true) e)))
    with (settings e).
  destruct (intermediate_rewards (settings e)).
  - assert (Hs : forall e0, settings (log_reward score (track_best score e0))
                            = settings e0).
    { intros e0. unfold log_reward, track_best.
      destruct (gt _ _); reflexivity. }
    rewrite Hs.
    change (settings (set_base b (set_episode (with_episode_ended true) e)))
      with (settings e).
    destruct (negb _); [reflexivity |]. destruct (_ || _); reflexivity.
  - destruct (_get_obs _); [| reflexivity].
    assert (Hs : forall e0, settings (log_reward score (track_best score e0))
                            = settings e0).
    { intros e0. unfold log_reward, track_best.
      destruct (gt _ _); reflexivity. }
    rewrite Hs.
    change (settings (set_base b (set_episode (with_episode_ended true) e)))
      with (settings e).
    destruct (negb _); [reflexivity |]. destruct (_ || _); reflexivity.
Qed.

Lemma intermediate_step_eq (params : list (list np_float)) (n : nat) (e : Env) :
  intermediate_step params n e
  = let e1 := set_episode
                (with_inside_trunc_tracker
                   (_inside_trunc_tracker (episode e) + 1)%Z) e in
    if intermediate_rewards (settings e) then
      match perform_action e1 params with
      | (b, Raise x) => (set_base b e1, Raise x)
      | (b, OK score) =>
          (set_base b e1,
           OK (mkStepReturn score score false false (_get_info (set_base b e1))))
      end
    else
      match _get_obs e1 with
      | Raise x => (e1, Raise x)
      | OK o => (e1, OK (mkStepReturn o (zeros n) false false (_get_info e1)))
      end.
Proof.
  unfold intermediate_step, bind, attempt, read, update, raise, ret,
    call_perform_action.
  cbv zeta.
  change (settings (set_episode _ e)) with (settings e).
  destruct (intermediate_rewards (settings e)).
  - destruct (perform_action _ params) as [b [score | x]]; reflexivity.
  - destruct (_get_obs _); reflexivity.
Qed.

(** Case analysis on every test and every fallible call in [H]. *)
Ltac split_run H :=
  repeat (match type of H with
          | context [match ?x with _ => _ end] => destruct x eqn:?
          | context [if ?x then _ else _] => destruct x eqn:?
          end;
          try discriminate H).

Lemma step_never_truncated (action : list (list np_float)) (e e' : Env)
  (r : StepReturn) :
  step action e = (e', OK r) -> truncated r = false.
Proof.
  intros H. rewrite step_eq in H.
  destruct (trunc_index e) as [t |] eqn:Ht; [| discriminate H].
  pose proof (trunc_index_lt e t Ht) as Hlt. cbv zeta in H.
  destruct (_episode_ended (episode e)).
  - rewrite reset_and_return_eq in H.
    destruct (_get_obs _); [| discriminate H]. inversion H. reflexivity.
  - destruct (Z.leb_spec (Z.of_nat (tgt_instruction_counts e)) t) as [Hle | _];
      [lia |].
    destruct (negb _); [discriminate H |].
    destruct (write_params _ _ _ _); [| discriminate H].
    destruct (flatten_params _ _ _ _); [| discriminate H].
    destruct (_ <? _)%Z.
    + rewrite intermediate_step_eq in H. cbv zeta in H.
      split_run H; inversion H; reflexivity.
    + rewrite terminal_step_eq in H. cbv zeta in H.
      split_run H; inversion H; reflexivity.
Qed.

(** C9: the truncation index the selection policy computes is below the
    number of target occurrences in both modes, and [step] never returns
    through its branch for an out-of-range index: no call returns
    [truncated = True]. *)
Theorem C9_trunc_index_below_count :
  (forall (e : Env) (t : Z),
      trunc_index e = OK t -> (t < Z.of_nat (tgt_instruction_counts e))%Z)
  /\ (forall (e : Env),
         1 <= tgt_instruction_counts e ->
         (intermediate_rewards (settings e) = false ->
          training_steps_per_gate (settings e) <> 0%Z) ->
         exists t, trunc_index e = OK t
                   /\ (t < Z.of_nat (tgt_instruction_counts e))%Z)
  /\ (forall (action : list (list np_float)) (e e' : Env) (r : StepReturn),
         step action e = (e', OK r) -> truncated r = false).
Proof.
  split; [exact trunc_index_lt | split; [| exact step_never_truncated]].
  intros e Hk Hs.
  destruct (intermediate_rewards (settings e)) eqn:Hmode.
  - eexists. split; [apply trunc_index_intermediate; [assumption | lia] |].
    apply Z.mod_pos_bound. lia.
  - eexists. split; [apply trunc_index_curriculum; auto |]. lia.
Qed.

(** C10: when the previous episode has ended, [step] does not raise in a
    well-formed environment: whatever the action batch, it counts the
    step, resets, leaves a freshly allocated buffer and returns the
    observation of the reset, a zero reward of length [batch_size],
    [terminated = True] and [truncated = False]. *)
Theorem C10_step_after_episode_end (e : Env) (action : list (list np_float)) :
  consistent e ->
  _episode_ended (episode e) = true ->
  (reward_method_is_state (settings e) = true ->
   is_ok (input_state_progress (reset_env (count_step e))) = true
   /\ is_ok (_observable_to_observation (reset_env (count_step e))) = true) ->
  let e' := reset_env (count_step e) in
  exists o,
    (reset (count_step e)).2 = OK (o, _get_info e')
    /\ step action e
       = (e', OK (mkStepReturn o (zeros (batch_size (settings e))) true false
                    (_get_info e')))
    /\ _step_tracker (episode e') = (_step_tracker (episode e) + 1)%Z
    /\ _param_values (episode e')
       = create_array (tgt_instruction_counts e) (batch_size (settings e))
           (n_actions (settings e))
    /\ _inside_trunc_tracker (episode e') = 0%Z.
Proof.
  intros Hc Hended Hcollab e'.
  destruct (trunc_index_total e Hc) as [t Ht].
  destruct (_get_obs_reset_total (count_step e) (consistent_count_step e Hc) Hcollab)
    as [o Ho].
  exists o. fold e' in Ho. repeat split.
  - rewrite reset_eq. fold e'. rewrite Ho. reflexivity.
  - rewrite step_eq, Ht. cbv zeta. rewrite Hended, reset_and_return_eq.
    fold e'. rewrite Ho. reflexivity.
Qed.

Lemma exists_nan_or_inf (score : list np_float) :
  (exists x, x ∈ score /\ (isnan x = true \/ isinf x = true)) ->
  existsb isinf score || existsb isnan score = true.
Proof.
  intros (x & Hin & Hx). apply list_elem_of_In in Hin.
  apply orb_true_iff. destruct Hx as [Hnan | Hinf].
  - right. apply existsb_exists. eauto.
  - left. apply existsb_exists. eauto.
Qed.

Lemma episode_log_reward_track_best (score : list np_float) (e : Env) :
  let e' := log_reward score (track_best score e) in
  _episode_ended (episode e') = _episode_ended (episode e)
  /\ _step_tracker (episode e') = _step_tracker (episode e)
  /\ _inside_trunc_tracker (episode e') = _inside_trunc_tracker (episode e)
  /\ _param_values (episode e') = _param_values (episode e)
  /\ reward_history (episode e') = reward_history (episode e) ++ [score].
Proof.
  unfold log_reward, track_best. destruct (gt _ _); repeat split.
Qed.

(** C1, as the code has it: when the score vector the execution
    collaborator returns at the terminal sub-step holds a NaN or an Inf,
    [step] raises the invalid-reward assertion and returns nothing; the
    sub-step counter is as before, but the episode-ended flag is already
    set, the step is counted, the action block is in the buffer and the
    raw score is in the reward history. *)
Theorem C1_invalid_reward_raises (e : Env) (action : list (list np_float))
  (t : Z) (buffer : list (list (list (list np_float))))
  (params : list (list np_float)) (b : BaseState) (score : list np_float) :
  _episode_ended (episode e) = false ->
  trunc_index e = OK t ->
  length action = batch_size (settings e) ->
  write_params (_param_values (episode e)) t
    (_inside_trunc_tracker (episode e)) action = OK buffer ->
  flatten_params buffer t (batch_size (settings e)) (n_actions (settings e))
  = OK params ->
  (t <= _inside_trunc_tracker (episode e))%Z ->
  let e1 := set_episode (with_episode_ended true)
              (set_episode (with_param_values buffer) (count_step e)) in
  perform_action e1 params = (b, OK score) ->
  (intermediate_rewards (settings e) = false ->
   is_ok (_get_obs (set_base b e1)) = true) ->
  length score = batch_size (settings e) ->
  (exists x, x ∈ score /\ (isnan x = true \/ isinf x = true)) ->
  exists e',
    step action e = (e', Raise AssertionError_NaNInf)
    /\ _episode_ended (episode e') = true
    /\ _step_tracker (episode e') = (_step_tracker (episode e) + 1)%Z
    /\ _param_values (episode e') = buffer
    /\ reward_history (episode e') = reward_history (episode e) ++ [score]
    /\ _inside_trunc_tracker (episode e') = _inside_trunc_tracker (episode e).
Proof.
  intros Hlive Ht Hlen Hw Hf Hterm e1 Hperf Hobs Hscore Hbad.
  pose proof (trunc_index_lt e t Ht) as Hlt.
  exists (log_reward score (track_best score (set_base b e1))).
  split.
  - rewrite step_eq, Ht. cbv zeta. rewrite Hlive.
    destruct (Z.leb_spec (Z.of_nat (tgt_instruction_counts e)) t); [lia |].
    rewrite Hlen, Nat.eqb_refl. cbn [negb]. rewrite Hw, Hf.
    destruct (Z.ltb_spec (_inside_trunc_tracker (episode e)) t); [lia |].
    rewrite terminal_step_eq. cbv zeta. fold e1. rewrite Hperf.
    change (settings (set_episode (with_param_values buffer) (count_step e)))
      with (settings e).
    assert (Hcheck : (if intermediate_rewards (settings e) then OK score
                      else _get_obs (set_base b e1))
                     = OK (if intermediate_rewards (settings e) then score
                           else match _get_obs (set_base b e1) with
                                | OK o => o
                                | Raise _ => []
                                end)).
    { destruct (intermediate_rewards (settings e)); [reflexivity |].
      specialize (Hobs eq_refl). destruct (_get_obs _); [reflexivity | discriminate]. }
    rewrite Hcheck, Hscore, Nat.eqb_refl. cbn [negb].
    rewrite (exists_nan_or_inf score Hbad). reflexivity.
  - destruct (episode_log_reward_track_best score (set_base b e1))
      as (He & Hs & Hi & Hp & Hh).
    rewrite He, Hs, Hi, Hp, Hh. repeat split.
Qed.

Lemma terminal_reward_is_shaped (action : list (list np_float)) (e e' : Env)
  (r : StepReturn) :
  _episode_ended (episode e) = false ->
  step action e = (e', OK r) ->
  terminated r = true ->
  exists e0 params b score,
    perform_action e0 params = (b, OK score)
    /\ reward r = map negative_log_error score.
Proof.
  intros Hlive H Hterm. rewrite step_eq in H.
  destruct (trunc_index e) as [t |] eqn:Ht; [| discriminate H].
  pose proof (trunc_index_lt e t Ht) as Hlt. cbv zeta in H.
  rewrite Hlive in H.
  destruct (Z.leb_spec (Z.of_nat (tgt_instruction_counts e)) t) as [Hle | _];
    [lia |].
  destruct (negb _); [discriminate H |].
  destruct (write_params _ _ _ _) as [buffer |]; [| discriminate H].
  destruct (flatten_params _ _ _ _) as [params |]; [| discriminate H].
  destruct (_ <? _)%Z.
  - rewrite intermediate_step_eq in H. cbv zeta in H.
    split_run H; inversion H; subst r; discriminate Hterm.
  - rewrite terminal_step_eq in H. cbv zeta in H.
    destruct (perform_action _ params) as [b [score | x]] eqn:Hperf;
      [| discriminate H].
    exists (set_episode (with_episode_ended true)
              (set_episode (with_param_values buffer) (count_step e))),
      params, b, score.
    split; [exact Hperf |].
    split_run H; inversion H; reflexivity.
Qed.



(** ** The action buffer *)

Lemma index_nat (len i : nat) : i < len -> index len (Z.of_nat i) = OK i.
Proof.
  intros H. unfold index.
  destruct (Z.leb_spec 0 (Z.of_nat i)); [| lia].
  destruct (Z.ltb_spec (Z.of_nat i) (Z.of_nat len)); [| lia].
  rewrite Nat2Z.id. reflexivity.
Qed.

Lemma getitem_nat {A} (l : list A) (i : nat) (x : A) :
  l !! i = Some x -> getitem l (Z.of_nat i) = OK x.
Proof.
  intros H. unfold getitem.
  rewrite index_nat by (eapply lookup_lt_Some; eassumption).
  cbn. rewrite H. reflexivity.
Qed.

Lemma setitem_nat {A} (l : list A) (i : nat) (x : A) :
  i < length l -> setitem l (Z.of_nat i) x = OK (<[i := x]> l).
Proof. intros H. unfold setitem. rewrite index_nat by assumption. reflexivity. Qed.

Lemma create_array_lookup (k batch n i : nat) :
  i < k -> create_array k batch n !! i = Some (zeros3 (i + 1) batch n).
Proof.
  intros H. unfold create_array. rewrite list_lookup_fmap.
  rewrite lookup_seq_lt by assumption. reflexivity.
Qed.

Lemma zeros2_ok (batch n : nat) : block_ok batch n (zeros2 batch n).
Proof.
  unfold block_ok, zeros2, zeros. split.
  - apply length_replicate.
  - apply Forall_replicate. apply length_replicate.
Qed.

Lemma create_array_ok (k batch n : nat) : buffer_ok k batch n (create_array k batch n).
Proof.
  split.
  - unfold create_array. rewrite length_map, length_seq. reflexivity.
  - intros i level Hi.
    assert (Hlt : i < k).
    { apply lookup_lt_Some in Hi. unfold create_array in Hi.
      rewrite length_map, length_seq in Hi. exact Hi. }
    rewrite create_array_lookup in Hi by assumption. injection Hi as <-.
    split.
    + apply length_replicate.
    + apply Forall_replicate. apply zeros2_ok.
Qed.

Lemma mapM_fit_rows (n : nat) (rows : list (list np_float)) :
  Forall (fun row => length row = n) rows ->
  mapM (fun r : list np_float =>
          if length r =? n then OK r
          else match r with
               | [x] => OK (replicate n x)
               | _ => Raise ValueError_Shape
               end) rows
  = OK rows.
Proof.
  induction 1 as [| row rows Hrow _ IH]; [reflexivity |].
  cbn. rewrite Hrow, Nat.eqb_refl. cbn. rewrite IH. reflexivity.
Qed.

Lemma broadcast_rows_ok (batch n i : nat) (level : list (list (list np_float)))
  (block : list (list np_float)) :
  level_ok batch n i level -> block_ok batch n block ->
  broadcast_rows block (block_shape level).1 (block_shape level).2 = OK block.
Proof.
  intros [Hlen Hall] [Hb Hrows].
  destruct level as [| first rest]; [cbn in Hlen; lia |].
  apply Forall_cons in Hall as [[Hf Hfrows] _].
  unfold broadcast_rows. cbn [block_shape fst snd].
  rewrite Hb, Hf, Nat.eqb_refl.
  destruct first as [| r0 first'].
  - cbn in Hf. subst batch. destruct block; [reflexivity | discriminate Hb].
  - apply Forall_cons in Hfrows as [Hr0 _]. rewrite Hr0.
    apply mapM_fit_rows. exact Hrows.
Qed.

Lemma write_params_ok (k batch n i s : nat)
  (buffer : list (list (list (list np_float))))
  (level : list (list (list np_float))) (block : list (list np_float)) :
  buffer_ok k batch n buffer ->
  buffer !! i = Some level ->
  s <= i ->
  block_ok batch n block ->
  write_params buffer (Z.of_nat i) (Z.of_nat s) block
  = OK (<[i := <[s := block]> level]> buffer)
  /\ buffer_ok k batch n (<[i := <[s := block]> level]> buffer).
Proof.
  intros [Hk Hlev] Hi Hs Hblock.
  pose proof (Hlev i level Hi) as Hlevel.
  pose proof Hlevel as [Hlen Hall].
  pose proof (lookup_lt_Some _ _ _ Hi) as Hik.
  split.
  - unfold write_params. rewrite (getitem_nat _ _ _ Hi). cbn.
    rewrite index_nat by lia. cbn.
    rewrite (broadcast_rows_ok batch n i level block Hlevel Hblock). cbn.
    rewrite setitem_nat by lia. cbn.
    apply setitem_nat. assumption.
  - split.
    + rewrite length_insert. exact Hk.
    + intros j level' Hj.
      destruct (decide (i = j)) as [<- | Hne].
      * rewrite list_lookup_insert_eq in Hj by assumption.
        injection Hj as <-. split.
        -- rewrite length_insert. exact Hlen.
        -- apply Forall_insert; assumption.
      * rewrite list_lookup_insert_ne in Hj by assumption. eauto.
Qed.

Lemma write_rows_ok (k batch n i : nat) (blocks : list (list (list np_float))) :
  forall (s : nat) (buffer : list (list (list (list np_float))))
         (level : list (list (list np_float))),
    buffer_ok k batch n buffer ->
    buffer !! i = Some level ->
    s + length blocks <= i + 1 ->
    Forall (block_ok batch n) blocks ->
    exists buffer',
      write_rows buffer i s blocks = OK buffer'
      /\ buffer_ok k batch n buffer'
      /\ buffer' !! i
         = Some (take s level ++ blocks ++ drop (s + length blocks) level).
Proof.
  induction blocks as [| block rest IH]; intros s buffer level Hok Hi Hs Hall.
  - exists buffer. cbn. split; [reflexivity |]. split; [exact Hok |].
    rewrite Nat.add_0_r, take_drop. exact Hi.
  - apply Forall_cons in Hall as [Hblock Hrest]. cbn [length] in Hs.
    pose proof Hok as [Hk Hlev].
    pose proof (Hlev i level Hi) as [Hlen _].
    pose proof (lookup_lt_Some _ _ _ Hi) as Hik.
    destruct (write_params_ok k batch n i s buffer level block Hok Hi
                ltac:(lia) Hblock) as [Hw Hok'].
    destruct (IH (S s) (<[i := <[s := block]> level]> buffer)
                (<[s := block]> level) Hok'
                ltac:(apply list_lookup_insert_eq; assumption)
                ltac:(lia) Hrest)
      as (buffer' & Hrun & Hok'' & Hlook).
    exists buffer'. cbn [write_rows]. rewrite Hw. cbn.
    split; [exact Hrun |]. split; [exact Hok'' |].
    rewrite Hlook. f_equal.
    rewrite (take_S_r (<[s := block]> level) s block)
      by (apply list_lookup_insert_eq; lia).
    rewrite take_insert_ge by lia.
    rewrite drop_insert_lt by lia.
    cbn [length]. rewrite <- app_assoc. cbn.
    replace (S (s + length rest)) with (s + S (length rest)) by lia.
    reflexivity.
Qed.

Lemma length_concat_block (batch n : nat) (block : list (list np_float)) :
  block_ok batch n block -> length (concat block) = batch * n.
Proof.
  intros [<- Hrows]. induction Hrows as [| row rows Hrow _ IH]; [reflexivity |].
  cbn. rewrite length_app, IH, Hrow. reflexivity.
Qed.

Lemma length_ravel_level (batch n : nat) (level : list (list (list np_float))) :
  Forall (block_ok batch n) level ->
  length (ravel (vstack level)) = length level * (batch * n).
Proof.
  unfold ravel, vstack.
  induction 1 as [| block level Hblock _ IH]; [reflexivity |].
  cbn. rewrite concat_app, length_app, IH.
  rewrite (length_concat_block batch n block Hblock). reflexivity.
Qed.

Lemma length_chunks {A} (rows cols : nat) (flat : list A) :
  length (chunks rows cols flat) = rows.
Proof.
  revert flat. induction rows as [| r IH]; intros flat; [reflexivity |].
  cbn. rewrite IH. reflexivity.
Qed.

Lemma chunks_rows {A} (rows cols : nat) (flat : list A) :
  length flat = rows * cols ->
  Forall (fun row => length row = cols) (chunks rows cols flat).
Proof.
  revert flat. induction rows as [| r IH]; intros flat Hlen; [constructor |].
  cbn. constructor.
  - rewrite length_take. cbn in Hlen. lia.
  - apply IH. rewrite length_drop. cbn in Hlen. lia.
Qed.

Lemma concat_chunks {A} (rows cols : nat) (flat : list A) :
  length flat = rows * cols -> concat (chunks rows cols flat) = flat.
Proof.
  revert flat. induction rows as [| r IH]; intros flat Hlen.
  - cbn in *. destruct flat; [reflexivity | discriminate Hlen].
  - cbn. rewrite IH; [apply take_drop |].
    rewrite length_drop. cbn in Hlen. lia.
Qed.

Lemma flatten_params_ok (k batch n i : nat)
  (buffer : list (list (list (list np_float))))
  (level : list (list (list np_float))) :
  buffer_ok k batch n buffer ->
  buffer !! i = Some level ->
  flatten_params buffer (Z.of_nat i) batch n
  = OK (chunks batch ((i + 1) * n) (ravel (vstack level))).
Proof.
  intros [Hk Hlev] Hi. pose proof (Hlev i level Hi) as [Hlen Hall].
  unfold flatten_params. rewrite (getitem_nat _ _ _ Hi). cbn.
  unfold reshape.
  destruct (Z.leb_spec 0 ((Z.of_nat i + 1) * Z.of_nat n)); [| lia].
  replace (Z.to_nat ((Z.of_nat i + 1) * Z.of_nat n)) with ((i + 1) * n) by lia.
  rewrite (length_ravel_level batch n level Hall), Hlen.
  replace ((i + 1) * (batch * n) =? batch * ((i + 1) * n)) with true
    by (symmetry; apply Nat.eqb_eq; lia).
  reflexivity.
Qed.

(** After action blocks of shape [(batch_size, action_dim)] have been
    written into rows [0..i] of level [i] of a freshly allocated buffer,
    the level holds exactly these blocks, and flattening it gives an array
    of [batch_size] rows of [(i + 1) * action_dim] entries whose row-major
    contents are the row-major contents of the blocks, in writing order:
    no entry is lost. *)
Lemma flatten_after_writes (k batch n i : nat)
  (blocks : list (list (list np_float))) :
  1 <= batch -> 1 <= n -> i < k ->
  length blocks = i + 1 ->
  Forall (block_ok batch n) blocks ->
  exists buffer arr,
    write_rows (create_array k batch n) i 0 blocks = OK buffer
    /\ buffer !! i = Some blocks
    /\ flatten_params buffer (Z.of_nat i) batch n = OK arr
    /\ length arr = batch
    /\ Forall (fun row => length row = (i + 1) * n) arr
    /\ ravel arr = concat (map ravel blocks).
Proof.
  intros _ _ Hik Hlen Hall.
  destruct (write_rows_ok k batch n i blocks 0 (create_array k batch n)
              (zeros3 (i + 1) batch n) (create_array_ok k batch n)
              (create_array_lookup k batch n i Hik) ltac:(lia) Hall)
    as (buffer & Hrun & Hok & Hlook).
  assert (Hlevel : buffer !! i = Some blocks).
  { rewrite Hlook. rewrite take_0. cbn [app].
    rewrite drop_ge by (unfold zeros3; rewrite length_replicate; lia).
    rewrite app_nil_r. reflexivity. }
  pose proof (length_ravel_level batch n blocks Hall) as Hsize.
  exists buffer, (chunks batch ((i + 1) * n) (ravel (vstack blocks))).
  split; [exact Hrun |]. split; [exact Hlevel |].
  split; [apply (flatten_params_ok k); assumption |].
  split; [apply length_chunks |].
  split.
  - apply chunks_rows. rewrite Hsize, Hlen. lia.
  - unfold ravel at 1. rewrite concat_chunks by (rewrite Hsize, Hlen; lia).
    unfold ravel, vstack. clear. induction blocks as [| b bs IH]; [reflexivity |].
    cbn. rewrite concat_app, IH. reflexivity.
Qed.


(** ** Episodes *)

Lemma trunc_index_ext (e1 e2 : Env) :
  settings e1 = settings e2 -> context e1 = context e2 ->
  _step_tracker (episode e1) = _step_tracker (episode e2) ->
  trunc_index e1 = trunc_index e2.
Proof.
  intros Hs Hc Hg. unfold trunc_index, tgt_instruction_counts.
  rewrite Hs, Hc, Hg. reflexivity.
Qed.

Lemma consistent_ext (e1 e2 : Env) :
  settings e1 = settings e2 -> context e1 = context e2 ->
  (0 <= _step_tracker (episode e1))%Z ->
  consistent e2 -> consistent e1.
Proof.
  intros Hs Hc Hg (Hk & Ht & Hl & _ & Hst).
  unfold consistent, tgt_instruction_counts in *. rewrite Hs, Hc.
  repeat split; assumption.
Qed.

Lemma _get_obs_total (e : Env) :
  consistent e -> observation_returns ->
  (0 <= _inside_trunc_tracker (episode e)
   < Z.of_nat (tgt_instruction_counts e))%Z ->
  exists o, _get_obs e = OK o.
Proof.
  intros Hc Hobs Hin.
  destruct (trunc_index_total _ Hc) as [t Ht].
  pose proof (trunc_index_nonneg _ _ Hc Ht) as Ht0.
  pose proof (trunc_index_lt _ _ Ht) as Htk.
  destruct Hc as (Hk & Hlt & Hll & _ & _).
  destruct (getitem_in_range (_target (context e)) t) as [g Hg]; [lia |].
  destruct (getitem_in_range (_target_instruction_timings (context e))
              (_inside_trunc_tracker (episode e))) as [t0 Ht0']; [lia |].
  unfold _get_obs, target. rewrite Ht. cbn. rewrite Hg. cbn.
  destruct (reward_method_is_state (settings e)) eqn:Hrm.
  - destruct (Hobs e Hrm) as [Hp Ho].
    destruct (input_state_progress e); [| discriminate].
    destruct (_observable_to_observation e); [| discriminate].
    cbn. rewrite Ht0'. cbn. eauto.
  - rewrite Ht0'. cbn. eauto.
Qed.

Section OneEpisode.

Variable e0 : Env.
Variable g : Z.
Variable t : nat.

Hypothesis e0_consistent : consistent e0.
Hypothesis g_nonneg : (0 <= g)%Z.
Hypothesis collaborator_returns : perform_action_returns.
Hypothesis obs_returns : observation_returns.

Let k := tgt_instruction_counts e0.
Let B := batch_size (settings e0).
Let n := n_actions (settings e0).

Lemma in_episode_consistent (j : nat) (e : Env) :
  in_episode e0 g j e -> consistent e.
Proof using e0_consistent g_nonneg.
  intros (Hs & Hc & Hg & _). apply (consistent_ext e e0); try assumption. lia.
Qed.

Lemma in_episode_counts (j : nat) (e : Env) :
  in_episode e0 g j e -> tgt_instruction_counts e = k.
Proof.
  intros (_ & Hc & _). unfold k, tgt_instruction_counts. rewrite Hc. reflexivity.
Qed.

Lemma in_episode_trunc_index (j : nat) (e : Env) :
  in_episode e0 g j e ->
  trunc_index e = trunc_index_at e0 (g + Z.of_nat j).
Proof.
  intros (Hs & Hc & Hg & _). unfold trunc_index_at.
  apply trunc_index_ext; assumption.
Qed.

(** A call before the last: the block is stored, the sub-step counter
    advances and the call returns [terminated = False]. *)
Lemma step_before_last (j : nat) (e : Env) (action : list (list np_float)) :
  in_episode e0 g j e ->
  trunc_index_at e0 (g + Z.of_nat j) = OK (Z.of_nat t) ->
  j < t ->
  block_ok B n action ->
  exists e' r,
    step action e = (e', OK r)
    /\ terminated r = false
    /\ in_episode e0 g (S j) e'.
Proof using e0_consistent g_nonneg collaborator_returns obs_returns.
  intros Hin Hidx Hj Hblock.
  pose proof (in_episode_consistent j e Hin) as Hcons.
  pose proof (in_episode_counts j e Hin) as Hk.
  pose proof (in_episode_trunc_index j e Hin) as Hti. rewrite Hidx in Hti.
  pose proof (trunc_index_lt e _ Hti) as Htk. rewrite Hk in Htk.
  destruct Hin as (Hs & Hc & Hg & Hi & He & Hbuf).
  destruct (lookup_lt_is_Some_2 (_param_values (episode e)) t) as [level Hlevel];
    [destruct Hbuf as [-> _]; fold k; lia |].
  destruct (write_params_ok _ _ _ t j _ level action Hbuf Hlevel ltac:(lia) Hblock)
    as [Hw Hbuf'].
  set (buffer := <[t := <[j := action]> level]> (_param_values (episode e))) in *.
  assert (Hlevel' : buffer !! t = Some (<[j := action]> level)).
  { apply list_lookup_insert_eq. eapply lookup_lt_Some; eassumption. }
  pose proof (flatten_params_ok _ _ _ t buffer _ Hbuf' Hlevel') as Hf.
  set (e1 := set_episode (with_param_values buffer) (count_step e)).
  set (e2 := set_episode
               (with_inside_trunc_tracker (_inside_trunc_tracker (episode e1) + 1)%Z)
               e1).
  assert (Hstep : step action e
                  = intermediate_step
                      (chunks B ((t + 1) * n) (ravel (vstack (<[j := action]> level))))
                      (length action) e1).
  { rewrite step_eq, Hti. cbv zeta. rewrite He, Hk.
    destruct (Z.leb_spec (Z.of_nat k) (Z.of_nat t)); [lia |].
    rewrite Hs. destruct Hblock as [-> _]. fold B. rewrite Nat.eqb_refl.
    cbn [negb]. rewrite Hi, Hw. fold B n in Hf |- *. rewrite Hf.
    destruct (Z.ltb_spec (Z.of_nat j) (Z.of_nat t)); [| lia]. reflexivity. }
  assert (Hin2 : forall b, in_episode e0 g (S j) (set_base b e2)).
  { intros b. unfold in_episode.
    split; [exact Hs |]. split; [exact Hc |].
    split; [cbn; rewrite Hg; lia |].
    split; [cbn; rewrite Hi; lia |].
    split; [exact He | exact Hbuf']. }
  rewrite Hstep, intermediate_step_eq. cbv zeta. fold e2.
  change (settings e1) with (settings e).
  destruct (intermediate_rewards (settings e)).
  - match goal with
    | |- context [perform_action e2 ?p] =>
        destruct (collaborator_returns e2 p) as (b & score & -> & _ & _)
    end.
    eexists _, _. split; [reflexivity |]. split; [reflexivity |]. apply Hin2.
  - assert (Hin2' : in_episode e0 g (S j) e2) by apply (Hin2 (base e2)).
    destruct (_get_obs_total e2) as [o ->].
    + eapply in_episode_consistent; eassumption.
    + exact obs_returns.
    + rewrite (in_episode_counts _ _ Hin2').
      destruct Hin2' as (_ & _ & _ & -> & _). lia.
    + eexists _, _. split; [reflexivity |]. split; [reflexivity |]. exact Hin2'.
Qed.

(** The last call: the reward is computed and the call returns
    [terminated = True]. *)
Lemma step_last (e : Env) (action : list (list np_float)) :
  in_episode e0 g t e ->
  trunc_index_at e0 (g + Z.of_nat t) = OK (Z.of_nat t) ->
  block_ok B n action ->
  exists e' r,
    step action e = (e', OK r)
    /\ terminated r = true
    /\ _episode_ended (episode e') = true.
Proof using e0_consistent g_nonneg collaborator_returns obs_returns.
  intros Hin Hidx Hblock.
  pose proof (in_episode_consistent t e Hin) as Hcons.
  pose proof (in_episode_counts t e Hin) as Hk.
  pose proof (in_episode_trunc_index t e Hin) as Hti. rewrite Hidx in Hti.
  pose proof (trunc_index_lt e _ Hti) as Htk. rewrite Hk in Htk.
  destruct Hin as (Hs & Hc & Hg & Hi & He & Hbuf).
  destruct (lookup_lt_is_Some_2 (_param_values (episode e)) t) as [level Hlevel];
    [destruct Hbuf as [-> _]; fold k; lia |].
  destruct (write_params_ok _ _ _ t t _ level action Hbuf Hlevel ltac:(lia) Hblock)
    as [Hw Hbuf'].
  set (buffer := <[t := <[t := action]> level]> (_param_values (episode e))) in *.
  assert (Hlevel' : buffer !! t = Some (<[t := action]> level)).
  { apply list_lookup_insert_eq. eapply lookup_lt_Some; eassumption. }
  pose proof (flatten_params_ok _ _ _ t buffer _ Hbuf' Hlevel') as Hf.
  set (e1 := set_episode (with_param_values buffer) (count_step e)).
  set (e2 := set_episode (with_episode_ended true) e1).
  assert (Hstep : step action e
                  = terminal_step
                      (chunks B ((t + 1) * n) (ravel (vstack (<[t := action]> level))))
                      e1).
  { rewrite step_eq, Hti. cbv zeta. rewrite He, Hk.
    destruct (Z.leb_spec (Z.of_nat k) (Z.of_nat t)); [lia |].
    rewrite Hs. destruct Hblock as [-> _]. fold B. rewrite Nat.eqb_refl.
    cbn [negb]. rewrite Hi, Hw. fold B n in Hf |- *. rewrite Hf.
    destruct (Z.ltb_spec (Z.of_nat t) (Z.of_nat t)); [lia |]. reflexivity. }
  rewrite Hstep, terminal_step_eq. cbv zeta. fold e2.
  destruct (collaborator_returns e2
              (chunks B ((t + 1) * n) (ravel (vstack (<[t := action]> level)))))
    as (b & score & -> & Hlen & Hfinite).
  change (settings e1) with (settings e).
  change (settings e2) with (settings e) in Hlen.
  rewrite Hlen, Nat.eqb_refl, Hfinite. cbn [negb].
  assert (Hobs : exists o, (if intermediate_rewards (settings e) then OK score
                            else _get_obs (set_base b e2)) = OK o).
  { destruct (intermediate_rewards (settings e)); [eauto |].
    apply _get_obs_total.
    - apply (consistent_ext _ e); [reflexivity | reflexivity | | exact Hcons].
      cbn. destruct Hcons as (_ & _ & _ & H0 & _). lia.
    - exact obs_returns.
    - change (tgt_instruction_counts (set_base b e2))
        with (tgt_instruction_counts e).
      change (_inside_trunc_tracker (episode (set_base b e2)))
        with (_inside_trunc_tracker (episode e)).
      rewrite Hk, Hi. lia. }
  destruct Hobs as [o ->].
  eexists _, _. split; [reflexivity |]. split; [reflexivity |].
  destruct (episode_log_reward_track_best score (set_base b e2)) as (-> & _).
  reflexivity.
Qed.

(** From [j] calls into the episode, the remaining [t + 1 - j] calls. *)
Lemma steps_to_the_end (actions : list (list (list np_float))) :
  forall (j : nat) (e : Env),
    in_episode e0 g j e ->
    j <= t ->
    j + length actions = t + 1 ->
    (forall i : nat, j <= i -> i <= t ->
                     trunc_index_at e0 (g + Z.of_nat i) = OK (Z.of_nat t)) ->
    Forall (block_ok B n) actions ->
    exists e' rs,
      steps actions e = (e', OK rs)
      /\ length rs = length actions
      /\ (forall i r, i + 1 < length actions -> rs !! i = Some r ->
                      terminated r = false)
      /\ (exists r, rs !! (length actions - 1) = Some r /\ terminated r = true)
      /\ _episode_ended (episode e') = true.
Proof using e0_consistent g_nonneg collaborator_returns obs_returns.
  induction actions as [| action rest IH]; intros j e Hin Hjt Hlen Hidx Hall.
  - cbn in Hlen. lia.
  - apply Forall_cons in Hall as [Hblock Hrest]. cbn [length] in Hlen.
    destruct rest as [| action' rest'].
    + assert (j = t) as -> by (cbn in Hlen; lia).
      destruct (step_last e action Hin (Hidx t ltac:(lia) ltac:(lia)) Hblock)
        as (e' & r & Hstep & Hterm & Hended).
      exists e', [r]. cbn [steps]. unfold bind. rewrite Hstep. unfold ret.
      split; [reflexivity |]. split; [reflexivity |].
      split; [intros i r' Hi; cbn in Hi; lia |].
      split; [exists r; split; [reflexivity | exact Hterm] | exact Hended].
    + cbn [length] in Hlen.
      destruct (step_before_last j e action Hin
                  (Hidx j ltac:(lia) ltac:(lia)) ltac:(lia) Hblock)
        as (e1 & r & Hstep & Hterm & Hin1).
      destruct (IH (S j) e1 Hin1 ltac:(lia) ltac:(cbn [length]; lia)
                  ltac:(intros i H1 H2; apply Hidx; lia) Hrest)
        as (e' & rs & Hrun & Hlen' & Hbefore & (rl & Hlast & Hlt) & Hended).
      exists e', (r :: rs).
      change (steps (action :: action' :: rest') e)
        with (bind (step action)
                (fun r => bind (steps (action' :: rest'))
                            (fun rs => ret (r :: rs))) e).
      unfold bind at 1. rewrite Hstep. unfold bind at 1. rewrite Hrun.
      unfold ret.
      split; [reflexivity |].
      split; [cbn [length]; rewrite Hlen'; reflexivity |].
      split; [| split; [| exact Hended]].
      * intros [| i] r' Hi Hr'.
        -- cbn in Hr'. injection Hr' as <-. exact Hterm.
        -- cbn in Hr'. apply (Hbefore i r'); [cbn [length] in *; lia | exact Hr'].
      * exists rl. split; [| exact Hlt].
        cbn [length] in *.
        replace (S (S (length rest')) - 1) with (S (S (length rest') - 1))
          by lia.
        exact Hlast.
Qed.

End OneEpisode.

Lemma reset_env_in_episode (e0 : Env) :
  in_episode e0 (_step_tracker (episode e0)) 0 (reset_env e0).
Proof.
  unfold in_episode.
  split; [reflexivity |]. split; [reflexivity |].
  split; [cbn; lia |]. split; [reflexivity |]. split; [reflexivity |].
  apply create_array_ok.
Qed.

(** C3, as the code has it: after a reset at global step [g], if the
    selection policy gives the same truncation index [t] at each of the
    global steps [g, .., g + t] and the collaborators return, then
    [t + 1] calls of [step] with action batches of the configured shape
    all return, the first [t] with [terminated = False] and the last one
    with [terminated = True]. *)
Theorem C3_episode_takes_t_plus_one_steps (e0 : Env) (t : nat)
  (actions : list (list (list np_float))) :
  consistent e0 ->
  perform_action_returns ->
  observation_returns ->
  (forall i : nat,
      i <= t ->
      trunc_index_at e0 (_step_tracker (episode e0) + Z.of_nat i)
      = OK (Z.of_nat t)) ->
  length actions = t + 1 ->
  Forall (block_ok (batch_size (settings e0)) (n_actions (settings e0))) actions ->
  exists e' rs,
    steps actions (reset_env e0) = (e', OK rs)
    /\ length rs = t + 1
    /\ (forall i r, i < t -> rs !! i = Some r -> terminated r = false)
    /\ (exists r, rs !! t = Some r /\ terminated r = true)
    /\ _episode_ended (episode e') = true.
Proof.
  intros Hcons Hperf Hobs Hidx Hlen Hall.
  destruct (steps_to_the_end e0 (_step_tracker (episode e0)) t Hcons
              ltac:(destruct Hcons as (_ & _ & _ & H & _); exact H)
              Hperf Hobs actions 0 (reset_env e0)
              (reset_env_in_episode e0) ltac:(lia) ltac:(lia)
              ltac:(intros i _ Hi; apply Hidx; exact Hi) Hall)
    as (e' & rs & Hrun & Hlen' & Hbefore & (r & Hlast & Hterm) & Hended).
  exists e', rs. rewrite Hlen in *.
  split; [exact Hrun |]. split; [exact Hlen' |].
  split; [intros i r' Hi; apply Hbefore; lia |].
  split; [| exact Hended].
  exists r. replace t with (t + 1 - 1) at 1 by lia. split; assumption.
Qed.


(** ** The truncation builder *)

Section LoopFacts.

Variable ctx : Context.
Variables neighbor_qubits next_neighbor_qubits : list nat.
Variable circ_nn_qubits : list Bit.
Variables tgt_register nn_register anc_register : list Bit.
Variable mapping : gmap Bit Bit.

#[local] Abbreviation add_register_bit' :=
  (add_register_bit neighbor_qubits next_neighbor_qubits circ_nn_qubits
     nn_register anc_register mapping).
#[local] Abbreviation visit' :=
  (visit ctx neighbor_qubits next_neighbor_qubits circ_nn_qubits
     tgt_register nn_register anc_register mapping).
#[local] Abbreviation truncate' :=
  (truncate ctx neighbor_qubits next_neighbor_qubits circ_nn_qubits
     tgt_register nn_register anc_register mapping).
#[local] Abbreviation admitted' := (admitted ctx circ_nn_qubits).
#[local] Abbreviation involves' := (involves_target_qubits ctx circ_nn_qubits).
#[local] Abbreviation trace' := (admitted_trace ctx circ_nn_qubits).
#[local] Abbreviation remapped' := (remapped mapping).
#[local] Abbreviation sites' := (differ_at_target_sites ctx tgt_register mapping).
#[local] Abbreviation target' := (target_instruction ctx).

Lemma add_bits_spec (qc qc' : QuantumCircuit) (b : Bit) :
  add_bits qc b = OK qc' ->
  qc_qubits qc' = qc_qubits qc ++ [b] /\ data qc' = data qc.
Proof.
  unfold add_bits. destruct (decide _); [discriminate |].
  intros [= <-]. split; reflexivity.
Qed.

Lemma append_spec (qc qc' : QuantumCircuit) (op : Operation) (qargs : list Bit) :
  append qc op qargs = OK qc' ->
  qc_qubits qc' = qc_qubits qc /\ data qc' = data qc ++ [mkInstruction op qargs].
Proof.
  unfold append. destruct (_ && _); [| discriminate].
  intros [= <-]. split; reflexivity.
Qed.

(** Adding register bits leaves the counter and the instructions alone
    and adds the same bits to both circuits. *)
Lemma add_register_bit_spec (T T' : Truncation) (qubit : Bit) :
  add_register_bit' T qubit = OK T' ->
  counts T' = counts T
  /\ data (baseline T') = data (baseline T)
  /\ data (custom T') = data (custom T)
  /\ (qc_qubits (baseline T) = qc_qubits (custom T) ->
      qc_qubits (baseline T') = qc_qubits (custom T')).
Proof.
  unfold add_register_bit.
  destruct (mapped mapping qubit) as [m |]; [cbn | discriminate].
  destruct (bool_decide _).
  - intros [= <-]. auto.
  - destruct (add_bits (baseline T) m) as [b |] eqn:Hb; [cbn | discriminate].
    destruct (add_bits (custom T) m) as [c |] eqn:Hc; [cbn | discriminate].
    destruct (register_index _ m) as [idx |]; [cbn | discriminate].
    destruct (getitem _ _) as [p |]; [cbn | discriminate].
    intros [= <-]. cbn.
    apply add_bits_spec in Hb as [Hbq Hbd], Hc as [Hcq Hcd].
    repeat split; try assumption.
    intros Heq. rewrite Hbq, Hcq, Heq. reflexivity.
Qed.

Lemma add_register_bits_spec (qs : list Bit) :
  forall T T' : Truncation,
    for_each add_register_bit' T qs = OK T' ->
    counts T' = counts T
    /\ data (baseline T') = data (baseline T)
    /\ data (custom T') = data (custom T)
    /\ (qc_qubits (baseline T) = qc_qubits (custom T) ->
        qc_qubits (baseline T') = qc_qubits (custom T')).
Proof.
  induction qs as [| q qs IH]; intros T T' H.
  - injection H as <-. auto.
  - cbn in H.
    destruct (add_register_bit' T q) as [T1 |] eqn:H1; [cbn in H | discriminate].
    apply add_register_bit_spec in H1 as (Hc & Hb & Hcu & Hq).
    apply IH in H as (Hc' & Hb' & Hcu' & Hq').
    rewrite Hc', Hb', Hcu', Hc, Hb, Hcu.
    split; [reflexivity |]. split; [reflexivity |]. split; [reflexivity |].
    intros Heq. apply Hq', Hq, Heq.
Qed.

(** One turn of the loop, in terms of what it appends. *)
Lemma visit_spec (i : nat) (T T' : Truncation) (start_time : Z)
  (instruction : CircuitInstruction) :
  visit' i T (start_time, instruction) = OK T' ->
  exists a,
    admitted' i (counts T) start_time instruction = OK a
    /\ (a = false -> T' = T)
    /\ (a = true ->
        exists T1 instruction',
          counts T1 = counts T
          /\ data (baseline T1) = data (baseline T)
          /\ data (custom T1) = data (custom T)
          /\ (qc_qubits (baseline T) = qc_qubits (custom T) ->
              qc_qubits (baseline T1) = qc_qubits (custom T1))
          /\ remapped' instruction = OK instruction'
          /\ qc_qubits (baseline T') = qc_qubits (baseline T1)
          /\ data (baseline T') = data (baseline T) ++ [instruction']
          /\ (instruction <> target' ->
              counts T' = counts T
              /\ qc_qubits (custom T') = qc_qubits (custom T1)
              /\ data (custom T') = data (custom T) ++ [instruction'])
          /\ (instruction = target' ->
              counts T' = S (counts T)
              /\ parametrized_circuit_func (custom T1) (counts T) tgt_register
                 = OK (custom T'))).
Proof.
  unfold visit.
  destruct (admitted' i (counts T) start_time instruction) as [a |];
    [cbn | discriminate].
  intros H. exists a. split; [reflexivity |].
  destruct a.
  2:{ injection H as <-. split; [reflexivity | discriminate]. }
  split; [discriminate |]. intros _.
  destruct (for_each _ T _) as [T1 |] eqn:H1; [cbn in H | discriminate].
  apply add_register_bits_spec in H1 as (Hc & Hb & Hcu & Hq).
  exists T1. unfold remapped.
  destruct (mapM (mapped mapping) (qubits instruction)) as [qargs |];
    [cbn in H |- * | discriminate].
  destruct (append (baseline T1) _ qargs) as [b |] eqn:Hbapp;
    [cbn in H | discriminate].
  apply append_spec in Hbapp as [Hbq Hbd].
  eexists. do 4 (split; [eassumption |]). split; [reflexivity |].
  destruct (decide (instruction <> target')) as [Hne | Heq].
  - destruct (append (custom T1) _ qargs) as [c |] eqn:Hcapp;
      [cbn in H | discriminate].
    apply append_spec in Hcapp as [Hcq Hcd].
    injection H as <-. cbn.
    split; [exact Hbq |]. split; [rewrite Hbd, Hb; reflexivity |].
    split; [| intros Heq; contradiction].
    intros _. split; [exact Hc |]. split; [exact Hcq |].
    rewrite Hcd, Hcu. reflexivity.
  - cbv beta iota in H.
    match type of H with
    | (if ?c then _ else _) = _ => destruct c; [| discriminate H]
    end.
    destruct (parametrized_circuit_func _ _ _) as [c |] eqn:Hcall;
      [cbn in H | discriminate].
    injection H as <-. cbn.
    split; [exact Hbq |]. split; [rewrite Hbd, Hb; reflexivity |].
    split; [intros Hne; contradiction |].
    intros _. rewrite <- Hc. split; [reflexivity | exact Hcall].
Qed.

Lemma involves_target_qubits_spec (instruction : CircuitInstruction) :
  involves' instruction = true ->
  exists q, q ∈ qubits instruction
            /\ (q ∈ circ_tgt_register ctx \/ q ∈ circ_nn_qubits).
Proof.
  unfold involves_target_qubits, any. cbn [flat_map]. rewrite app_nil_r.
  intros H. apply existsb_exists in H as (b & Hin & ->).
  apply in_app_or in Hin as [Hin | Hin];
    apply in_map_iff in Hin as (q & Hq & Hin);
    apply bool_decide_eq_true in Hq;
    exists q; (split; [apply list_elem_of_In; exact Hin | auto]).
Qed.

Lemma count_app (l1 l2 : list CircuitInstruction) (x : CircuitInstruction) :
  count (l1 ++ l2) x = count l1 x + count l2 x.
Proof. unfold count. rewrite filter_app, length_app. reflexivity. Qed.

Lemma count_singleton (y x : CircuitInstruction) :
  count [y] x = if decide (y = x) then 1 else 0.
Proof.
  unfold count. rewrite filter_cons, filter_nil.
  destruct (decide (y = x)); reflexivity.
Qed.

(** The instructions a walk admits are those the baseline circuit
    receives, remapped, in order. *)
Lemma walk_trace (i : nat) (prog : list (Z * CircuitInstruction)) :
  forall (T T' : Truncation) (pos : nat),
    for_each (visit' i) T prog = OK T' ->
    exists tr added,
      trace' i (counts T) pos prog = OK tr
      /\ mapM remapped' (tr.*2) = OK added
      /\ data (baseline T') = data (baseline T) ++ added.
Proof.
  induction prog as [| [start_time instruction] rest IH]; intros T T' pos H.
  - injection H as <-. exists [], []. cbn. rewrite app_nil_r. auto.
  - cbn [for_each] in H.
    destruct (visit' i T (start_time, instruction)) as [T1 |] eqn:Hv;
      [cbn in H | discriminate].
    destruct (visit_spec _ _ _ _ _ Hv) as (a & Ha & Hskip & Hadd).
    cbn [admitted_trace]. rewrite Ha. cbn.
    destruct a.
    + destruct (Hadd eq_refl)
        as (T0 & ins' & _ & _ & _ & _ & Hre & _ & Hbd & Hne & Heq).
      assert (Hcounts : counts T1 = if decide (instruction = target')
                                    then S (counts T) else counts T).
      { destruct (decide (instruction = target')) as [He | Hn].
        - apply Heq, He.
        - apply Hne, Hn. }
      destruct (IH T1 T' (S pos) H) as (tr & added & Htr & Hmap & Hdata).
      rewrite <- Hcounts, Htr. cbn.
      exists ((pos, start_time, instruction) :: tr), (ins' :: added).
      split; [reflexivity |]. split.
      * cbn. rewrite Hre. cbn. rewrite Hmap. reflexivity.
      * rewrite Hdata, Hbd, <- app_assoc. reflexivity.
    + rewrite (Hskip eq_refl) in H. apply (IH T T' (S pos) H).
Qed.

(** Every admitted instruction sits where the trace says, involves the
    target register or a nearest neighbour, and either comes no later in
    the program than occurrence [i] of the target or starts no later. *)
Lemma trace_sound (i : nat) (prog : list (Z * CircuitInstruction)) :
  involves' target' = true ->
  forall (pre : list (Z * CircuitInstruction)) (c : nat)
         (tr : list (nat * Z * CircuitInstruction)),
    trace' i c (length pre) prog = OK tr ->
    (c <= i -> count (pre.*2) target' = c) ->
    forall p start_time instruction,
      (p, start_time, instruction) ∈ tr ->
      (pre ++ prog) !! p = Some (start_time, instruction)
      /\ involves' instruction = true
      /\ (count ((take p (pre ++ prog)).*2) target' <= i
          \/ exists ti,
               getitem (_target_instruction_timings ctx) (Z.of_nat i) = OK ti
               /\ (start_time <= ti)%Z).
Proof.
  intros Htarget.
  induction prog as [| [t0 ins0] rest IH]; intros pre c tr Htr Hinv p t ins Hin.
  - injection Htr as <-. apply elem_of_nil in Hin. contradiction.
  - cbn [admitted_trace] in Htr.
    destruct (admitted' i c t0 ins0) as [a |] eqn:Ha; [cbn in Htr | discriminate].
    assert (Hpre : length (pre ++ [(t0, ins0)]) = S (length pre))
      by (rewrite length_app; cbn; lia).
    assert (Happ : pre ++ (t0, ins0) :: rest = (pre ++ [(t0, ins0)]) ++ rest)
      by (rewrite <- app_assoc; reflexivity).
    unfold admitted, before_target in Ha.
    destruct a.
    + destruct (admitted_trace _ _ _ _ _ _) as [tr' |] eqn:Htr';
        [cbn in Htr | discriminate].
      injection Htr as <-.
      apply elem_of_cons in Hin as [[= -> -> ->] | Hin].
      * split; [apply list_lookup_middle; reflexivity |].
        destruct (Nat.leb_spec c i) as [Hle | Hgt].
        -- cbn in Ha. injection Ha as Ha.
           split; [exact Ha |]. left.
           rewrite take_app_length. rewrite (Hinv Hle). exact Hle.
        -- destruct (getitem _ _) as [ti |] eqn:Hti; [cbn in Ha | discriminate].
           injection Ha as Ha. apply andb_true_iff in Ha as [Hlt Hinvolves].
           split; [exact Hinvolves |]. right. exists ti.
           split; [reflexivity | apply Z.leb_le; exact Hlt].
      * rewrite Happ. rewrite <- Hpre in Htr'.
        apply (IH _ _ _ Htr'); [| exact Hin].
        intros Hc. rewrite fmap_app, count_app.
        change ([(t0, ins0)].*2) with [ins0]. rewrite count_singleton.
        destruct (decide (ins0 = target')); [rewrite Hinv by lia | rewrite Hinv by lia];
          lia.
    + rewrite Happ. rewrite <- Hpre in Htr.
      apply (IH _ _ _ Htr); [| exact Hin].
      intros Hc. rewrite fmap_app, count_app.
      change ([(t0, ins0)].*2) with [ins0]. rewrite count_singleton.
      rewrite (Hinv Hc).
      destruct (decide (ins0 = target')) as [-> | _]; [| lia].
      destruct (Nat.leb_spec c i); [| lia].
      change (OK (true && involves' target') = OK false) in Ha.
      rewrite Htarget in Ha. discriminate Ha.
Qed.

Lemma walk_sites (i : nat) (prog : list (Z * CircuitInstruction)) :
  callback_appends ->
  forall T T' : Truncation,
    for_each (visit' i) T prog = OK T' ->
    qc_qubits (baseline T) = qc_qubits (custom T) ->
    sites' (counts T) (data (baseline T)) (data (custom T)) ->
    qc_qubits (baseline T') = qc_qubits (custom T')
    /\ sites' (counts T') (data (baseline T')) (data (custom T')).
Proof.
  intros Hcb.
  induction prog as [| [start_time instruction] rest IH]; intros T T' H Hq Hs.
  - injection H as <-. auto.
  - cbn [for_each] in H.
    destruct (visit' i T (start_time, instruction)) as [T1 |] eqn:Hv;
      [cbn in H | discriminate].
    destruct (visit_spec _ _ _ _ _ Hv) as (a & Ha & Hskip & Hadd).
    destruct a; [| rewrite (Hskip eq_refl) in H; apply (IH T T' H Hq Hs)].
    destruct (Hadd eq_refl)
      as (T0 & ins' & Hc0 & Hb0 & Hcu0 & Hq0 & Hre & Hbq & Hbd & Hne & Heq).
    specialize (Hq0 Hq).
    destruct (decide (instruction = target')) as [He | Hn].
    + destruct (Heq He) as [Hc1 Hcall].
      destruct (Hcb _ _ _ _ Hcall) as [Hcq (sub & Hsub)].
      apply (IH T1 T' H).
      * rewrite Hbq, Hcq. exact Hq0.
      * rewrite Hc1, Hbd, Hsub, Hcu0. subst instruction.
        eapply target_site; [exact Hs | exact Hre | exact Hcu0 | exact Hcall |].
        rewrite Hsub, Hcu0. reflexivity.
    + destruct (Hne Hn) as (Hc1 & Hcq & Hcd).
      apply (IH T1 T' H).
      * rewrite Hbq, Hcq. exact Hq0.
      * rewrite Hc1, Hbd, Hcd. eapply same_instruction; eassumption.
Qed.

(** C2, as the code has it: every instruction added to truncation [i]
    involves a qubit of the target register or a nearest-neighbour qubit,
    and either it comes, in program order, no later than occurrence [i]
    of the target instruction, or its start time is at most the start
    time of that occurrence.  The baseline circuit holds exactly these
    instructions, remapped, in order. *)
Theorem C2_admitted_instructions (i : nat) (initial_layout : Layout)
  (T : Truncation) :
  involves' target' = true ->
  truncate' i initial_layout = OK T ->
  exists tr,
    trace' i 0 0 (timed_program ctx) = OK tr
    /\ mapM remapped' (tr.*2) = OK (data (baseline T))
    /\ forall p start_time instruction,
        (p, start_time, instruction) ∈ tr ->
        timed_program ctx !! p = Some (start_time, instruction)
        /\ (exists q, q ∈ qubits instruction
                      /\ (q ∈ circ_tgt_register ctx \/ q ∈ circ_nn_qubits))
        /\ (count ((take p (timed_program ctx)).*2) target' <= i
            \/ exists ti,
                 getitem (_target_instruction_timings ctx) (Z.of_nat i) = OK ti
                 /\ (start_time <= ti)%Z).
Proof.
  intros Htarget Hrun. unfold truncate in Hrun.
  destruct (walk_trace i _ _ _ 0 Hrun) as (tr & added & Htr & Hmap & Hdata).
  cbn in Htr, Hdata. subst added. exists tr.
  split; [exact Htr |]. split; [exact Hmap |].
  intros p t ins Hin.
  destruct (trace_sound i (timed_program ctx) Htarget [] 0 tr Htr
              ltac:(reflexivity) p t ins Hin) as (Hp & Hinv & Htime).
  split; [exact Hp |].
  split; [apply involves_target_qubits_spec; exact Hinv | exact Htime].
Qed.


End LoopFacts.


(** ** Updating the circuit context *)

Lemma assign_kwargs_cons (e : Env) (param : string) (value : Z)
  (rest : list (string * Z)) :
  assign_kwargs e ((param, value) :: rest)
  = assign_kwargs
      (set_context
         (with_circuit_context
            (assign_parameters (circuit_context (context e)) param value)) e)
      rest.
Proof. reflexivity. Qed.

Lemma assign_all_cons (qc : QuantumCircuit) (param : string) (value : Z)
  (rest : list (string * Z)) :
  assign_all qc ((param, value) :: rest)
  = assign_all (assign_parameters qc param value) rest.
Proof. reflexivity. Qed.

Lemma assign_kwargs_context (e : Env) (kwargs : list (string * Z)) :
  settings (assign_kwargs e kwargs) = settings e
  /\ hardware (assign_kwargs e kwargs) = hardware e
  /\ episode (assign_kwargs e kwargs) = episode e
  /\ base (assign_kwargs e kwargs) = base e
  /\ context (assign_kwargs e kwargs)
     = with_circuit_context (assign_all (circuit_context (context e)) kwargs)
         (context e).
Proof.
  revert e. induction kwargs as [| [param value] rest IH]; intros e.
  - cbn. repeat split. destruct (context e); reflexivity.
  - rewrite assign_kwargs_cons, assign_all_cons.
    destruct (IH (set_context
                    (with_circuit_context
                       (assign_parameters (circuit_context (context e)) param value))
                    e)) as (Hs & Hh & Hep & Hb & Hc).
    rewrite Hs, Hh, Hep, Hb, Hc. repeat split.
Qed.

(** The loop over the keywords, up to the first one that names no
    parameter of the circuit. *)
Lemma kwargs_loop_raises (pre post : list (string * Z)) (name : string) (v : Z) :
  forall e : Env,
    all_present (circuit_context (context e)) pre = true ->
    has_parameter (circuit_context (context (assign_kwargs e pre))) name = false ->
    for_each_do
      (fun '(param, value) =>
         bind (read (fun e => circuit_context (context e)))
           (fun qc =>
              if has_parameter qc param then
                update (set_context
                          (with_circuit_context (assign_parameters qc param value)))
              else raise (ValueError_ParameterNotFound param)))
      (pre ++ (name, v) :: post) e
    = (assign_kwargs e pre, Raise (ValueError_ParameterNotFound name)).
Proof.
  induction pre as [| [param value] rest IH]; intros e Hall Hmissing.
  - cbn in Hmissing |- *. unfold bind, read, raise. rewrite Hmissing. reflexivity.
  - cbn [all_present] in Hall. apply andb_true_iff in Hall as [Hhas Hrest].
    rewrite assign_kwargs_cons in Hmissing |- *.
    cbn [app for_each_do]. unfold bind at 1. unfold bind at 1, read at 1.
    rewrite Hhas. unfold update at 1.
    apply (IH (set_context
                 (with_circuit_context
                    (assign_parameters (circuit_context (context e)) param value))
                 e)); assumption.
Qed.

(** C8, as the code has it: when a keyword names no parameter of the
    circuit context, [set_circuit_context] without a new circuit raises
    the parameter-not-found error and rebuilds nothing; the keywords
    written before it have been assigned, in place, and nothing else of
    the environment has changed.  When the first keyword is the unknown
    one the environment is left as it was. *)
Theorem C8_unknown_parameter (e : Env) (pre post : list (string * Z))
  (name : string) (v : Z) (new_backend : option Backend) :
  all_present (circuit_context (context e)) pre = true ->
  has_parameter (assign_all (circuit_context (context e)) pre) name = false ->
  exists e',
    set_circuit_context None new_backend (pre ++ (name, v) :: post) e
    = (e', Raise (ValueError_ParameterNotFound name))
    /\ settings e' = settings e
    /\ hardware e' = hardware e
    /\ episode e' = episode e
    /\ base e' = base e
    /\ context e'
       = with_circuit_context (assign_all (circuit_context (context e)) pre)
           (context e)
    /\ (pre = [] -> e' = e).
Proof.
  intros Hall Hmissing. exists (assign_kwargs e pre).
  destruct (assign_kwargs_context e pre) as (Hs & Hh & Hep & Hb & Hc).
  split.
  - unfold set_circuit_context. unfold bind at 1. unfold bind at 1.
    rewrite kwargs_loop_raises; [reflexivity | exact Hall |].
    rewrite Hc. exact Hmissing.
  - repeat split; try assumption. intros ->. reflexivity.
Qed.


(** * Further properties of the stepper *)

Lemma log_reward_track_best_frame (score : list np_float) (e : Env) :
  let e' := log_reward score (track_best score e) in
  settings e' = settings e /\ hardware e' = hardware e
  /\ context e' = context e /\ base e' = base e.
Proof.
  unfold log_reward, track_best. destruct (gt _ _); repeat split.
Qed.

(** What a call of [step] on a live episode leaves, branch by branch:
    the frame every branch keeps and the step it counts. *)
Lemma intermediate_step_frame (params : list (list np_float)) (n : nat) (e : Env) :
  let e' := (intermediate_step params n e).1 in
  _step_tracker (episode e') = _step_tracker (episode e)
  /\ settings e' = settings e /\ hardware e' = hardware e
  /\ context e' = context e.
Proof.
  rewrite intermediate_step_eq. cbv zeta.
  destruct (intermediate_rewards (settings e)).
  - destruct (perform_action _ params) as [b [score | x]]; repeat split.
  - destruct (_get_obs _); repeat split.
Qed.

Lemma terminal_step_frame (params : list (list np_float)) (e : Env) :
  let e' := (terminal_step params e).1 in
  _step_tracker (episode e') = _step_tracker (episode e)
  /\ settings e' = settings e /\ hardware e' = hardware e
  /\ context e' = context e
  /\ _episode_ended (episode e') = true.
Proof.
  rewrite terminal_step_eq. cbv zeta.
  destruct (perform_action _ params) as [b [score | x]]; [| repeat split].
  set (e2 := set_base b (set_episode (with_episode_ended true) e)).
  destruct (if intermediate_rewards (settings e) then OK score else _get_obs e2)
    as [o | x]; [| repeat split].
  destruct (episode_log_reward_track_best score e2) as (He & Hs & _).
  destruct (log_reward_track_best_frame score e2) as (Hse & Hh & Hc & _).
  destruct (negb _); [| destruct (_ || _)]; cbn [fst];
    rewrite ?He, ?Hs, ?Hse, ?Hh, ?Hc; repeat split.
Qed.

(** X1: a call of [step] counts exactly one global step whenever the
    selection policy returns an index, whichever branch is taken and
    whether the call returns or raises, and it never changes the
    settings, the hardware description or the circuit context with its
    truncations; when the policy raises, the call raises the same error
    and leaves the environment as it was. *)
Theorem X1_step_counts_once (action : list (list np_float)) (e : Env) :
  (forall x, trunc_index e = Raise x -> step action e = (e, Raise x))
  /\ (forall t,
         trunc_index e = OK t ->
         let e' := (step action e).1 in
         _step_tracker (episode e') = (_step_tracker (episode e) + 1)%Z
         /\ settings e' = settings e
         /\ hardware e' = hardware e
         /\ context e' = context e).
Proof.
  split.
  - intros x Hx. rewrite step_eq, Hx. reflexivity.
  - intros t Ht. rewrite step_eq, Ht. cbv zeta.
    destruct (_episode_ended (episode e)).
    { rewrite reset_and_return_eq. repeat split. }
    destruct (_ <=? _)%Z.
    { rewrite reset_and_return_eq. repeat split. }
    destruct (negb _); [repeat split |].
    destruct (write_params _ _ _ _) as [buffer |]; [| repeat split].
    destruct (flatten_params _ _ _ _) as [params |]; [| repeat split].
    destruct (_ <? _)%Z.
    + destruct (intermediate_step_frame params (length action)
                  (set_episode (with_param_values buffer) (count_step e)))
        as (Hs & Hse & Hh & Hc).
      rewrite Hs, Hse, Hh, Hc. repeat split.
    + destruct (terminal_step_frame params
                  (set_episode (with_param_values buffer) (count_step e)))
        as (Hs & Hse & Hh & Hc & _).
      rewrite Hs, Hse, Hh, Hc. repeat split.
Qed.

(** X2: on a live episode, an action batch whose length is not the
    configured batch size makes [step] raise the batch-size error; the
    step has been counted, and nothing else has changed: the buffer, the
    sub-step counter and the episode-ended flag are as before. *)
Theorem X2_batch_size_mismatch (action : list (list np_float)) (e : Env) (t : Z) :
  _episode_ended (episode e) = false ->
  trunc_index e = OK t ->
  length action <> batch_size (settings e) ->
  step action e
  = (count_step e,
     Raise (ValueError_BatchSize (length action) (batch_size (settings e)))).
Proof.
  intros Hlive Ht Hlen.
  pose proof (trunc_index_lt e t Ht) as Hlt.
  rewrite step_eq, Ht. cbv zeta. rewrite Hlive.
  destruct (Z.leb_spec (Z.of_nat (tgt_instruction_counts e)) t); [lia |].
  destruct (Nat.eqb_spec (length action) (batch_size (settings e)));
    [contradiction | reflexivity].
Qed.

(** X3: without intermediate rewards, a sub-step before the last one
    stores the block, advances the sub-step counter and returns a zero
    reward of the length of the batch with [terminated = False] and
    [truncated = False]; the execution collaborator is not called: the
    base state is untouched. *)
Theorem X3_intermediate_step_without_rewards (action : list (list np_float))
  (e : Env) (t : Z) (buffer : list (list (list (list np_float))))
  (params : list (list np_float)) (o : list np_float) :
  _episode_ended (episode e) = false ->
  intermediate_rewards (settings e) = false ->
  trunc_index e = OK t ->
  length action = batch_size (settings e) ->
  write_params (_param_values (episode e)) t
    (_inside_trunc_tracker (episode e)) action = OK buffer ->
  flatten_params buffer t (batch_size (settings e)) (n_actions (settings e))
  = OK params ->
  (_inside_trunc_tracker (episode e) < t)%Z ->
  let e' :=
    set_episode
      (with_inside_trunc_tracker (_inside_trunc_tracker (episode e) + 1)%Z)
      (set_episode (with_param_values buffer) (count_step e)) in
  _get_obs e' = OK o ->
  step action e
  = (e', OK (mkStepReturn o (zeros (batch_size (settings e))) false false
               (_get_info e')))
  /\ base e' = base e
  /\ _episode_ended (episode e') = false.
Proof.
  intros Hlive Hmode Ht Hlen Hw Hf Hsub e' Hobs.
  pose proof (trunc_index_lt e t Ht) as Hlt.
  split; [| split; [reflexivity | exact Hlive]].
  rewrite step_eq, Ht. cbv zeta. rewrite Hlive.
  destruct (Z.leb_spec (Z.of_nat (tgt_instruction_counts e)) t); [lia |].
  rewrite Hlen, Nat.eqb_refl. cbn [negb]. rewrite Hw, Hf.
  destruct (Z.ltb_spec (_inside_trunc_tracker (episode e)) t); [| lia].
  rewrite intermediate_step_eq. cbv zeta.
  change (settings (set_episode (with_param_values buffer) (count_step e)))
    with (settings e).
  rewrite Hmode.
  match goal with
  | |- context [_get_obs ?x] => change x with e'
  end.
  rewrite Hobs. reflexivity.
Qed.

(** X4: with intermediate rewards, a sub-step before the last one hands
    the flattened buffer to the execution collaborator and returns its
    score vector as it is, both as observation and as reward: the score
    is neither checked for NaN or Inf nor clipped nor transformed, and
    the episode stays live. *)
Theorem X4_intermediate_step_with_rewards (action : list (list np_float))
  (e : Env) (t : Z) (buffer : list (list (list (list np_float))))
  (params : list (list np_float)) (b : BaseState) (score : list np_float) :
  _episode_ended (episode e) = false ->
  intermediate_rewards (settings e) = true ->
  trunc_index e = OK t ->
  length action = batch_size (settings e) ->
  write_params (_param_values (episode e)) t
    (_inside_trunc_tracker (episode e)) action = OK buffer ->
  flatten_params buffer t (batch_size (settings e)) (n_actions (settings e))
  = OK params ->
  (_inside_trunc_tracker (episode e) < t)%Z ->
  let e1 :=
    set_episode
      (with_inside_trunc_tracker (_inside_trunc_tracker (episode e) + 1)%Z)
      (set_episode (with_param_values buffer) (count_step e)) in
  perform_action e1 params = (b, OK score) ->
  step action e
  = (set_base b e1,
     OK (mkStepReturn score score false false (_get_info (set_base b e1))))
  /\ _episode_ended (episode (set_base b e1)) = false.
Proof.
  intros Hlive Hmode Ht Hlen Hw Hf Hsub e1 Hperf.
  pose proof (trunc_index_lt e t Ht) as Hlt.
  split; [| exact Hlive].
  rewrite step_eq, Ht. cbv zeta. rewrite Hlive.
  destruct (Z.leb_spec (Z.of_nat (tgt_instruction_counts e)) t); [lia |].
  rewrite Hlen, Nat.eqb_refl. cbn [negb]. rewrite Hw, Hf.
  destruct (Z.ltb_spec (_inside_trunc_tracker (episode e)) t); [| lia].
  rewrite intermediate_step_eq. cbv zeta.
  change (settings (set_episode (with_param_values buffer) (count_step e)))
    with (settings e).
  rewrite Hmode.
  match goal with
  | |- context [perform_action ?x params] => change x with e1
  end.
  rewrite Hperf. reflexivity.
Qed.

(** X5: on a live episode whose sub-step counter has run past the
    truncation index the policy now selects, the write into the action
    buffer is out of bounds: [step] raises [IndexError], having counted
    the step and changed nothing else. *)
Theorem X5_sub_step_beyond_truncation (action : list (list np_float))
  (e : Env) (t : Z) :
  _episode_ended (episode e) = false ->
  trunc_index e = OK t ->
  (0 <= t)%Z ->
  buffer_ok (tgt_instruction_counts e) (batch_size (settings e))
    (n_actions (settings e)) (_param_values (episode e)) ->
  (t < _inside_trunc_tracker (episode e))%Z ->
  length action = batch_size (settings e) ->
  step action e = (count_step e, Raise IndexError).
Proof.
  intros Hlive Ht Ht0 [Hk Hlev] Hsub Hlen.
  pose proof (trunc_index_lt e t Ht) as Hlt.
  destruct (lookup_lt_is_Some_2 (_param_values (episode e)) (Z.to_nat t))
    as [level Hlevel]; [lia |].
  destruct (Hlev _ _ Hlevel) as [Hlength _].
  assert (Hw : write_params (_param_values (episode e)) t
                 (_inside_trunc_tracker (episode e)) action = Raise IndexError).
  { unfold write_params.
    replace t with (Z.of_nat (Z.to_nat t)) at 1 by lia.
    rewrite (getitem_nat _ _ _ Hlevel). cbn.
    unfold index. rewrite Hlength.
    destruct (Z.leb_spec 0 (_inside_trunc_tracker (episode e))); [| lia].
    destruct (Z.ltb_spec (_inside_trunc_tracker (episode e))
                (Z.of_nat (Z.to_nat t + 1))); [lia | reflexivity]. }
  rewrite step_eq, Ht. cbv zeta. rewrite Hlive.
  destruct (Z.leb_spec (Z.of_nat (tgt_instruction_counts e)) t); [lia |].
  rewrite Hlen, Nat.eqb_refl. cbn [negb]. rewrite Hw. reflexivity.
Qed.

(** X6: once [step] has reached its final sub-step branch, the
    episode-ended flag is set in the state the call leaves, whatever
    happens next: the collaborator raising, the observation failing, a
    reward of the wrong size, a NaN, or a normal return. *)
Theorem X6_terminal_branch_ends_episode (action : list (list np_float))
  (e : Env) (t : Z) (buffer : list (list (list (list np_float))))
  (params : list (list np_float)) :
  _episode_ended (episode e) = false ->
  trunc_index e = OK t ->
  length action = batch_size (settings e) ->
  write_params (_param_values (episode e)) t
    (_inside_trunc_tracker (episode e)) action = OK buffer ->
  flatten_params buffer t (batch_size (settings e)) (n_actions (settings e))
  = OK params ->
  (t <= _inside_trunc_tracker (episode e))%Z ->
  _episode_ended (episode (step action e).1) = true.
Proof.
  intros Hlive Ht Hlen Hw Hf Hsub.
  pose proof (trunc_index_lt e t Ht) as Hlt.
  rewrite step_eq, Ht. cbv zeta. rewrite Hlive.
  destruct (Z.leb_spec (Z.of_nat (tgt_instruction_counts e)) t); [lia |].
  rewrite Hlen, Nat.eqb_refl. cbn [negb]. rewrite Hw, Hf.
  destruct (Z.ltb_spec (_inside_trunc_tracker (episode e)) t); [lia |].
  apply terminal_step_frame.
Qed.

Lemma no_nan_no_inf_finite (score : list np_float) :
  existsb isinf score || existsb isnan score = false ->
  Forall (fun x => exists v, x = Finite v) score.
Proof.
  intros H. apply orb_false_iff in H as [Hinf Hnan].
  apply Forall_forall. intros x Hin. apply list_elem_of_In in Hin.
  destruct x as [v | | |]; [eauto | | |].
  - assert (existsb isinf score = true)
      by (apply existsb_exists; exists PosInf; auto). congruence.
  - assert (existsb isinf score = true)
      by (apply existsb_exists; exists NegInf; auto). congruence.
  - assert (existsb isnan score = true)
      by (apply existsb_exists; exists NaN; auto). congruence.
Qed.

(** X7: whatever finite scores the collaborator returns, in or out of
    [0, 1], every entry of a reward vector that a terminal step returns
    is a finite number between 0 and [-ln(1e-6)], and the vector has
    [batch_size] entries. *)
Theorem X7_terminal_reward_in_range (action : list (list np_float))
  (e e' : Env) (r : StepReturn) :
  _episode_ended (episode e) = false ->
  step action e = (e', OK r) ->
  terminated r = true ->
  length (reward r) = batch_size (settings e)
  /\ Forall (fun x => exists v, x = Finite v /\ (0 <= v <= - ln 1e-6)%R)
       (reward r).
Proof.
  intros Hlive H Hterm. rewrite step_eq in H.
  destruct (trunc_index e) as [t |] eqn:Ht; [| discriminate H].
  pose proof (trunc_index_lt e t Ht) as Hlt. cbv zeta in H.
  rewrite Hlive in H.
  destruct (Z.leb_spec (Z.of_nat (tgt_instruction_counts e)) t) as [Hle | _];
    [lia |].
  destruct (negb _); [discriminate H |].
  destruct (write_params _ _ _ _) as [buffer |]; [| discriminate H].
  destruct (flatten_params _ _ _ _) as [params |]; [| discriminate H].
  destruct (_ <? _)%Z.
  - rewrite intermediate_step_eq in H. cbv zeta in H.
    split_run H; inversion H; subst r; discriminate Hterm.
  - rewrite terminal_step_eq in H. cbv zeta in H.
    destruct (perform_action _ params) as [b [score | x]]; [| discriminate H].
    destruct (if intermediate_rewards _ then _ else _) as [o | x];
      [| discriminate H].
    change (settings (set_episode (with_param_values buffer) (count_step e)))
      with (settings e) in H.
    destruct (Nat.eqb_spec (length score) (batch_size (settings e)))
      as [Hsize | _]; [cbn [negb] in H | discriminate H].
    destruct (existsb isinf score || existsb isnan score) eqn:Hbad;
      [discriminate H |].
    injection H as _ <-. cbn [reward].
    split; [rewrite length_map; exact Hsize |].
    apply no_nan_no_inf_finite in Hbad. clear - Hbad.
    induction Hbad as [| x score [v ->] _ IH]; [constructor |].
    cbn [map]. constructor; [| exact IH].
    exists (spec_reward v). split; [apply negative_log_error_Finite |].
    exact (spec_reward_bounds v).
Qed.


(** * Further properties of the selection policy and of the timings *)

Lemma trunc_index_at_curriculum (e : Env) (g : Z) :
  intermediate_rewards (settings e) = false ->
  training_steps_per_gate (settings e) <> 0%Z ->
  trunc_index_at e g
  = OK (Z.min (g / training_steps_per_gate (settings e))
              (Z.of_nat (tgt_instruction_counts e) - 1))%Z.
Proof.
  intros Hmode Hs. unfold trunc_index_at.
  rewrite trunc_index_curriculum by assumption. reflexivity.
Qed.

Lemma trunc_index_at_intermediate (e : Env) (g : Z) :
  intermediate_rewards (settings e) = true ->
  tgt_instruction_counts e <> 0 ->
  trunc_index_at e g = OK (g mod Z.of_nat (tgt_instruction_counts e))%Z.
Proof.
  intros Hmode Hk. unfold trunc_index_at.
  rewrite trunc_index_intermediate by assumption. reflexivity.
Qed.

(** X8: without intermediate rewards and with a positive step budget the
    selected truncation never goes back as the global step grows, is the
    first one during the first budget, and stays at the last occurrence
    once [(k - 1) * budget] steps have been counted. *)
Theorem X8_curriculum_is_monotone (e : Env) (g g' : Z) :
  intermediate_rewards (settings e) = false ->
  (0 < training_steps_per_gate (settings e))%Z ->
  1 <= tgt_instruction_counts e ->
  (g <= g')%Z ->
  let steps := training_steps_per_gate (settings e) in
  let k := Z.of_nat (tgt_instruction_counts e) in
  exists t t',
    trunc_index_at e g = OK t
    /\ trunc_index_at e g' = OK t'
    /\ (t <= t')%Z
    /\ ((0 <= g < steps)%Z -> t = 0%Z)
    /\ (((k - 1) * steps <= g)%Z -> t = (k - 1)%Z /\ t' = (k - 1)%Z).
Proof.
  intros Hmode Hs Hk Hg steps k.
  rewrite !trunc_index_at_curriculum by (assumption || lia).
  fold steps k. eexists _, _. split; [reflexivity |]. split; [reflexivity |].
  assert (Hdiv : (g / steps <= g' / steps)%Z) by (apply Z.div_le_mono; lia).
  split; [lia |]. split.
  - intros Hfirst. rewrite Z.div_small by lia. lia.
  - intros Hlast.
    assert (Hq : (k - 1 <= g / steps)%Z)
      by (apply Z.div_le_lower_bound; lia).
    lia.
Qed.

(** X9: with intermediate rewards the selected truncation goes round the
    occurrences: it is in range, it advances by one at each global step,
    wrapping from the last occurrence to the first, and it has period
    [k]. *)
Theorem X9_round_robin (e : Env) (g : Z) :
  intermediate_rewards (settings e) = true ->
  1 <= tgt_instruction_counts e ->
  let k := Z.of_nat (tgt_instruction_counts e) in
  exists t,
    trunc_index_at e g = OK t
    /\ (0 <= t < k)%Z
    /\ trunc_index_at e (g + 1) = OK (if (t + 1 =? k)%Z then 0 else t + 1)%Z
    /\ trunc_index_at e (g + k) = OK t.
Proof.
  intros Hmode Hk k.
  rewrite !trunc_index_at_intermediate by (assumption || lia). fold k.
  exists (g mod k)%Z.
  pose proof (Z.mod_pos_bound g k ltac:(lia)) as Hb.
  split; [reflexivity |]. split; [exact Hb |]. split.
  - f_equal. rewrite <- Zplus_mod_idemp_l.
    destruct (Z.eqb_spec (g mod k + 1) k) as [Heq | Hne].
    + rewrite Heq. apply Z_mod_same_full.
    + apply Z.mod_small. lia.
  - f_equal. replace (g + k)%Z with (g + 1 * k)%Z by lia.
    apply Z.mod_add. lia.
Qed.

(** X10: in a well-formed environment [episode_length] returns a length
    between 1 and the number of occurrences; it is computed from the
    step counter of the environment and does not depend on the global
    step it is handed. *)
Theorem X10_episode_length_bounds (e : Env) :
  consistent e ->
  exists n,
    (forall global_step, episode_length e global_step = OK n)
    /\ (1 <= n <= Z.of_nat (tgt_instruction_counts e))%Z.
Proof.
  intros Hc. destruct (trunc_index_total e Hc) as [t Ht].
  pose proof (trunc_index_nonneg e t Hc Ht) as H0.
  pose proof (trunc_index_lt e t Ht) as Hk.
  exists (1 + t)%Z. split; [| lia].
  intros g. unfold episode_length. rewrite Ht. reflexivity.
Qed.

(** The loop of [target_instruction_timings], started at position [off]
    with [acc] collected so far. *)
Lemma timings_loop (target : CircuitInstruction) (times : list Z)
  (l : list CircuitInstruction) :
  forall (off : nat) (acc : list Z),
    off + length l <= length times ->
    for_each (fun acc '(i, instruction) =>
                if decide (instruction = target)
                then t ← getitem times (Z.of_nat i); OK (acc ++ [t])
                else OK acc)
             acc (imap (fun i ins => (off + i, ins)) l)
    = OK (acc ++ (filter (fun p => p.2 = target) (zip (drop off times) l)).*1).
Proof.
  induction l as [| ins l IH]; intros off acc Hlen.
  - cbn. rewrite zip_with_nil_r, filter_nil. cbn. rewrite app_nil_r. reflexivity.
  - cbn [length] in Hlen.
    destruct (lookup_lt_is_Some_2 times off) as [t Ht]; [lia |].
    rewrite (drop_S times t off Ht).
    rewrite imap_cons. cbn [for_each zip zip_with].
    rewrite (imap_ext _ (fun i ins => (S off + i, ins)))
      by (intros; cbn; f_equal; lia).
    rewrite Nat.add_0_r. rewrite filter_cons. cbn [snd].
    destruct (decide (ins = target)) as [-> | Hne].
    + rewrite (getitem_nat _ _ _ Ht). cbn.
      etransitivity; [apply (IH (S off)); lia |].
      rewrite <- app_assoc. reflexivity.
    + cbn. apply (IH (S off)). lia.
Qed.

(** X11: on a circuit that has a start time for each of its
    instructions, [target_instruction_timings] returns the start times
    as they are and, in program order, the start time of every
    occurrence of the target instruction: as many timings as
    [data.count(target)]. *)
Theorem X11_target_instruction_timings (qc : QuantumCircuit)
  (target : CircuitInstruction) :
  let times :=
    match op_start_times qc with
    | Some t => t
    | None => get_instruction_timings qc
    end in
  length (data qc) <= length times ->
  exists timings,
    target_instruction_timings qc target = OK (times, timings)
    /\ timings = (filter (fun p => p.2 = target) (zip times (data qc))).*1
    /\ length timings = count (data qc) target.
Proof.
  intros times Hlen. eexists. split; [| split; [reflexivity |]].
  - unfold target_instruction_timings. fold times.
    pose proof (timings_loop target times (data qc) 0 [] ltac:(cbn; lia))
      as Hloop.
    cbn [Nat.add app drop] in Hloop. rewrite Hloop. reflexivity.
  - rewrite length_fmap. unfold count. clear - Hlen.
    revert Hlen. generalize (data qc) as l. generalize times as ts.
    induction ts as [| t ts IH]; intros [| ins l] Hlen; cbn in Hlen;
      try reflexivity; [lia |].
    cbn [zip zip_with]. rewrite !filter_cons. cbn [snd].
    destruct (decide (ins = target)); cbn [length]; rewrite IH by lia;
      reflexivity.
Qed.


(** * Further properties of the truncation builder *)

Lemma mapM_result_length {A B} (f : A -> result B) (l : list A) (r : list B) :
  mapM f l = OK r -> length r = length l.
Proof.
  revert r. induction l as [| x l IH]; intros r H.
  - injection H as <-. reflexivity.
  - cbn in H. destruct (f x) as [y |]; [cbn in H | discriminate H].
    destruct (mapM f l) as [ys |]; [cbn in H | discriminate H].
    injection H as <-. cbn. rewrite (IH ys eq_refl). reflexivity.
Qed.

Lemma bind_OK {A B} (m : result A) (f : A -> result B) (b : B) :
  m ≫= f = OK b -> exists a, m = OK a /\ f a = OK b.
Proof. destruct m as [a |]; [eauto | discriminate]. Qed.

Lemma build_truncations_length (s : Settings) (h : Hardware) (ctx : Context)
  (k : nat) (ts : list Truncation) :
  build_truncations s h ctx k = OK ts -> length ts = k.
Proof.
  unfold build_truncations. intros H.
  apply bind_OK in H as (layouts & Hl & H).
  apply mapM_result_length in Hl. rewrite length_seq in Hl.
  apply bind_OK in H as (nnq & _ & H).
  apply bind_OK in H as (ancq & _ & H).
  apply bind_OK in H as (m & _ & H).
  apply mapM_result_length in H. rewrite length_imap in H. lia.
Qed.

Lemma define_target_and_circuits_eq (e : Env) :
  define_target_and_circuits e
  = match parameters_of (circuit_context (context e)) with
    | _ :: _ => (e, Raise ValueError_UnassignedParameters)
    | [] =>
        let e1 := settle_neighbor_qubits e in
        match build_truncations (settings e1) (hardware e1) (context e1)
                (tgt_instruction_counts e1) with
        | Raise x => (e1, Raise x)
        | OK ts =>
            (e1,
             OK (map (fun T =>
                        mkGateTarget (target_gate (settings e1))
                          (physical_target_qubits (hardware e1)) (baseline T)
                          (QuantumRegister
                             (length (physical_target_qubits (hardware e1))) tgt)
                          (layout T)) ts,
                 map custom ts, map baseline ts))
        end
    end.
Proof.
  unfold define_target_and_circuits, settle_neighbor_qubits, bind, read,
    attempt, update, raise, ret.
  destruct (parameters_of _); [| reflexivity].
  destruct (_ && _); cbv zeta; destruct (build_truncations _ _ _ _); reflexivity.
Qed.

Lemma settle_neighbor_qubits_frame (e : Env) :
  settings (settle_neighbor_qubits e) = settings e
  /\ context (settle_neighbor_qubits e) = context e
  /\ episode (settle_neighbor_qubits e) = episode e
  /\ base (settle_neighbor_qubits e) = base e.
Proof. unfold settle_neighbor_qubits. destruct (_ && _); repeat split. Qed.

(** X12: when [define_target_and_circuits] returns, it returns one
    target descriptor, one custom circuit and one baseline circuit per
    occurrence of the target instruction; the descriptor of an occurrence
    carries the baseline circuit of that occurrence; the call has changed
    neither the settings, nor the circuit context, nor the episode. *)
Theorem X12_one_truncation_per_occurrence (e e' : Env)
  (targets : list GateTarget) (customs baselines : list QuantumCircuit) :
  define_target_and_circuits e = (e', OK (targets, customs, baselines)) ->
  length targets = tgt_instruction_counts e
  /\ length customs = tgt_instruction_counts e
  /\ length baselines = tgt_instruction_counts e
  /\ map gt_circuit targets = baselines
  /\ settings e' = settings e
  /\ context e' = context e
  /\ episode e' = episode e.
Proof.
  rewrite define_target_and_circuits_eq.
  destruct (parameters_of _); [| discriminate]. cbv zeta.
  destruct (settle_neighbor_qubits_frame e) as (Hs & Hc & Hep & _).
  destruct (build_truncations _ _ _ _) as [ts |] eqn:Hts; [| discriminate].
  intros [= <- <- <- <-].
  apply build_truncations_length in Hts.
  assert (Hk : tgt_instruction_counts (settle_neighbor_qubits e)
               = tgt_instruction_counts e)
    by (unfold tgt_instruction_counts; rewrite Hc; reflexivity).
  rewrite !length_map, Hts, Hk.
  repeat split; try assumption.
  rewrite map_map. reflexivity.
Qed.

Section LoopInvariants.

Variable ctx : Context.
Variables neighbor_qubits next_neighbor_qubits : list nat.
Variable circ_nn_qubits : list Bit.
Variables tgt_register nn_register anc_register : list Bit.
Variable mapping : gmap Bit Bit.

#[local] Abbreviation add_register_bit' :=
  (add_register_bit neighbor_qubits next_neighbor_qubits circ_nn_qubits
     nn_register anc_register mapping).
#[local] Abbreviation visit' :=
  (visit ctx neighbor_qubits next_neighbor_qubits circ_nn_qubits
     tgt_register nn_register anc_register mapping).
#[local] Abbreviation truncate' :=
  (truncate ctx neighbor_qubits next_neighbor_qubits circ_nn_qubits
     tgt_register nn_register anc_register mapping).
#[local] Abbreviation admitted' := (admitted ctx circ_nn_qubits).
#[local] Abbreviation involves' := (involves_target_qubits ctx circ_nn_qubits).
#[local] Abbreviation target' := (target_instruction ctx).

(** The baseline circuit stays well formed and keeps the target register
    in front. *)
Definition baseline_invariant (T : Truncation) : Prop :=
  circuit_well_formed (baseline T)
  /\ tgt_register `prefix_of` qc_qubits (baseline T).

Lemma well_formed_add_bits (qc qc' : QuantumCircuit) (b : Bit) :
  add_bits qc b = OK qc' ->
  circuit_well_formed qc -> circuit_well_formed qc'.
Proof.
  unfold add_bits. destruct (decide _) as [| Hnew]; [discriminate |].
  intros [= <-] [Hnd Hall]. split; cbn.
  - apply NoDup_app. split; [exact Hnd |]. split.
    + intros x Hx ->%list_elem_of_singleton. contradiction.
    + apply NoDup_singleton.
  - eapply Forall_impl; [exact Hall |].
    intros ins [Hq Hin]. split; [exact Hq |].
    eapply Forall_impl; [exact Hin |]. intros x Hx.
    apply elem_of_app. left. exact Hx.
Qed.

Lemma well_formed_append (qc qc' : QuantumCircuit) (op : Operation)
  (qargs : list Bit) :
  append qc op qargs = OK qc' ->
  circuit_well_formed qc -> circuit_well_formed qc'.
Proof.
  unfold append. destruct (_ && _) eqn:Hcheck; [| discriminate].
  apply andb_true_iff in Hcheck as [Hin Hnd].
  intros [= <-] [Hq Hall]. split; cbn; [exact Hq |].
  apply Forall_app. split; [exact Hall |].
  constructor; [| constructor]. cbn. split.
  - apply bool_decide_eq_true in Hnd. exact Hnd.
  - apply Forall_forall. intros x Hx.
    rewrite forallb_forall in Hin. apply list_elem_of_In in Hx.
    specialize (Hin x Hx). apply bool_decide_eq_true in Hin. exact Hin.
Qed.

Lemma add_register_bit_invariant (T T' : Truncation) (qubit : Bit) :
  add_register_bit' T qubit = OK T' ->
  baseline_invariant T -> baseline_invariant T'.
Proof.
  unfold add_register_bit.
  destruct (mapped mapping qubit) as [m |]; [cbn | discriminate].
  destruct (bool_decide _); [intros [= <-]; auto |].
  destruct (add_bits (baseline T) m) as [b |] eqn:Hb; [cbn | discriminate].
  destruct (add_bits (custom T) m) as [c |]; [cbn | discriminate].
  destruct (register_index _ m) as [idx |]; [cbn | discriminate].
  destruct (getitem _ _) as [p |]; [cbn | discriminate].
  intros [= <-] [Hwf Hpre]. split; cbn.
  - eapply well_formed_add_bits; eassumption.
  - apply add_bits_spec in Hb as [-> _]. apply prefix_app_r. exact Hpre.
Qed.

Lemma add_register_bits_invariant (qs : list Bit) :
  forall T T' : Truncation,
    for_each add_register_bit' T qs = OK T' ->
    baseline_invariant T -> baseline_invariant T'.
Proof.
  induction qs as [| q qs IH]; intros T T' H Hinv.
  - injection H as <-. exact Hinv.
  - cbn in H.
    destruct (add_register_bit' T q) as [T1 |] eqn:H1; [cbn in H | discriminate].
    eapply IH; [exact H |]. eapply add_register_bit_invariant; eassumption.
Qed.

(** One turn of the loop keeps the invariant and the counter within the
    number of parameter vectors. *)
Lemma visit_invariant (i : nat) (T T' : Truncation)
  (timed : Z * CircuitInstruction) :
  visit' i T timed = OK T' ->
  baseline_invariant T -> counts T <= _parameters ctx ->
  baseline_invariant T' /\ counts T' <= _parameters ctx.
Proof.
  destruct timed as [start_time instruction]. unfold visit.
  intros H Hinv Hc.
  apply bind_OK in H as (a & _ & H).
  destruct a; [| injection H as <-; auto].
  apply bind_OK in H as (T1 & H1 & H).
  pose proof (add_register_bits_invariant _ _ _ H1 Hinv) as [Hwf1 Hpre1].
  apply add_register_bits_spec in H1 as (Hc1 & _).
  apply bind_OK in H as (qargs & _ & H).
  apply bind_OK in H as (b & Hb & H).
  assert (Hinvb : circuit_well_formed b /\ tgt_register `prefix_of` qc_qubits b).
  { split; [eapply well_formed_append; eassumption |].
    apply append_spec in Hb as [-> _]. exact Hpre1. }
  destruct (decide (instruction <> target')).
  - apply bind_OK in H as (c & _ & H).
    injection H as <-. split; [exact Hinvb | cbn; lia].
  - destruct (Nat.ltb_spec (counts T1) (_parameters ctx)); [| discriminate H].
    apply bind_OK in H as (c & _ & H).
    injection H as <-. split; [exact Hinvb | cbn; lia].
Qed.

Lemma walk_invariant (i : nat) (prog : list (Z * CircuitInstruction)) :
  forall T T' : Truncation,
    for_each (visit' i) T prog = OK T' ->
    baseline_invariant T -> counts T <= _parameters ctx ->
    baseline_invariant T' /\ counts T' <= _parameters ctx.
Proof.
  induction prog as [| timed rest IH]; intros T T' H Hinv Hc.
  - injection H as <-. auto.
  - cbn [for_each] in H.
    destruct (visit' i T timed) as [T1 |] eqn:Hv; [cbn in H | discriminate].
    destruct (visit_invariant _ _ _ _ Hv Hinv Hc) as [Hinv1 Hc1].
    exact (IH _ _ H Hinv1 Hc1).
Qed.

(** The counter never passes the number of parameter vectors. *)
Lemma walk_counts_bound (i : nat) (prog : list (Z * CircuitInstruction)) :
  forall T T' : Truncation,
    for_each (visit' i) T prog = OK T' ->
    counts T <= _parameters ctx -> counts T' <= _parameters ctx.
Proof.
  induction prog as [| [start_time instruction] rest IH]; intros T T' H Hc.
  - injection H as <-. exact Hc.
  - cbn [for_each] in H. apply bind_OK in H as (T1 & Hv & H).
    apply (IH _ _ H). unfold visit in Hv.
    apply bind_OK in Hv as (a & _ & Hv).
    destruct a; [| injection Hv as <-; exact Hc].
    apply bind_OK in Hv as (T0 & H0 & Hv).
    apply add_register_bits_spec in H0 as (Hc0 & _).
    apply bind_OK in Hv as (qargs & _ & Hv).
    apply bind_OK in Hv as (b & _ & Hv).
    destruct (decide (instruction <> target')).
    + apply bind_OK in Hv as (c & _ & Hv). injection Hv as <-. cbn. lia.
    + destruct (Nat.ltb_spec (counts T0) (_parameters ctx)); [| discriminate Hv].
      apply bind_OK in Hv as (c & _ & Hv). injection Hv as <-. cbn. lia.
Qed.

(** While the counter has not passed [i], it counts the target
    instructions met so far. *)
Lemma walk_counts (i : nat) (prog : list (Z * CircuitInstruction)) :
  involves' target' = true ->
  forall (pre : list (Z * CircuitInstruction)) (T T' : Truncation),
    for_each (visit' i) T prog = OK T' ->
    (counts T <= i -> count (pre.*2) target' = counts T) ->
    counts T' <= i -> count ((pre ++ prog).*2) target' = counts T'.
Proof.
  intros Htarget.
  induction prog as [| [t0 ins0] rest IH]; intros pre T T' H Hinv Hle.
  - injection H as <-. rewrite app_nil_r. auto.
  - cbn [for_each] in H.
    destruct (visit' i T (t0, ins0)) as [T1 |] eqn:Hv; [cbn in H | discriminate].
    replace (pre ++ (t0, ins0) :: rest) with ((pre ++ [(t0, ins0)]) ++ rest)
      by (rewrite <- app_assoc; reflexivity).
    apply (IH _ _ _ H); [| exact Hle].
    intros Hc1. rewrite fmap_app, count_app.
    change ([(t0, ins0)].*2) with [ins0]. rewrite count_singleton.
    destruct (visit_spec _ _ _ _ _ _ _ _ _ _ _ _ _ Hv) as (a & Ha & Hskip & Hadd).
    destruct a.
    + destruct (Hadd eq_refl)
        as (T0 & ins' & _ & _ & _ & _ & _ & _ & _ & Hne & Heq).
      destruct (decide (ins0 = target')) as [He | Hn].
      * destruct (Heq He) as [Hc _]. rewrite Hinv by lia. lia.
      * destruct (Hne Hn) as [Hc _]. rewrite Hinv by lia. lia.
    + rewrite (Hskip eq_refl) in *. rewrite (Hinv Hc1).
      destruct (decide (ins0 = target')) as [-> | _]; [| lia].
      unfold admitted, before_target in Ha.
      destruct (Nat.leb_spec (counts T) i); [| lia].
      change (OK (true && involves' target') = OK false) in Ha.
      rewrite Htarget in Ha. discriminate Ha.
Qed.

(** X13: the baseline circuit of a truncation is well formed: it holds
    no bit twice, starts with the target register, and each of its
    instructions acts on bits of the circuit, no bit twice. *)
Theorem X13_baseline_is_well_formed (i : nat) (initial_layout : Layout)
  (T : Truncation) :
  NoDup tgt_register ->
  truncate' i initial_layout = OK T ->
  circuit_well_formed (baseline T)
  /\ tgt_register `prefix_of` qc_qubits (baseline T).
Proof.
  intros Hnd Hrun. unfold truncate in Hrun.
  apply (walk_invariant i _ _ _ Hrun); [| cbn; lia].
  split; cbn; [split; [exact Hnd | constructor] | reflexivity].
Qed.

(** X14: when the program the loop walks holds more than [i]
    occurrences of the target instruction, the counter of sites where the
    callback was called ends above [i] in truncation [i]: the vectors
    [a_0], .., [a_i] have all been handed to the callback; and it never
    ends above the number of parameter vectors. *)
Theorem X14_sites_of_a_truncation (i : nat) (initial_layout : Layout)
  (T : Truncation) :
  involves' target' = true ->
  i < count ((timed_program ctx).*2) target' ->
  truncate' i initial_layout = OK T ->
  i < counts T <= _parameters ctx.
Proof.
  intros Htarget Hmany Hrun. unfold truncate in Hrun.
  split.
  - destruct (le_lt_dec (counts T) i) as [Hle | Hlt]; [| exact Hlt].
    pose proof (walk_counts i _ Htarget [] _ _ Hrun ltac:(reflexivity) Hle)
      as Hcount.
    cbn [app] in Hcount. lia.
  - exact (walk_counts_bound i _ _ _ Hrun ltac:(cbn; lia)).
Qed.

End LoopInvariants.


(** * Further properties of the context update, of reset and of the buffer *)

Lemma kwargs_loop_succeeds (kwargs : list (string * Z)) :
  forall e : Env,
    all_present (circuit_context (context e)) kwargs = true ->
    for_each_do
      (fun '(param, value) =>
         bind (read (fun e => circuit_context (context e)))
           (fun qc =>
              if has_parameter qc param then
                update (set_context
                          (with_circuit_context (assign_parameters qc param value)))
              else raise (ValueError_ParameterNotFound param)))
      kwargs e
    = (assign_kwargs e kwargs, OK tt).
Proof.
  induction kwargs as [| [param value] rest IH]; intros e Hall.
  - reflexivity.
  - cbn [all_present] in Hall. apply andb_true_iff in Hall as [Hhas Hrest].
    rewrite assign_kwargs_cons.
    cbn [for_each_do]. unfold bind at 1. unfold bind at 1, read at 1.
    rewrite Hhas. unfold update at 1.
    apply (IH (set_context
                 (with_circuit_context
                    (assign_parameters (circuit_context (context e)) param value))
                 e)).
    exact Hrest.
Qed.

(** X15: when every keyword names a parameter of the circuit context at
    its turn but the context still has a free parameter after the
    assignments, [set_circuit_context] without a new circuit raises the
    unassigned-parameters error from the truncation builder: the keywords
    have been assigned in place, the truncations are those of before and
    the backend argument has not been looked at. *)
Theorem X15_parameters_left_unassigned (e : Env) (kwargs : list (string * Z))
  (new_backend : option Backend) :
  all_present (circuit_context (context e)) kwargs = true ->
  parameters_of (assign_all (circuit_context (context e)) kwargs) <> [] ->
  set_circuit_context None new_backend kwargs e
  = (assign_kwargs e kwargs, Raise ValueError_UnassignedParameters)
  /\ hardware (assign_kwargs e kwargs) = hardware e
  /\ _target (context (assign_kwargs e kwargs)) = _target (context e)
  /\ circuits (context (assign_kwargs e kwargs)) = circuits (context e)
  /\ baseline_circuits (context (assign_kwargs e kwargs))
     = baseline_circuits (context e).
Proof.
  intros Hall Hleft.
  destruct (assign_kwargs_context e kwargs) as (_ & Hh & _ & _ & Hc).
  split; [| rewrite Hh, Hc; repeat split].
  unfold set_circuit_context. unfold bind at 1. unfold bind at 1.
  rewrite kwargs_loop_succeeds by exact Hall. cbv beta iota.
  unfold bind at 1.
  rewrite define_target_and_circuits_eq. rewrite Hc.
  change (circuit_context (with_circuit_context ?qc _)) with qc.
  destruct (parameters_of _); [contradiction | reflexivity].
Qed.

(** X16: when a new circuit is handed over and the instruction made of
    the gate of the current target on the target qubits of that circuit
    does not occur in it, [set_circuit_context] raises the
    target-not-found error after it has replaced the circuit, the target
    register and the target instruction: the timings, the target
    descriptors, the truncated circuits and the action buffer it leaves
    are still those of the old circuit. *)
Theorem X16_new_context_without_target (e : Env) (qc : QuantumCircuit)
  (reg : list Bit) (current : GateTarget) (new_backend : option Backend)
  (kwargs : list (string * Z)) :
  context_qubits qc (physical_target_qubits (hardware e)) = OK reg ->
  NoDup reg ->
  target (set_context (with_circuit_context qc) e) = OK current ->
  count (data qc) (mkInstruction (gate current) reg) = 0 ->
  let e' :=
    set_context (with_target_register reg (mkInstruction (gate current) reg))
      (set_context (with_circuit_context qc) e) in
  set_circuit_context (Some qc) new_backend kwargs e
  = (e', Raise ValueError_TargetNotFound)
  /\ circuit_context (context e') = qc
  /\ _target_instruction_timings (context e')
     = _target_instruction_timings (context e)
  /\ _target (context e') = _target (context e)
  /\ circuits (context e') = circuits (context e)
  /\ baseline_circuits (context e') = baseline_circuits (context e)
  /\ episode e' = episode e.
Proof.
  intros Hreg Hnd Htarget Hcount e'.
  split; [| repeat split].
  unfold set_circuit_context. unfold bind at 1. unfold bind at 1.
  unfold update at 1. unfold bind at 1. unfold attempt at 1.
  change (hardware (set_context (with_circuit_context qc) e)) with (hardware e).
  rewrite Hreg.
  rewrite (bool_decide_eq_true_2 _ Hnd). cbn [negb].
  unfold bind at 1. unfold update at 1.
  unfold bind at 1. unfold attempt at 1.
  change (target (set_context (with_circ_tgt_register reg)
                    (set_context (with_circuit_context qc) e)))
    with (target (set_context (with_circuit_context qc) e)).
  rewrite Htarget.
  unfold bind at 1. unfold update at 1.
  change (set_context
            (with_target_instruction (mkInstruction (gate current) reg))
            (set_context (with_circ_tgt_register reg)
               (set_context (with_circuit_context qc) e)))
    with e'.
  unfold bind at 1. unfold read at 1.
  assert (Hk : tgt_instruction_counts e' = 0) by exact Hcount.
  rewrite Hk. reflexivity.
Qed.

(** X17: with intermediate rewards, when a new circuit is handed over in
    which the target instruction of the environment does not occur, the
    lookup of the current target divides by a count of zero:
    [set_circuit_context] raises [ZeroDivisionError], not the
    target-not-found error.  By then it has replaced the circuit and the
    target register; the target instruction, the timings and the
    truncations are those of before. *)
Theorem X17_new_context_round_robin (e : Env) (qc : QuantumCircuit)
  (reg : list Bit) (new_backend : option Backend) (kwargs : list (string * Z)) :
  intermediate_rewards (settings e) = true ->
  context_qubits qc (physical_target_qubits (hardware e)) = OK reg ->
  NoDup reg ->
  count (data qc) (target_instruction (context e)) = 0 ->
  let e' :=
    set_context (with_circ_tgt_register reg)
      (set_context (with_circuit_context qc) e) in
  set_circuit_context (Some qc) new_backend kwargs e
  = (e', Raise ZeroDivisionError)
  /\ circuit_context (context e') = qc
  /\ circ_tgt_register (context e') = reg
  /\ target_instruction (context e') = target_instruction (context e)
  /\ _target_instruction_timings (context e')
     = _target_instruction_timings (context e)
  /\ _target (context e') = _target (context e)
  /\ episode e' = episode e.
Proof.
  intros Hmode Hreg Hnd Hcount e'.
  split; [| repeat split].
  assert (Htarget : target e' = Raise ZeroDivisionError).
  { unfold target, trunc_index.
    change (settings e') with (settings e).
    rewrite Hmode.
    assert (Hk : tgt_instruction_counts e' = 0) by exact Hcount.
    rewrite Hk. reflexivity. }
  unfold set_circuit_context. unfold bind at 1. unfold bind at 1.
  unfold update at 1. unfold bind at 1. unfold attempt at 1.
  change (hardware (set_context (with_circuit_context qc) e)) with (hardware e).
  rewrite Hreg.
  rewrite (bool_decide_eq_true_2 _ Hnd). cbn [negb].
  unfold bind at 1. unfold update at 1. fold e'.
  unfold bind at 1. unfold attempt at 1. rewrite Htarget. reflexivity.
Qed.

(** X18: in a well-formed environment whose reward method is not the
    state one, [reset] returns the observation made of 0 and of the start
    time of the first occurrence of the target, whatever the global step;
    it leaves the step counter, the settings and the circuit context with
    its truncations as they were. *)
Theorem X18_reset_observation (e : Env) :
  consistent e ->
  reward_method_is_state (settings e) = false ->
  exists t0,
    _target_instruction_timings (context e) !! 0 = Some t0
    /\ reset e
       = (reset_env e,
          OK ([Finite 0; Finite (IZR t0)], _get_info (reset_env e)))
    /\ _step_tracker (episode (reset_env e)) = _step_tracker (episode e)
    /\ settings (reset_env e) = settings e
    /\ context (reset_env e) = context e.
Proof.
  intros Hc Hmode.
  pose proof (consistent_reset_env e Hc) as Hc'.
  destruct (trunc_index_total _ Hc') as [t Ht].
  pose proof (trunc_index_nonneg _ _ Hc' Ht) as Ht0.
  pose proof (trunc_index_lt _ _ Ht) as Htk.
  destruct Hc as (Hk & Hlt & Hll & _ & _).
  destruct (lookup_lt_is_Some_2 (_target_instruction_timings (context e)) 0)
    as [t0 Hfirst]; [lia |].
  destruct (getitem_in_range (_target (context e)) t) as [g Hg];
    [change (tgt_instruction_counts (reset_env e))
       with (tgt_instruction_counts e) in Htk; lia |].
  exists t0. split; [exact Hfirst |]. split; [| repeat split].
  rewrite reset_eq. unfold _get_obs, target. rewrite Ht.
  change (context (reset_env e)) with (context e).
  change (settings (reset_env e)) with (settings e).
  change (_inside_trunc_tracker (episode (reset_env e))) with (Z.of_nat 0).
  cbn [mbind result_bind]. rewrite Hg. cbn [mbind result_bind]. rewrite Hmode.
  rewrite (getitem_nat _ _ _ Hfirst). reflexivity.
Qed.

Lemma triangle_blocks (k batch n : nat) :
  2 * length (concat (create_array k batch n)) = k * (k + 1).
Proof.
  unfold create_array.
  assert (Hoff : forall off,
             2 * length (concat (map (fun i => zeros3 (i + 1) batch n)
                                     (seq off k)))
             = k * (2 * off + k + 1)).
  { induction k as [| k IH]; intros off; [reflexivity |].
    cbn [seq map concat]. rewrite length_app.
    unfold zeros3 at 1. rewrite length_replicate.
    specialize (IH (S off)). lia. }
  rewrite Hoff. lia.
Qed.

(** X19: [create_array] allocates one level per truncation, level [i]
    being [i + 1] blocks of [batchsize] rows of [n_actions] zeros:
    [k (k + 1) / 2] blocks in all. *)
Theorem X19_create_array_shape (k batch n : nat) :
  length (create_array k batch n) = k
  /\ 2 * length (concat (create_array k batch n)) = k * (k + 1)
  /\ forall i level,
      create_array k batch n !! i = Some level ->
      length level = i + 1
      /\ Forall (fun block =>
                   length block = batch
                   /\ Forall (fun row => row = replicate n (Finite 0)) block)
                level.
Proof.
  split; [apply create_array_ok |]. split; [apply triangle_blocks |].
  intros i level Hi.
  assert (Hlt : i < k).
  { apply lookup_lt_Some in Hi. unfold create_array in Hi.
    rewrite length_map, length_seq in Hi. exact Hi. }
  rewrite create_array_lookup in Hi by assumption. injection Hi as <-.
  split; [apply length_replicate |].
  apply Forall_replicate. split; [apply length_replicate |].
  apply Forall_replicate. reflexivity.
Qed.

Lemma write_rows_other_levels (k batch n i : nat)
  (blocks : list (list (list np_float))) :
  forall (s : nat) (buffer buffer' : list (list (list (list np_float))))
         (level : list (list (list np_float))),
    buffer_ok k batch n buffer ->
    buffer !! i = Some level ->
    s + length blocks <= i + 1 ->
    Forall (block_ok batch n) blocks ->
    write_rows buffer i s blocks = OK buffer' ->
    forall j, j <> i -> buffer' !! j = buffer !! j.
Proof.
  induction blocks as [| block rest IH];
    intros s buffer buffer' level Hok Hi Hs Hall Hrun j Hj.
  - injection Hrun as <-. reflexivity.
  - apply Forall_cons in Hall as [Hblock Hrest]. cbn [length] in Hs.
    pose proof (lookup_lt_Some _ _ _ Hi) as Hik.
    destruct (write_params_ok k batch n i s buffer level block Hok Hi
                ltac:(lia) Hblock) as [Hw Hok'].
    cbn [write_rows] in Hrun. rewrite Hw in Hrun. cbn in Hrun.
    rewrite (IH (S s) _ buffer' (<[s := block]> level) Hok'
               ltac:(apply list_lookup_insert_eq; assumption)
               ltac:(lia) Hrest Hrun j Hj).
    apply list_lookup_insert_ne. auto.
Qed.

(** X20: after the first blocks only of a level have been written into a
    freshly allocated buffer, flattening the level gives the written
    blocks followed by zeros for the rows still to come, in row-major
    order, and the other levels of the buffer are still as allocated. *)
Theorem X20_partial_level_is_zero_padded (k batch n i : nat)
  (blocks : list (list (list np_float))) :
  i < k ->
  length blocks <= i + 1 ->
  Forall (block_ok batch n) blocks ->
  exists buffer arr,
    write_rows (create_array k batch n) i 0 blocks = OK buffer
    /\ buffer !! i
       = Some (blocks ++ zeros3 (i + 1 - length blocks) batch n)
    /\ (forall j, j <> i -> buffer !! j = create_array k batch n !! j)
    /\ flatten_params buffer (Z.of_nat i) batch n = OK arr
    /\ ravel arr
       = concat (map ravel blocks)
         ++ replicate ((i + 1 - length blocks) * (batch * n)) (Finite 0).
Proof.
  intros Hik Hlen Hall.
  destruct (write_rows_ok k batch n i blocks 0 (create_array k batch n)
              (zeros3 (i + 1) batch n) (create_array_ok k batch n)
              (create_array_lookup k batch n i Hik) ltac:(lia) Hall)
    as (buffer & Hrun & Hok & Hlook).
  assert (Hlevel : buffer !! i
                   = Some (blocks ++ zeros3 (i + 1 - length blocks) batch n)).
  { rewrite Hlook, take_0. cbn [app Nat.add]. unfold zeros3.
    rewrite drop_replicate. reflexivity. }
  exists buffer, (chunks batch ((i + 1) * n)
                    (ravel (vstack (blocks ++ zeros3 (i + 1 - length blocks)
                                               batch n)))).
  split; [exact Hrun |]. split; [exact Hlevel |].
  split.
  { intros j Hj.
    exact (write_rows_other_levels k batch n i blocks 0 _ _ _
             (create_array_ok k batch n) (create_array_lookup k batch n i Hik)
             ltac:(lia) Hall Hrun j Hj). }
  split; [apply (flatten_params_ok k); assumption |].
  destruct Hok as [_ Hlev]. destruct (Hlev _ _ Hlevel) as [Hlength Hblocks].
  unfold ravel at 1.
  rewrite concat_chunks
    by (rewrite (length_ravel_level batch n _ Hblocks), Hlength; lia).
  unfold ravel, vstack. rewrite !concat_app. f_equal.
  - clear. induction blocks as [| b bs IH]; [reflexivity |].
    cbn. rewrite concat_app, IH. reflexivity.
  - generalize (i + 1 - length blocks) as m. clear.
    induction m as [| m IH]; [reflexivity |].
    cbn [zeros3 replicate concat]. rewrite concat_app.
    change (replicate m (zeros2 batch n)) with (zeros3 m batch n).
    rewrite IH. cbn [Nat.mul]. rewrite replicate_add. f_equal.
    unfold zeros2, zeros. clear.
    induction batch as [| b IH]; [reflexivity |].
    cbn [replicate concat Nat.mul]. rewrite IH, replicate_add. reflexivity.
Qed.


(** * What a context update that returns has established *)

Lemma bind_returns {A B : Type} (m : M A) (k : A -> M B) (e e' : Env) (b : B) :
  bind m k e = (e', OK b) ->
  exists e1 a, m e = (e1, OK a) /\ k a e1 = (e', OK b).
Proof.
  unfold bind. destruct (m e) as [e1 [a | x]]; [| discriminate].
  intros H. exists e1, a. split; [reflexivity | exact H].
Qed.

Lemma define_target_and_circuits_returns (e e' : Env)
  (r : list GateTarget * list QuantumCircuit * list QuantumCircuit) :
  define_target_and_circuits e = (e', OK r) ->
  parameters_of (circuit_context (context e)) = [] /\ context e' = context e.
Proof.
  rewrite define_target_and_circuits_eq.
  destruct (parameters_of _); [| discriminate].
  cbv zeta. destruct (build_truncations _ _ _ _); [| discriminate].
  intros [= <- _]. split; [reflexivity |].
  apply settle_neighbor_qubits_frame.
Qed.

Lemma kwargs_loop_returns (kwargs : list (string * Z)) :
  forall e e' : Env,
    for_each_do
      (fun '(param, value) =>
         bind (read (fun e => circuit_context (context e)))
           (fun qc =>
              if has_parameter qc param then
                update (set_context
                          (with_circuit_context (assign_parameters qc param value)))
              else raise (ValueError_ParameterNotFound param)))
      kwargs e
    = (e', OK tt) ->
    e' = assign_kwargs e kwargs.
Proof.
  induction kwargs as [| [param value] rest IH]; intros e e' Hrun.
  - injection Hrun as <-. reflexivity.
  - rewrite assign_kwargs_cons.
    cbn [for_each_do] in Hrun.
    apply bind_returns in Hrun as (e1 & [] & Hfirst & Hrest).
    apply bind_returns in Hfirst as (e0 & qc & Hread & Hassign).
    injection Hread as <- <-.
    destruct (has_parameter _ _); [| discriminate Hassign].
    injection Hassign as <-.
    exact (IH _ _ Hrest).
Qed.

(** X21: whenever [set_circuit_context] returns, the circuit context it
    leaves has no free parameter.  With a new circuit, the context is that
    circuit, whatever keywords were given: they are not read, and a new
    circuit with a free parameter makes the call raise.  Without one, the
    context is the former one with every keyword assigned. *)
Theorem X21_context_is_bound_after_update (new_context : option QuantumCircuit)
  (new_backend : option Backend) (kwargs : list (string * Z)) (e e' : Env) :
  set_circuit_context new_context new_backend kwargs e = (e', OK tt) ->
  parameters_of (circuit_context (context e')) = []
  /\ circuit_context (context e')
     = match new_context with
       | Some qc => qc
       | None => assign_all (circuit_context (context e)) kwargs
       end.
Proof.
  intros Hrun. unfold set_circuit_context in Hrun.
  apply bind_returns in Hrun as (e1 & [] & Hcontext & Hbackend).
  assert (Hsame : context e' = context e1).
  { destruct new_backend as [b |].
    - cbv [bind update] in Hbackend. injection Hbackend as <-. reflexivity.
    - injection Hbackend as <-. reflexivity. }
  rewrite Hsame. clear Hsame Hbackend e'.
  destruct new_context as [qc |].
  - apply bind_returns in Hcontext as (ea & [] & [= <-] & Hcontext).
    apply bind_returns in Hcontext as (eb & reg & [= <- Hreg] & Hcontext).
    destruct (negb _); [discriminate Hcontext |].
    apply bind_returns in Hcontext as (er & [] & [= <-] & Hcontext).
    apply bind_returns in Hcontext as (ec & current & [= <- Hcur] & Hcontext).
    apply bind_returns in Hcontext as (ed & [] & [= <-] & Hcontext).
    apply bind_returns in Hcontext as (ee & k & [= <- Hk] & Hcontext).
    destruct (k =? 0); [discriminate Hcontext |].
    apply bind_returns in Hcontext as (ef & [] & [= <-] & Hcontext).
    apply bind_returns in Hcontext as (eg & tt_ & [= <- Htimes] & Hcontext).
    apply bind_returns in Hcontext as (eh & [] & [= <-] & Hcontext).
    apply bind_returns in Hcontext as (ei & r & Hdefine & Hcontext).
    apply bind_returns in Hcontext as (ej & [] & [= <-] & Hcontext).
    injection Hcontext as <-.
    apply define_target_and_circuits_returns in Hdefine as [Hbound Hctx].
    match goal with
    | |- parameters_of (circuit_context (context ?x)) = [] /\ _ =>
        change (circuit_context (context x))
          with (circuit_context (context ei))
    end.
    rewrite Hctx. split; [exact Hbound | reflexivity].
  - apply bind_returns in Hcontext as (ea & [] & Hloop & Hcontext).
    apply kwargs_loop_returns in Hloop as ->.
    apply bind_returns in Hcontext as (eb & r & Hdefine & Hcontext).
    injection Hcontext as <-.
    apply define_target_and_circuits_returns in Hdefine as [Hbound Hctx].
    match goal with
    | |- parameters_of (circuit_context (context ?x)) = [] /\ _ =>
        change (circuit_context (context x))
          with (circuit_context (context eb))
    end.
    rewrite Hctx.
    destruct (assign_kwargs_context e kwargs) as (_ & _ & _ & _ & Hc).
    rewrite Hc in Hbound |- *. split; [exact Hbound | reflexivity].
Qed.


End Environment.


(** * Concrete environments *)

Module Demo.

Open Scope string_scope.

(** A three-qubit context: qubit 0 carries the target gate, qubit 1 is
    its nearest neighbour, qubit 2 the next one. *)
Definition x_gate : Operation := mkOperation "x" [].
Definition target_x : CircuitInstruction := mkInstruction x_gate [Qubit 0].
Definition neighbor_x : CircuitInstruction := mkInstruction x_gate [Qubit 1].
Definition rz_theta : CircuitInstruction :=
  mkInstruction (mkOperation "rz" [Symbol "theta"]) [Qubit 1].

Definition scheduled (instructions : list CircuitInstruction) (times : list Z)
  : QuantumCircuit :=
  mkCircuit "context" [Qubit 0; Qubit 1; Qubit 2] instructions (Some times).

Definition three_targets : QuantumCircuit :=
  scheduled [target_x; target_x; target_x] [0; 160; 320]%Z.

Definition a_target : GateTarget :=
  mkGateTarget x_gate [0] (new_circuit [RegBit tgt 0] "b_circ")
    [RegBit tgt 0] [(RegBit tgt 0, 0)].

Definition line : @Hardware unit unit := mkHardware None tt [0] [1] [2].

(** An environment on [three_targets] with batches of two actions of
    dimension one, at global step [g]. *)
Definition env (intermediate : bool) (steps g : Z) (ended : bool)
  : @Env unit unit unit :=
  mkEnv (mkSettings 2 1 steps intermediate false x_gate)
    line
    (mkContext three_targets [Qubit 0] target_x 3 [0; 160; 320]%Z
       [0; 160; 320]%Z (replicate 3 a_target) [] [])
    (mkEpisode g 0 ended (create_array 3 2 1) NegInf [] [])
    tt.

(** An execution collaborator that answers every call with [score], and
    one that answers with as many zeros as the batch size. *)
Definition answers (score : list np_float)
  : @Env unit unit unit -> list (list np_float) -> unit * result (list np_float) :=
  fun _ _ => (tt, OK score).

Definition answers_zeros
  : @Env unit unit unit -> list (list np_float) -> unit * result (list np_float) :=
  fun e _ => (tt, OK (zeros (batch_size (settings e)))).

Definition step_with perform :=
  @step unit unit unit unit (fun b => b) perform (fun _ => []) (fun _ => tt)
    (fun _ => OK (Finite 0)) (fun _ => OK []).

Definition steps_with perform :=
  @steps unit unit unit unit (fun b => b) perform (fun _ => []) (fun _ => tt)
    (fun _ => OK (Finite 0)) (fun _ => OK []).

Definition after_reset (e : @Env unit unit unit) : @Env unit unit unit :=
  reset_env (fun b => b) e.

Definition action : list (list np_float) := [[Finite 1]; [Finite 2]].

(** The callback: one gate on the target register, parametrized by the
    vector it is handed. *)
Definition parametrized_gate (j : nat) (reg : list Bit) : CircuitInstruction :=
  mkInstruction (mkOperation "custom" [Symbol ("a_" +:+ pretty j)]) reg.

Definition append_parametrized_gate (qc : QuantumCircuit) (j : nat)
  (reg : list Bit) : result QuantumCircuit :=
  OK (mkCircuit (qc_name qc) (qc_qubits qc)
        (data qc ++ [parametrized_gate j reg]) (op_start_times qc)).

(** The registers and the mapping [define_target_and_circuits] builds on
    [line]. *)
Definition mapping : gmap Bit Bit :=
  <[Qubit 2 := RegBit anc 0]>
    (<[Qubit 1 := RegBit nn 0]> (<[Qubit 0 := RegBit tgt 0]> ∅)).

Definition context_of (qc : QuantumCircuit) (times timings : list Z) : Context :=
  mkContext qc [Qubit 0] target_x (length timings) times timings [] [] [].

Definition truncate_on (ctx : Context) (i : nat) : result Truncation :=
  truncate append_parametrized_gate ctx [1] [2] [Qubit 1]
    [RegBit tgt 0] [RegBit nn 0] [RegBit anc 0] mapping i [(RegBit tgt 0, 0)].

(** Two gates on the neighbour, the second one late, listed before the
    single occurrence of the target. *)
Definition late_neighbor : Context :=
  context_of (scheduled [neighbor_x; neighbor_x; target_x] [0; 160; 0]%Z)
    [0; 160; 0]%Z [0]%Z.

(** Two occurrences of the target and nothing else. *)
Definition two_targets : Context :=
  context_of (scheduled [target_x; target_x] [0; 160]%Z) [0; 160]%Z [0; 160]%Z.

(** An environment whose context still has the free parameter [theta]. *)
Definition parametrized_env : @Env unit unit unit :=
  mkEnv (mkSettings 2 1 10 false false x_gate)
    line
    (mkContext (scheduled [rz_theta; target_x] [0; 0]%Z) [Qubit 0] target_x 1
       [0; 0]%Z [0]%Z [a_target] [] [])
    (mkEpisode 0 0 false (create_array 1 2 1) NegInf [] [])
    tt.

Definition update_context (kwargs : list (string * Z)) :=
  @set_circuit_context unit unit unit (fun _ => []) append_parametrized_gate
    (fun _ => 0) (fun _ _ => []) (fun b _ => b) (fun b => b) None None kwargs.

End Demo.


(** * Further concrete cases *)

Module Cases.

Open Scope string_scope.

(** The neighbours on the line 0 - 1 - 2, as the backend information
    would give them. *)
Definition line_neighbors (_ : unit) (qs : list nat) : list nat :=
  match qs with
  | [0] => [1]
  | [0; 1] => [2]
  | _ => []
  end.

(** Two occurrences of the target, each after a gate on the neighbour. *)
Definition interleaved : Context :=
  Demo.context_of
    (Demo.scheduled
       [Demo.neighbor_x; Demo.target_x; Demo.neighbor_x; Demo.target_x]
       [0; 0; 160; 160]%Z)
    [0; 0; 160; 160]%Z [0; 160]%Z.

Definition interleaved_env : @Env unit unit unit :=
  mkEnv (mkSettings 2 1 10 false false Demo.x_gate)
    Demo.line interleaved
    (mkEpisode 0 0 false (create_array 2 2 1) NegInf [] [])
    tt.

Definition define_on_line :=
  @define_target_and_circuits unit unit unit Demo.append_parametrized_gate
    (fun _ => 0) line_neighbors (fun b _ => b).

(** A circuit without the target gate. *)
Definition no_target : QuantumCircuit := Demo.scheduled [Demo.neighbor_x] [0]%Z.

(** A circuit on other bits, without the target gate. *)
Definition other_bits : QuantumCircuit :=
  mkCircuit "other" [Qubit 7; Qubit 1; Qubit 2]
    [mkInstruction Demo.x_gate [Qubit 1]] (Some [0]%Z).

(** An environment whose context has the free parameters [theta] and
    [phi]. *)
Definition rz_phi : CircuitInstruction :=
  mkInstruction (mkOperation "rz" [Symbol "phi"]) [Qubit 1].

Definition two_parameters : @Env unit unit unit :=
  set_context
    (with_circuit_context
       (Demo.scheduled [Demo.rz_theta; rz_phi; Demo.target_x] [0; 0; 0]%Z))
    Demo.parametrized_env.

Definition new_context (qc : QuantumCircuit) :=
  @set_circuit_context unit unit unit (fun _ => []) Demo.append_parametrized_gate
    (fun _ => 0) line_neighbors (fun b _ => b) (fun b => b) (Some qc) None [].

(** The second call of an episode that started on truncation 0 with
    intermediate rewards: the policy is back on truncation 0 at global
    step 3, the sub-step counter is at 1. *)
Definition past_the_level : @Env unit unit unit :=
  set_episode (with_inside_trunc_tracker 1) (Demo.env true 10 3 false).

(** An environment whose execution collaborator keeps the parameter
    array it is handed, at global step 10 of the curriculum: truncation 1
    is active, an episode takes two calls. *)
Definition recording_env : @Env (list (list np_float)) unit unit :=
  mkEnv (mkSettings 2 1 10 false false Demo.x_gate)
    Demo.line
    (context (Demo.env false 10 10 false))
    (mkEpisode 10 0 false (create_array 3 2 1) NegInf [] [])
    [].

Definition records_parameters
  : @Env (list (list np_float)) unit unit -> list (list np_float)
    -> list (list np_float) * result (list np_float) :=
  fun e params => (params, OK (zeros (batch_size (settings e)))).

Definition recording_steps :=
  @steps (list (list np_float)) unit unit unit (fun b => b) records_parameters
    (fun _ => []) (fun _ => tt) (fun _ => OK (Finite 0)) (fun _ => OK []).

End Cases.


(** * The properties on the concrete environments *)

Example demo_mapping_is_built :
  register_mapping
    [([Qubit 0], QuantumRegister 1 tgt);
     ([Qubit 1], QuantumRegister 1 nn);
     ([Qubit 2], QuantumRegister 1 anc)]
  = OK Demo.mapping.
Proof. vm_compute. reflexivity. Qed.

Example demo_truncations_are_built :
  build_truncations Demo.append_parametrized_gate
    (mkSettings 2 1 10 false false Demo.x_gate) Demo.line Demo.two_targets 2
  = (T0 ← Demo.truncate_on Demo.two_targets 0;
     T1 ← Demo.truncate_on Demo.two_targets 1;
     OK [T0; T1]).
Proof. vm_compute. reflexivity. Qed.

Lemma answers_zeros_returns : perform_action_returns Demo.answers_zeros.
Proof.
  intros e params. exists tt, (zeros (batch_size (settings e))).
  split; [reflexivity |]. split; [apply length_replicate |].
  unfold zeros. induction (batch_size (settings e)) as [| m IH];
    [reflexivity | exact IH].
Qed.

Lemma append_parametrized_gate_appends :
  callback_appends Demo.append_parametrized_gate.
Proof.
  intros qc qc' j reg [= <-]. split; [reflexivity |]. eexists. reflexivity.
Qed.

(** At global step 5 of the curriculum on three occurrences the first
    truncation is active and one call is terminal; the collaborator
    answers with a NaN. *)
Lemma C1_witness :
  exists e',
    Demo.step_with (Demo.answers [NaN; Finite 0]) Demo.action
      (Demo.env false 10 5 false)
    = (e', Raise AssertionError_NaNInf)
    /\ _episode_ended (episode e') = true
    /\ _step_tracker (episode e') = 6%Z
    /\ reward_history (episode e') = [[NaN; Finite 0]]
    /\ _inside_trunc_tracker (episode e') = 0%Z.
Proof.
  unfold Demo.step_with.
  destruct (C1_invalid_reward_raises (fun b : unit => b)
              (Demo.answers [NaN; Finite 0]) (fun _ => []) (fun _ => tt)
              (fun _ => OK (Finite 0)) (fun _ => OK [])
              (Demo.env false 10 5 false) Demo.action 0
              [[Demo.action];
               zeros3 2 2 1;
               zeros3 3 2 1]
              Demo.action tt [NaN; Finite 0])
    as (e' & Hrun & Hended & Hstep & _ & Hhistory & Hinside).
  - reflexivity.
  - reflexivity.
  - reflexivity.
  - reflexivity.
  - reflexivity.
  - simpl. lia.
  - reflexivity.
  - intros _. reflexivity.
  - reflexivity.
  - exists NaN. split; [apply list_elem_of_here | left; reflexivity].
  - exists e'. repeat split; assumption.
Defined.

(** The claim of C1 fails there: the call raises and the episode-ended
    flag, false before the call, is true after it. *)
Lemma C1_counterexample :
  let e := Demo.env false 10 5 false in
  let run := Demo.step_with (Demo.answers [NaN; Finite 0]) Demo.action e in
  run.2 = Raise AssertionError_NaNInf
  /\ _episode_ended (episode e) = false
  /\ _episode_ended (episode run.1) = true
  /\ episode run.1 <> episode e.
Proof.
  vm_compute. repeat split. discriminate.
Qed.

(** The late gate on the neighbour is listed before the single occurrence
    of the target: truncation 0 takes it, with the rest. *)
Lemma C2_witness :
  exists T tr,
    Demo.truncate_on Demo.late_neighbor 0 = OK T
    /\ admitted_trace Demo.late_neighbor [Qubit 1] 0 0 0
         (timed_program Demo.late_neighbor) = OK tr
    /\ mapM (remapped Demo.mapping) (tr.*2) = OK (data (baseline T))
    /\ forall p start_time instruction,
        (p, start_time, instruction) ∈ tr ->
        timed_program Demo.late_neighbor !! p = Some (start_time, instruction)
        /\ (exists q, q ∈ qubits instruction
                      /\ (q ∈ circ_tgt_register Demo.late_neighbor
                          \/ q ∈ [Qubit 1]))
        /\ (count ((take p (timed_program Demo.late_neighbor)).*2)
              (target_instruction Demo.late_neighbor) <= 0
            \/ exists ti,
                 getitem (_target_instruction_timings Demo.late_neighbor)
                   (Z.of_nat 0) = OK ti
                 /\ (start_time <= ti)%Z).
Proof.
  destruct (Demo.truncate_on Demo.late_neighbor 0) as [T |] eqn:Hrun;
    [| vm_compute in Hrun; discriminate Hrun].
  unfold Demo.truncate_on in Hrun.
  destruct (C2_admitted_instructions Demo.append_parametrized_gate
              Demo.late_neighbor [1] [2] [Qubit 1] [RegBit tgt 0]
              [RegBit nn 0] [RegBit anc 0] Demo.mapping 0 [(RegBit tgt 0, 0)] T)
    as (tr & Htr & Hmap & Hall).
  - vm_compute. reflexivity.
  - exact Hrun.
  - exists T, tr. split; [reflexivity |]. split; [exact Htr |].
    split; [exact Hmap | exact Hall].
Defined.

(** The claim of C2 fails there: truncation 0 holds the gate that starts at
    160 although its target occurrence starts at 0. *)
Lemma C2_counterexample :
  exists T,
    Demo.truncate_on Demo.late_neighbor 0 = OK T
    /\ admitted_trace Demo.late_neighbor [Qubit 1] 0 0 0
         (timed_program Demo.late_neighbor)
       = OK [(0, 0%Z, Demo.neighbor_x); (1, 160%Z, Demo.neighbor_x);
             (2, 0%Z, Demo.target_x)]
    /\ data (baseline T)
       = [mkInstruction Demo.x_gate [RegBit nn 0];
          mkInstruction Demo.x_gate [RegBit nn 0];
          mkInstruction Demo.x_gate [RegBit tgt 0]]
    /\ target_instruction_timings (fun _ => [])
         (circuit_context Demo.late_neighbor) Demo.target_x
       = OK ([0; 160; 0]%Z, [0]%Z)
    /\ ~ (160 <= 0)%Z.
Proof.
  eexists. split; [vm_compute; reflexivity |].
  split; [vm_compute; reflexivity |].
  split; [reflexivity |]. split; [vm_compute; reflexivity | lia].
Qed.

Lemma demo_env_consistent (intermediate : bool) (g : Z) (ended : bool) :
  (0 <= g)%Z -> consistent (Demo.env intermediate 10 g ended).
Proof.
  intros Hg. unfold consistent.
  split; [vm_compute; lia |]. split; [reflexivity |]. split; [reflexivity |].
  split; [exact Hg | reflexivity].
Qed.

(** Curriculum on three occurrences with ten steps each: from global step
    25 on, the third truncation is active and stays so; three calls make
    the episode. *)
Lemma C3_witness :
  exists e' rs,
    Demo.steps_with Demo.answers_zeros [Demo.action; Demo.action; Demo.action]
      (Demo.after_reset (Demo.env false 10 25 false))
    = (e', OK rs)
    /\ length rs = 2 + 1
    /\ (forall i r, i < 2 -> rs !! i = Some r -> terminated r = false)
    /\ (exists r, rs !! 2 = Some r /\ terminated r = true)
    /\ _episode_ended (episode e') = true.
Proof.
  unfold Demo.steps_with, Demo.after_reset.
  apply (C3_episode_takes_t_plus_one_steps (fun b : unit => b)
           Demo.answers_zeros (fun _ => []) (fun _ => tt)
           (fun _ => OK (Finite 0)) (fun _ => OK [])
           (Demo.env false 10 25 false) 2).
  - apply demo_env_consistent. lia.
  - exact answers_zeros_returns.
  - intros e _. split; reflexivity.
  - intros [| [| [| i]]] Hi; [reflexivity | reflexivity | reflexivity | lia].
  - reflexivity.
  - repeat constructor.
Defined.

(** The claim of C3 fails on both modes.  Curriculum, reset at global
    step 19: the policy selects truncation 1, yet the second call is not
    terminal, because the policy has moved to truncation 2 at global step
    20; the third call is.  Intermediate rewards, reset at global step 1:
    the policy selects truncation 1, the second call sees truncation 2 and
    is not terminal, the third sees truncation 0 and fails on the write
    into row 2 of a one-row level. *)
Lemma C3_counterexample :
  let curriculum := Demo.after_reset (Demo.env false 10 19 false) in
  let round_robin := Demo.after_reset (Demo.env true 10 1 false) in
  let flags actions e :=
    map terminated <$> (Demo.steps_with Demo.answers_zeros actions e).2 in
  (trunc_index curriculum = OK 1%Z
   /\ flags [Demo.action; Demo.action] curriculum = OK [false; false]
   /\ flags [Demo.action; Demo.action; Demo.action] curriculum
      = OK [false; false; true])
  /\ (trunc_index round_robin = OK 1%Z
      /\ flags [Demo.action; Demo.action] round_robin = OK [false; false]
      /\ flags [Demo.action; Demo.action; Demo.action] round_robin
         = Raise IndexError).
Proof.
  vm_compute. repeat split.
Qed.

(** Intermediate rewards off, ten steps per occurrence, three
    occurrences, global step 25; and the same context with intermediate
    rewards on. *)
Lemma C4_witness :
  trunc_index (Demo.env true 10 25 false) = OK (25 mod 3)%Z
  /\ trunc_index (Demo.env false 10 25 false) = OK (Z.min (25 / 10) (3 - 1))%Z
  /\ trunc_index (Demo.env false 10 25 false) = OK 2%Z.
Proof.
  destruct (C4_trunc_index_policy (Demo.env true 10 25 false)
              ltac:(vm_compute; lia)) as (Hround & _ & _).
  destruct (C4_trunc_index_policy (Demo.env false 10 25 false)
              ltac:(vm_compute; lia)) as (_ & Hcurriculum & Hscenario).
  split; [apply Hround; reflexivity |].
  split; [apply Hcurriculum; [reflexivity | discriminate] |].
  apply Hscenario; reflexivity.
Defined.





(** C7: flattening a level mixes the batch elements.  Two blocks
    [[a], [b]] and [[c], [d]] written into rows 0 and 1 of level 1, batches
    of two, actions of dimension one: the level holds the two blocks, and
    the array [step] flattens it to and hands to the execution collaborator
    is [[a, b], [c, d]], whose row 0 holds the first action of both batch
    elements; the written blocks concatenated without reordering are
    [[a, c], [b, d]]. *)
Theorem C7_flatten_mixes_batch_elements (a b c d : np_float) :
  let first := [[a]; [b]] in
  let second := [[c]; [d]] in
  (exists buffer,
      write_rows (create_array 3 2 1) 1 0 [first; second] = OK buffer
      /\ buffer !! 1 = Some [first; second]
      /\ flatten_params buffer 1 2 1 = OK [[a; b]; [c; d]])
  /\ spec_flatten 2 [first; second] = [[a; c]; [b; d]]
  /\ base (Cases.recording_steps [first; second]
             (reset_env (fun b => b) Cases.recording_env)).1
     = [[a; b]; [c; d]].
Proof.
  intros first second. split; [| split].
  - eexists. split; [reflexivity |]. split; reflexivity.
  - reflexivity.
  - vm_compute. reflexivity.
Qed.

(** The same level flattened directly. *)
Example flatten_params_rows :
  flatten_params
    [zeros3 1 2 1; [[[Finite 1]; [Finite 2]]; [[Finite 3]; [Finite 4]]];
     zeros3 3 2 1] 1 2 1
  = OK [[Finite 1; Finite 2]; [Finite 3; Finite 4]].
Proof. reflexivity. Qed.

(** [theta] is a parameter of the context, [phi] is not. *)
Lemma C8_witness :
  exists e',
    Demo.update_context [("theta", 1%Z); ("phi", 2%Z)]%string
      Demo.parametrized_env
    = (e', Raise (ValueError_ParameterNotFound "phi"))
    /\ settings e' = settings Demo.parametrized_env
    /\ hardware e' = hardware Demo.parametrized_env
    /\ episode e' = episode Demo.parametrized_env
    /\ base e' = base Demo.parametrized_env
    /\ context e'
       = with_circuit_context
           (assign_all (circuit_context (context Demo.parametrized_env))
              [("theta", 1%Z)]%string)
           (context Demo.parametrized_env)
    /\ ([("theta", 1%Z)]%string = [] -> e' = Demo.parametrized_env).
Proof.
  unfold Demo.update_context.
  apply (C8_unknown_parameter (fun _ => []) Demo.append_parametrized_gate
           (fun _ => 0) (fun _ _ => []) (fun b _ => b) (fun b : unit => b)
           Demo.parametrized_env [("theta", 1%Z)]%string [] "phi"%string 2%Z None).
  - vm_compute. reflexivity.
  - vm_compute. reflexivity.
Defined.

(** The claim of C8 fails there: the call raises on [phi] after it has
    bound [theta] in the context. *)
Lemma C8_counterexample :
  let run :=
    Demo.update_context [("theta", 1%Z); ("phi", 2%Z)]%string
      Demo.parametrized_env in
  run.2 = Raise (ValueError_ParameterNotFound "phi")
  /\ parameters_of (circuit_context (context Demo.parametrized_env))
     = ["theta"%string]
  /\ parameters_of (circuit_context (context run.1)) = []
  /\ circuit_context (context run.1)
     <> circuit_context (context Demo.parametrized_env).
Proof.
  vm_compute. repeat split. discriminate.
Qed.

(** Global step 25 of the curriculum, and a call that returns. *)
Lemma C9_witness :
  (2 < Z.of_nat (tgt_instruction_counts (Demo.env false 10 25 false)))%Z
  /\ (exists t, trunc_index (Demo.env true 10 25 false) = OK t
                /\ (t < Z.of_nat (tgt_instruction_counts
                                    (Demo.env true 10 25 false)))%Z)
  /\ (exists e' r,
         Demo.step_with Demo.answers_zeros Demo.action
           (Demo.env false 10 25 false) = (e', OK r)
         /\ truncated r = false).
Proof.
  destruct (C9_trunc_index_below_count (fun b : unit => b) Demo.answers_zeros
              (fun _ => []) (fun _ => tt) (fun _ => OK (Finite 0))
              (fun _ => OK []))
    as (Hbelow & Htotal & Hstep).
  split; [| split].
  - apply (Hbelow (Demo.env false 10 25 false)). reflexivity.
  - apply Htotal; [vm_compute; lia | discriminate].
  - destruct (Demo.step_with Demo.answers_zeros Demo.action
                (Demo.env false 10 25 false)) as [e' [r | x]] eqn:Hrun;
      [| vm_compute in Hrun; discriminate Hrun].
    exists e', r. split; [reflexivity |].
    exact (Hstep Demo.action (Demo.env false 10 25 false) e' r Hrun).
Defined.

(** The episode has ended at global step 7; the batch handed over is
    empty, not of the configured size. *)
Lemma C10_witness :
  let e := Demo.env false 10 7 true in
  let e' := Demo.after_reset (count_step e) in
  exists o,
    (reset (fun b : unit => b) (fun _ => tt) (fun _ => OK (Finite 0))
       (fun _ => OK []) (count_step e)).2 = OK (o, tt)
    /\ Demo.step_with Demo.answers_zeros [] e
       = (e', OK (mkStepReturn o (zeros 2) true false tt))
    /\ _step_tracker (episode e') = 8%Z
    /\ _param_values (episode e') = create_array 3 2 1
    /\ _inside_trunc_tracker (episode e') = 0%Z.
Proof.
  intros e e'.
  apply (C10_step_after_episode_end (fun b : unit => b) Demo.answers_zeros
           (fun _ => []) (fun _ => tt) (fun _ => OK (Finite 0)) (fun _ => OK [])
           e []).
  - apply demo_env_consistent. lia.
  - reflexivity.
  - intros Hstate. vm_compute in Hstate. discriminate Hstate.
Defined.


(** * The further properties on the concrete environments *)

(** With intermediate rewards and a circuit without the target the policy
    fails and the call changes nothing; at global step 5 of the
    curriculum the call is counted. *)
Lemma X1_witness :
  Demo.step_with Demo.answers_zeros Demo.action
    (set_context (with_circuit_context Cases.no_target)
       (Demo.env true 10 5 false))
  = (set_context (with_circuit_context Cases.no_target)
       (Demo.env true 10 5 false), Raise ZeroDivisionError)
  /\ _step_tracker
       (episode (Demo.step_with Demo.answers_zeros Demo.action
                   (Demo.env false 10 5 false)).1) = (5 + 1)%Z.
Proof.
  split.
  - apply (X1_step_counts_once (fun b : unit => b) Demo.answers_zeros
             (fun _ => []) (fun _ => tt) (fun _ => OK (Finite 0))
             (fun _ => OK []) Demo.action
             (set_context (with_circuit_context Cases.no_target)
                (Demo.env true 10 5 false))).
    vm_compute. reflexivity.
  - destruct (X1_step_counts_once (fun b : unit => b) Demo.answers_zeros
                (fun _ => []) (fun _ => tt) (fun _ => OK (Finite 0))
                (fun _ => OK []) Demo.action (Demo.env false 10 5 false))
      as [_ Hcounted].
    destruct (Hcounted 0%Z ltac:(vm_compute; reflexivity)) as [Htracker _].
    exact Htracker.
Defined.

(** An empty batch where two actions are expected. *)
Lemma X2_witness :
  Demo.step_with Demo.answers_zeros [] (Demo.env false 10 5 false)
  = (count_step (Demo.env false 10 5 false), Raise (ValueError_BatchSize 0 2)).
Proof.
  apply (X2_batch_size_mismatch (fun b : unit => b) Demo.answers_zeros
           (fun _ => []) (fun _ => tt) (fun _ => OK (Finite 0)) (fun _ => OK [])
           [] (Demo.env false 10 5 false) 0%Z).
  - reflexivity.
  - vm_compute. reflexivity.
  - vm_compute. discriminate.
Defined.

(** First call at global step 25 of the curriculum: truncation 2 is
    active, the call is a sub-step. *)
Lemma X3_witness :
  exists e' o,
    Demo.step_with Demo.answers_zeros Demo.action (Demo.env false 10 25 false)
    = (e', OK (mkStepReturn o (zeros 2) false false tt))
    /\ base e' = tt
    /\ _episode_ended (episode e') = false.
Proof.
  destruct (write_params (_param_values (episode (Demo.env false 10 25 false)))
              2 0 Demo.action) as [buffer |] eqn:Hwrite;
    [| vm_compute in Hwrite; discriminate Hwrite].
  destruct (flatten_params buffer 2 2 1) as [params |] eqn:Hflat;
    [| vm_compute in Hwrite; injection Hwrite as <-;
       vm_compute in Hflat; discriminate Hflat].
  eexists _, [Finite 0; Finite 160].
  apply (X3_intermediate_step_without_rewards (fun b : unit => b)
           Demo.answers_zeros (fun _ => []) (fun _ => tt)
           (fun _ => OK (Finite 0)) (fun _ => OK []) Demo.action
           (Demo.env false 10 25 false) 2%Z buffer params).
  - reflexivity.
  - reflexivity.
  - vm_compute. reflexivity.
  - reflexivity.
  - exact Hwrite.
  - exact Hflat.
  - vm_compute. reflexivity.
  - vm_compute. reflexivity.
Defined.

(** The same call with intermediate rewards, at global step 2. *)
Lemma X4_witness :
  exists e',
    Demo.step_with Demo.answers_zeros Demo.action (Demo.env true 10 2 false)
    = (e', OK (mkStepReturn (zeros 2) (zeros 2) false false tt))
    /\ _episode_ended (episode e') = false.
Proof.
  destruct (write_params (_param_values (episode (Demo.env true 10 2 false)))
              2 0 Demo.action) as [buffer |] eqn:Hwrite;
    [| vm_compute in Hwrite; discriminate Hwrite].
  destruct (flatten_params buffer 2 2 1) as [params |] eqn:Hflat;
    [| vm_compute in Hwrite; injection Hwrite as <-;
       vm_compute in Hflat; discriminate Hflat].
  eexists.
  apply (X4_intermediate_step_with_rewards (fun b : unit => b)
           Demo.answers_zeros (fun _ => []) (fun _ => tt)
           (fun _ => OK (Finite 0)) (fun _ => OK []) Demo.action
           (Demo.env true 10 2 false) 2%Z buffer params tt (zeros 2)).
  - reflexivity.
  - reflexivity.
  - vm_compute. reflexivity.
  - reflexivity.
  - exact Hwrite.
  - exact Hflat.
  - vm_compute. reflexivity.
  - reflexivity.
Defined.

(** The sub-step counter is past the one row of level 0. *)
Lemma X5_witness :
  Demo.step_with Demo.answers_zeros Demo.action Cases.past_the_level
  = (count_step Cases.past_the_level, Raise IndexError).
Proof.
  apply (X5_sub_step_beyond_truncation (fun b : unit => b) Demo.answers_zeros
           (fun _ => []) (fun _ => tt) (fun _ => OK (Finite 0)) (fun _ => OK [])
           Demo.action Cases.past_the_level 0%Z).
  - reflexivity.
  - vm_compute. reflexivity.
  - lia.
  - exact (create_array_ok 3 2 1).
  - vm_compute. reflexivity.
  - reflexivity.
Defined.

(** A terminal call whose collaborator fails: the episode has ended all
    the same. *)
Lemma X6_witness :
  _episode_ended
    (episode (Demo.step_with (fun _ _ => (tt, Raise IndexError)) Demo.action
                (Demo.env false 10 5 false)).1) = true.
Proof.
  destruct (write_params (_param_values (episode (Demo.env false 10 5 false)))
              0 0 Demo.action) as [buffer |] eqn:Hwrite;
    [| vm_compute in Hwrite; discriminate Hwrite].
  destruct (flatten_params buffer 0 2 1) as [params |] eqn:Hflat;
    [| vm_compute in Hwrite; injection Hwrite as <-;
       vm_compute in Hflat; discriminate Hflat].
  apply (X6_terminal_branch_ends_episode (fun b : unit => b)
           (fun _ _ => (tt, Raise IndexError)) (fun _ => []) (fun _ => tt)
           (fun _ => OK (Finite 0)) (fun _ => OK []) Demo.action
           (Demo.env false 10 5 false) 0%Z buffer params).
  - reflexivity.
  - vm_compute. reflexivity.
  - reflexivity.
  - exact Hwrite.
  - exact Hflat.
  - vm_compute. discriminate.
Defined.

(** A terminal call whose collaborator answers one half twice. *)
Lemma X7_witness :
  exists e' r,
    Demo.step_with (Demo.answers [Finite (1 / 2); Finite (1 / 2)]) Demo.action
      (Demo.env false 10 5 false) = (e', OK r)
    /\ length (reward r) = 2
    /\ Forall (fun x => exists v, x = Finite v /\ (0 <= v <= - ln 1e-6)%R)
         (reward r).
Proof.
  destruct (Demo.step_with (Demo.answers [Finite (1 / 2); Finite (1 / 2)])
              Demo.action (Demo.env false 10 5 false))
    as [e' [r | x]] eqn:Hrun.
  - exists e', r. split; [reflexivity |].
    apply (X7_terminal_reward_in_range (fun b : unit => b)
             (Demo.answers [Finite (1 / 2); Finite (1 / 2)]) (fun _ => [])
             (fun _ => tt) (fun _ => OK (Finite 0)) (fun _ => OK [])
             Demo.action (Demo.env false 10 5 false) e' r eq_refl Hrun).
    unfold Demo.step_with in Hrun.
    rewrite step_eq in Hrun. cbv in Hrun.
    repeat match type of Hrun with
           | context [Rlt_dec ?a ?b] => destruct (Rlt_dec a b)
           | context [Rle_dec ?a ?b] => destruct (Rle_dec a b)
           end;
      try (injection Hrun as _ <-; reflexivity);
      try discriminate Hrun.
  - exfalso. unfold Demo.step_with in Hrun.
    rewrite step_eq in Hrun. cbv in Hrun.
    repeat match type of Hrun with
           | context [Rlt_dec ?a ?b] => destruct (Rlt_dec a b)
           | context [Rle_dec ?a ?b] => destruct (Rle_dec a b)
           end;
      try discriminate Hrun; lra.
Defined.

(** Ten steps per occurrence, three occurrences: global steps 5 and 25. *)
Lemma X8_witness :
  exists t t',
    trunc_index_at (Demo.env false 10 0 false) 5 = OK t
    /\ trunc_index_at (Demo.env false 10 0 false) 25 = OK t'
    /\ (t <= t')%Z
    /\ t = 0%Z.
Proof.
  destruct (X8_curriculum_is_monotone (Demo.env false 10 0 false) 5 25
              eq_refl ltac:(vm_compute; reflexivity) ltac:(vm_compute; lia)
              ltac:(lia))
    as (t & t' & Ht & Ht' & Hle & Hfirst & _).
  exists t, t'. repeat split; try assumption.
  apply Hfirst. vm_compute. split; [discriminate | reflexivity].
Defined.

(** Three occurrences, global step 25. *)
Lemma X9_witness :
  exists t,
    trunc_index_at (Demo.env true 10 0 false) 25 = OK t
    /\ (0 <= t < 3)%Z
    /\ trunc_index_at (Demo.env true 10 0 false) (25 + 1)
       = OK (if (t + 1 =? 3)%Z then 0%Z else (t + 1)%Z)
    /\ trunc_index_at (Demo.env true 10 0 false) (25 + 3) = OK t.
Proof.
  exact (X9_round_robin (Demo.env true 10 0 false) 25 eq_refl
           ltac:(vm_compute; lia)).
Defined.

Lemma X10_witness :
  exists n,
    (forall global_step,
        episode_length (Demo.env false 10 25 false) global_step = OK n)
    /\ (1 <= n <= 3)%Z.
Proof.
  exact (X10_episode_length_bounds (Demo.env false 10 25 false)
           (demo_env_consistent false 25 false ltac:(lia))).
Defined.

(** The occurrences of the target between gates on the neighbour. *)
Lemma X11_witness :
  exists timings,
    target_instruction_timings (fun _ => [])
      (circuit_context Cases.interleaved) Demo.target_x
    = OK ([0; 0; 160; 160]%Z, timings)
    /\ timings
       = (filter (fun p => p.2 = Demo.target_x)
            (zip [0; 0; 160; 160]%Z (data (circuit_context Cases.interleaved)))).*1
    /\ length timings = count (data (circuit_context Cases.interleaved))
                          Demo.target_x.
Proof.
  apply (X11_target_instruction_timings (fun _ => [])
           (circuit_context Cases.interleaved) Demo.target_x).
  vm_compute. lia.
Defined.

Lemma X12_witness :
  exists e' targets customs baselines,
    Cases.define_on_line Cases.interleaved_env
    = (e', OK (targets, customs, baselines))
    /\ length targets = 2
    /\ length customs = 2
    /\ length baselines = 2
    /\ map gt_circuit targets = baselines
    /\ settings e' = settings Cases.interleaved_env
    /\ context e' = context Cases.interleaved_env
    /\ episode e' = episode Cases.interleaved_env.
Proof.
  destruct (Cases.define_on_line Cases.interleaved_env)
    as [e' [[[targets customs] baselines] | x]] eqn:Hrun;
    [| vm_compute in Hrun; discriminate Hrun].
  exists e', targets, customs, baselines. split; [reflexivity |].
  exact (X12_one_truncation_per_occurrence Demo.append_parametrized_gate
           (fun _ => 0) Cases.line_neighbors (fun b _ => b)
           Cases.interleaved_env e' targets customs baselines Hrun).
Defined.

(** Truncation 1 of the interleaved context. *)
Lemma X13_witness :
  exists T,
    Demo.truncate_on Cases.interleaved 1 = OK T
    /\ circuit_well_formed (baseline T)
    /\ [RegBit tgt 0] `prefix_of` qc_qubits (baseline T).
Proof.
  destruct (Demo.truncate_on Cases.interleaved 1) as [T |] eqn:Hrun;
    [| vm_compute in Hrun; discriminate Hrun].
  exists T. split; [reflexivity |].
  apply (X13_baseline_is_well_formed Demo.append_parametrized_gate
           Cases.interleaved [1] [2] [Qubit 1] [RegBit tgt 0] [RegBit nn 0]
           [RegBit anc 0] Demo.mapping 1 [(RegBit tgt 0, 0)] T).
  - repeat constructor. apply not_elem_of_nil.
  - exact Hrun.
Defined.

Lemma X14_witness :
  exists T,
    Demo.truncate_on Cases.interleaved 1 = OK T
    /\ 1 < counts T <= 2.
Proof.
  destruct (Demo.truncate_on Cases.interleaved 1) as [T |] eqn:Hrun;
    [| vm_compute in Hrun; discriminate Hrun].
  exists T. split; [reflexivity |].
  apply (X14_sites_of_a_truncation Demo.append_parametrized_gate
           Cases.interleaved [1] [2] [Qubit 1] [RegBit tgt 0] [RegBit nn 0]
           [RegBit anc 0] Demo.mapping 1 [(RegBit tgt 0, 0)] T).
  - vm_compute. reflexivity.
  - vm_compute. lia.
  - exact Hrun.
Defined.

(** [theta] is assigned, [phi] is left. *)
Lemma X15_witness :
  Demo.update_context [("theta", 1%Z)]%string Cases.two_parameters
  = (assign_kwargs Cases.two_parameters [("theta", 1%Z)]%string,
     Raise ValueError_UnassignedParameters)
  /\ hardware (assign_kwargs Cases.two_parameters [("theta", 1%Z)]%string)
     = hardware Cases.two_parameters
  /\ _target (context (assign_kwargs Cases.two_parameters
                         [("theta", 1%Z)]%string))
     = _target (context Cases.two_parameters)
  /\ circuits (context (assign_kwargs Cases.two_parameters
                          [("theta", 1%Z)]%string))
     = circuits (context Cases.two_parameters)
  /\ baseline_circuits (context (assign_kwargs Cases.two_parameters
                                   [("theta", 1%Z)]%string))
     = baseline_circuits (context Cases.two_parameters).
Proof.
  unfold Demo.update_context.
  apply (X15_parameters_left_unassigned (fun _ => [])
           Demo.append_parametrized_gate (fun _ => 0) (fun _ _ => [])
           (fun b _ => b) (fun b : unit => b) Cases.two_parameters
           [("theta", 1%Z)]%string None).
  - vm_compute. reflexivity.
  - vm_compute. discriminate.
Defined.

(** A new circuit without the target gate, in the curriculum. *)
Lemma X16_witness :
  let e' :=
    set_context (with_target_register [Qubit 0] Demo.target_x)
      (set_context (with_circuit_context Cases.no_target)
         (Demo.env false 10 0 false)) in
  Cases.new_context Cases.no_target (Demo.env false 10 0 false)
  = (e', Raise ValueError_TargetNotFound)
  /\ circuit_context (context e') = Cases.no_target
  /\ _target_instruction_timings (context e') = [0; 160; 320]%Z
  /\ _target (context e') = replicate 3 Demo.a_target
  /\ circuits (context e') = []
  /\ baseline_circuits (context e') = []
  /\ episode e' = episode (Demo.env false 10 0 false).
Proof.
  unfold Cases.new_context.
  apply (X16_new_context_without_target (fun _ => [])
           Demo.append_parametrized_gate (fun _ => 0) Cases.line_neighbors
           (fun b _ => b) (fun b : unit => b) (Demo.env false 10 0 false)
           Cases.no_target [Qubit 0] Demo.a_target None []).
  - vm_compute. reflexivity.
  - repeat constructor. apply not_elem_of_nil.
  - vm_compute. reflexivity.
  - vm_compute. reflexivity.
Defined.

(** A new circuit without the target gate, on other bits, with
    intermediate rewards. *)
Lemma X17_witness :
  let e' :=
    set_context (with_circ_tgt_register [Qubit 7])
      (set_context (with_circuit_context Cases.other_bits)
         (Demo.env true 10 0 false)) in
  Cases.new_context Cases.other_bits (Demo.env true 10 0 false)
  = (e', Raise ZeroDivisionError)
  /\ circuit_context (context e') = Cases.other_bits
  /\ circ_tgt_register (context e') = [Qubit 7]
  /\ target_instruction (context e') = Demo.target_x
  /\ _target_instruction_timings (context e') = [0; 160; 320]%Z
  /\ _target (context e') = replicate 3 Demo.a_target
  /\ episode e' = episode (Demo.env true 10 0 false).
Proof.
  unfold Cases.new_context.
  apply (X17_new_context_round_robin (fun _ => [])
           Demo.append_parametrized_gate (fun _ => 0) Cases.line_neighbors
           (fun b _ => b) (fun b : unit => b) (Demo.env true 10 0 false)
           Cases.other_bits [Qubit 7] None []).
  - reflexivity.
  - vm_compute. reflexivity.
  - repeat constructor. apply not_elem_of_nil.
  - vm_compute. reflexivity.
Defined.

(** Reset at global step 25 of the curriculum. *)
Lemma X18_witness :
  exists t0,
    _target_instruction_timings (context (Demo.env false 10 25 false)) !! 0
    = Some t0
    /\ reset (fun b : unit => b) (fun _ => tt) (fun _ => OK (Finite 0))
         (fun _ => OK []) (Demo.env false 10 25 false)
       = (Demo.after_reset (Demo.env false 10 25 false),
          OK ([Finite 0; Finite (IZR t0)], tt))
    /\ _step_tracker (episode (Demo.after_reset (Demo.env false 10 25 false)))
       = 25%Z
    /\ settings (Demo.after_reset (Demo.env false 10 25 false))
       = settings (Demo.env false 10 25 false)
    /\ context (Demo.after_reset (Demo.env false 10 25 false))
       = context (Demo.env false 10 25 false).
Proof.
  unfold Demo.after_reset.
  apply (X18_reset_observation (fun b : unit => b) (fun _ => tt)
           (fun _ => OK (Finite 0)) (fun _ => OK [])
           (Demo.env false 10 25 false)).
  - apply demo_env_consistent. lia.
  - reflexivity.
Defined.

(** Level 1 of the buffer for three occurrences. *)
Lemma X19_witness :
  length (create_array 3 2 1) = 3
  /\ 2 * length (concat (create_array 3 2 1)) = 3 * (3 + 1)
  /\ length (zeros3 2 2 1) = 1 + 1.
Proof.
  destruct (X19_create_array_shape 3 2 1) as (Hlevels & Hblocks & Hlevel).
  split; [exact Hlevels |]. split; [exact Hblocks |].
  destruct (Hlevel 1 (zeros3 2 2 1) eq_refl) as [Hlength _].
  exact Hlength.
Defined.

(** One block written into level 2 of three. *)
Lemma X20_witness :
  exists buffer arr,
    write_rows (create_array 3 2 1) 2 0 [Demo.action] = OK buffer
    /\ buffer !! 2 = Some ([Demo.action] ++ zeros3 (2 + 1 - 1) 2 1)
    /\ (forall j, j <> 2 -> buffer !! j = create_array 3 2 1 !! j)
    /\ flatten_params buffer (Z.of_nat 2) 2 1 = OK arr
    /\ ravel arr
       = concat (map ravel [Demo.action])
         ++ replicate ((2 + 1 - 1) * (2 * 1)) (Finite 0).
Proof.
  apply (X20_partial_level_is_zero_padded 3 2 1 2 [Demo.action]).
  - lia.
  - cbn. lia.
  - repeat constructor.
Defined.

(** The interleaved circuit as a new context, and [theta] assigned in the
    parametrized one. *)
Lemma X21_witness :
  (exists e',
      Cases.new_context (circuit_context Cases.interleaved)
        (Demo.env false 10 0 false) = (e', OK tt)
      /\ parameters_of (circuit_context (context e')) = []
      /\ circuit_context (context e') = circuit_context Cases.interleaved)
  /\ (exists e',
         Demo.update_context [("theta", 1%Z)]%string Demo.parametrized_env
         = (e', OK tt)
         /\ parameters_of (circuit_context (context e')) = []
         /\ circuit_context (context e')
            = assign_all (circuit_context (context Demo.parametrized_env))
                [("theta", 1%Z)]%string).
Proof.
  split.
  - destruct (Cases.new_context (circuit_context Cases.interleaved)
                (Demo.env false 10 0 false)) as [e' [[] | x]] eqn:Hrun;
      [| vm_compute in Hrun; discriminate Hrun].
    exists e'. split; [reflexivity |].
    exact (X21_context_is_bound_after_update (fun _ => [])
             Demo.append_parametrized_gate (fun _ => 0) Cases.line_neighbors
             (fun b _ => b) (fun b : unit => b)
             (Some (circuit_context Cases.interleaved)) None []
             (Demo.env false 10 0 false) e' Hrun).
  - destruct (Demo.update_context [("theta", 1%Z)]%string
                Demo.parametrized_env) as [e' [[] | x]] eqn:Hrun;
      [| vm_compute in Hrun; discriminate Hrun].
    exists e'. split; [reflexivity |].
    exact (X21_context_is_bound_after_update (fun _ => [])
             Demo.append_parametrized_gate (fun _ => 0) (fun _ _ => [])
             (fun b _ => b) (fun b : unit => b) None None
             [("theta", 1%Z)]%string Demo.parametrized_env e' Hrun).
Defined.
